(** * monosize: bundler adapters and multi-entry batching

    A shallow embedding of the bundler adapters of monosize (the webpack
    runner [runWebpack.mts], the esbuild adapter and the rspack adapter)
    together with the statements of their specification.

    Strings are [string]; JavaScript objects used as dictionaries are
    [gmap string _], with [assign] for an assignment to a property of an
    object that started as [{}]; a [Set<string>] is a [gset string]; asynchronous
    functions are computations in a small log-and-rejection monad. *)

From Stdlib Require Import Ascii List Bool Arith Lia.
From Stdlib Require String.
From stdpp Require Import base option list gmap strings pretty.

#[local] Set Warnings "-clear-no-such-hyp".

(** ** Strings as character lists *)

Definition chars (s : string) : list ascii := String.list_ascii_of_string s.
Definition str (l : list ascii) : string := String.string_of_list_ascii l.

(** ** [node:path], POSIX flavour

    The adapters only use [path.basename], [path.extname], [path.dirname]
    and [path.join]. They are library functions of the platform; the
    definitions below follow the algorithms of Node's [lib/path.js]
    (posix), scanning a path from its end. *)

Module Path.

Definition is_slash (c : ascii) : bool := Ascii.eqb c "/".
Definition is_dot (c : ascii) : bool := Ascii.eqb c ".".

(** Scanning is done on the reversed path: [drop_slashes] skips the
    trailing separators, [take_part] reads the last portion and
    [drop_part] skips it. *)
Fixpoint drop_slashes (r : list ascii) : list ascii :=
  match r with
  | c :: r' => if is_slash c then drop_slashes r' else r
  | [] => []
  end.

Fixpoint take_slashes (r : list ascii) : list ascii :=
  match r with
  | c :: r' => if is_slash c then c :: take_slashes r' else []
  | [] => []
  end.

Fixpoint take_part (r : list ascii) : list ascii :=
  match r with
  | c :: r' => if is_slash c then [] else c :: take_part r'
  | [] => []
  end.

Fixpoint drop_part (r : list ascii) : list ascii :=
  match r with
  | c :: r' => if is_slash c then r else drop_part r'
  | [] => []
  end.

(** The last portion of a path, trailing separators ignored. *)
Definition last_part (p : list ascii) : list ascii :=
  rev (take_part (drop_slashes (rev p))).

(** [path.basename(p)] *)
Definition basename_l (p : list ascii) : list ascii := last_part p.

(** Outcome of matching a suffix backwards against the last portion. *)
Inductive suffix_match : Type :=
| Full (rest : list ascii)   (* suffix matched; [rest] precedes it, reversed *)
| Mismatch                   (* some character differs *)
| Exhausted.                 (* the portion ended before the suffix did *)

Fixpoint match_rev (rs rc : list ascii) : suffix_match :=
  match rs, rc with
  | [], rest => Full rest
  | _ :: _, [] => Exhausted
  | a :: rs', c :: rc' => if Ascii.eqb a c then match_rev rs' rc' else Mismatch
  end.

(** [path.basename(p, suffix)]. When the portion is exactly the suffix
    it is returned whole (unless the whole path is the suffix, which
    gives the empty string); when the portion ends before the suffix
    does, Node returns everything from the start of the portion. *)
Definition basename_ext_l (p suffix : list ascii) : list ascii :=
  if negb (Nat.eqb (length suffix) 0) && (length suffix <=? length p) then
    if bool_decide (suffix = p) then []
    else
      let r := drop_slashes (rev p) in
      match match_rev (rev suffix) (take_part r) with
      | Full [] => last_part p
      | Full rest => rev rest
      | Mismatch => last_part p
      | Exhausted => last_part p ++ rev (take_slashes (rev p))
      end
  else basename_l p.

(** Splits a reversed portion at its last dot (the first one met when
    scanning backwards): [Some (ext_rev, before_rev)]. *)
Fixpoint split_dot (rc : list ascii) : option (list ascii * list ascii) :=
  match rc with
  | [] => None
  | c :: rc' =>
      if is_dot c then Some ([], rc')
      else match split_dot rc' with
           | Some (e, b) => Some (c :: e, b)
           | None => None
           end
  end.

(** [path.extname(p)]: from the last dot of the last portion; empty when
    there is no dot, when the only dot is the first character, and for
    the portion [..]. *)
Definition extname_l (p : list ascii) : list ascii :=
  let rc := take_part (drop_slashes (rev p)) in
  match split_dot rc with
  | None => []
  | Some (e, b) =>
      match b with
      | [] => []
      | _ => if bool_decide (rc = chars "..") then []
             else "."%char :: rev e
      end
  end.

(** [path.dirname(p)]: the scan stops at index 1, so the first character
    is never inspected as a separator. *)
Definition dirname_l (p : list ascii) : list ascii :=
  match p with
  | [] => chars "."
  | c0 :: rest =>
      match drop_part (drop_slashes (rev rest)) with
      | [] => if is_slash c0 then chars "/" else chars "."
      | _ :: more =>
          if is_slash c0 && Nat.eqb (length more) 0 then chars "//"
          else c0 :: rev more
      end
  end.

(** Portions of a path, split at every separator. *)
Fixpoint split_slash (p : list ascii) : list (list ascii) :=
  match p with
  | [] => [[]]
  | c :: p' =>
      if is_slash c then [] :: split_slash p'
      else match split_slash p' with
           | seg :: segs => (c :: seg) :: segs
           | [] => [[c]]
           end
  end.

(** [normalizeString]: the stack of kept portions, innermost first. *)
Definition push_segment (allowAboveRoot : bool)
    (stack : list (list ascii)) (seg : list ascii) : list (list ascii) :=
  if bool_decide (seg = []) || bool_decide (seg = chars ".") then stack
  else if bool_decide (seg = chars "..") then
    match stack with
    | top :: below =>
        if bool_decide (top = chars "..") then
          (if allowAboveRoot then seg :: stack else stack)
        else below
    | [] => if allowAboveRoot then [seg] else []
    end
  else seg :: stack.

Fixpoint join_segments (segs : list (list ascii)) : list ascii :=
  match segs with
  | [] => []
  | [s] => s
  | s :: rest => s ++ "/"%char :: join_segments rest
  end.

Definition normalizeString (p : list ascii) (allowAboveRoot : bool) : list ascii :=
  join_segments (rev (fold_left (push_segment allowAboveRoot) (split_slash p) [])).

Definition starts_with_slash (p : list ascii) : bool :=
  match p with c :: _ => is_slash c | [] => false end.

(** [path.normalize(p)] *)
Definition normalize_l (p : list ascii) : list ascii :=
  match p with
  | [] => chars "."
  | _ =>
      let isAbsolute := starts_with_slash p in
      let trailingSeparator := starts_with_slash (rev p) in
      let q := normalizeString p (negb isAbsolute) in
      match q with
      | [] => if isAbsolute then chars "/"
              else if trailingSeparator then chars "./" else chars "."
      | _ =>
          let q' := if trailingSeparator then q ++ chars "/" else q in
          if isAbsolute then "/"%char :: q' else q'
      end
  end.

(** [path.join(...args)]: the non-empty arguments, separated by [/],
    then normalized. *)
Definition join_l (args : list (list ascii)) : list ascii :=
  match filter (λ a, a ≠ []) args with
  | [] => chars "."
  | a :: rest => normalize_l (fold_left (λ joined arg, joined ++ "/"%char :: arg) rest a)
  end.

Definition basename (p : string) : string := str (basename_l (chars p)).
Definition basename_ext (p suffix : string) : string :=
  str (basename_ext_l (chars p) (chars suffix)).
Definition extname (p : string) : string := str (extname_l (chars p)).
Definition dirname (p : string) : string := str (dirname_l (chars p)).
Definition join (args : list string) : string := str (join_l (chars <$> args)).

End Path.

(** ** [String.prototype.replace] with a pattern anchored at the end

    The adapters rewrite the fixture suffix with two regular expressions,
    [/\.fixture\.js$/] and [/\.fixture.js$/]. Both have a fixed length and
    end in [$], so their only possible match is the end of the string. An
    unescaped [.] matches any character but a line terminator (of the
    8-bit characters of [string]: line feed and carriage return). *)

Inductive patchar : Type :=
| Lit (c : ascii)
| AnyChar.

Definition is_line_terminator (c : ascii) : bool :=
  Ascii.eqb c "010" || Ascii.eqb c "013".

Definition pat_matches (pc : patchar) (c : ascii) : bool :=
  match pc with
  | Lit a => Ascii.eqb a c
  | AnyChar => negb (is_line_terminator c)
  end.

(** Matches a pattern against the beginning of a list; the rest is returned. *)
Fixpoint match_prefix (pat : list patchar) (l : list ascii) : option (list ascii) :=
  match pat, l with
  | [], rest => Some rest
  | _ :: _, [] => None
  | pc :: pat', c :: l' => if pat_matches pc c then match_prefix pat' l' else None
  end.

(** [s.replace(/pat$/, repl)] for a replacement without [$] sequences. *)
Definition replace_at_end (pat : list patchar) (repl : string) (s : string) : string :=
  match match_prefix (rev pat) (rev (chars s)) with
  | Some rest => str (rev rest ++ chars repl)
  | None => s
  end.

(** [/\.fixture\.js$/] *)
Definition re_fixture_escaped : list patchar := Lit <$> chars ".fixture.js".
(** [/\.fixture.js$/] *)
Definition re_fixture : list patchar :=
  (Lit <$> chars ".fixture") ++ AnyChar :: (Lit <$> chars "js").

(** JavaScript truthiness of a string. *)
Definition truthy (s : string) : bool := negb (bool_decide (s = "")).

(** ** Assignment to a property of an object literal

    [obj[key] = value] for a string [value], on an object that started as
    the literal [{}]. Such an object inherits the accessor [__proto__] of
    [Object.prototype], and the setter of that accessor does nothing when
    the value is neither an object nor [null]: under the key [__proto__]
    the assignment creates no property and changes none. Under every
    other key it creates an own property or overwrites the one that is
    there. *)
Definition assign (key value : string) (obj : gmap string string)
    : gmap string string :=
  if bool_decide (key = "__proto__") then obj else <[key := value]> obj.

(** ** The adapter contract (types of the [monosize] package) *)

Module Fixture.
Record t : Type := mk { fixturePath : string; name : string }.
End Fixture.

Module BuildOptions.
Record t : Type := mk { fixturePath : string; quiet : bool; debug : bool }.
End BuildOptions.

Module BatchBuildOptions.
Record t : Type := mk { fixtures : list Fixture.t; quiet : bool; debug : bool }.
End BatchBuildOptions.

Module BuildResult.
Record t : Type := mk {
  name : option string;
  outputPath : string;
  debugOutputPath : option string }.
End BuildResult.

(** ** Asynchronous functions

    An [async] function either resolves with a value or rejects with a
    reason; on the way it leaves a chronological log of the calls it made
    to its collaborators (the configuration enhancer, the backend). *)

Inductive reason : Type :=
| TypeError (msg : string)       (* thrown by the runtime, e.g. reading a property of undefined *)
| BackendError (msg : string)    (* the [err] a backend hands to its callback, or its rejection *)
| Diagnostics (msg : string).    (* a string the adapter itself rejects with *)

(** A synchronous call returns or throws. *)
Inductive completion (A : Type) : Type :=
| Normal (a : A)
| Throws (r : reason).
Arguments Normal {A} a.
Arguments Throws {A} r.

(** The state of a promise; [Unsettled] is a promise that nobody has
    resolved or rejected. *)
Inductive outcome (A : Type) : Type :=
| Resolved (a : A)
| Rejected (r : reason)
| Unsettled.
Arguments Resolved {A} a.
Arguments Rejected {A} r.
Arguments Unsettled {A}.

Definition async (E A : Type) : Type := list E → outcome A * list E.

Global Instance async_ret {E} : MRet (async E) :=
  λ A (a : A) log, (Resolved a, log).

Global Instance async_bind {E} : MBind (async E) :=
  λ A B (k : A → async E B) (m : async E A) log,
    match m log with
    | (Resolved a, log') => k a log'
    | (Rejected r, log') => (Rejected r, log')
    | (Unsettled, log') => (Unsettled, log')
    end.

Definition throw {E A} (r : reason) : async E A := λ log, (Rejected r, log).

Definition emit {E} (e : E) : async E unit := λ log, (Resolved tt, log ++ [e]).

(** A synchronous call inside an asynchronous function: an exception
    rejects the function's promise. *)
Definition sync {E A} (c : completion A) : async E A :=
  match c with
  | Normal a => mret a
  | Throws r => throw r
  end.

(** [await p] for a promise in state [p]. *)
Definition await {E A} (p : outcome A) : async E A := λ log, (p, log).

(** [resolve] and [reject] of a promise executor: only the first call
    settles the promise. *)
Definition settle {A} (p new : outcome A) : outcome A :=
  match p with
  | Unsettled => new
  | _ => p
  end.

(** Runs an asynchronous function from an empty log. *)
Definition run {E A} (m : async E A) : outcome A * list E := m [].

(** Calls made to collaborators, over the backend's configuration type. *)
Inductive call (C : Type) : Type :=
| Enhance (c : C)     (* the configuration enhancer received [c] *)
| Backend (c : C).    (* the backend was started on [c] *)
Arguments Enhance {C} c.
Arguments Backend {C} c.

(** Calling the user's enhancer: logged, then its return value is used. *)
Definition callEnhancer {C} (enhance : C → C) (c : C) : async (call C) C :=
  emit (Enhance c);; mret (enhance c).

(** Starting the backend on a configuration: logged, then the backend's
    answer is used. *)
Definition callBackend {C R} (backend : C → R) (c : C) : async (call C) R :=
  emit (Backend c);; mret (backend c).

(** [arr.join(sep)] on strings. *)
Definition join_with (sep : string) (l : list string) : string := String.concat sep l.

Definition newline : string := String "010" "".

(** ** The webpack runner, [runWebpack.mts] *)

Module Webpack.

(** The options given to [new TerserWebpackPlugin(...)]. *)
Record TerserWebpackPlugin : Type := {
  extractComments : bool;
  terserOptions_format_comments : bool }.

Record Output : Type := {
  filename : string;
  path : string;
  pathinfo : option bool }.

Record Optimization : Type := {
  minimizer : list TerserWebpackPlugin;
  minimize : option bool }.

Record StatsOptions : Type := { optimizationBailout : bool }.

(** [entry] is one path (single build) or an object from entry names to
    paths (multi-entry build). *)
Inductive Entry : Type :=
| EntryPath (p : string)
| EntryObject (m : gmap string string).

(** [WebpackConfiguration], with the fields the runner sets; [entry] and
    [output] are absent from the base configuration. *)
Record Configuration : Type := {
  name : string;
  target : string;
  mode : string;
  cache_type : string;
  externals : gmap string string;
  performance_hints : bool;
  optimization : Optimization;
  stats : option StatsOptions;
  entry : option Entry;
  output : option Output }.

Definition terser : TerserWebpackPlugin :=
  {| extractComments := false; terserOptions_format_comments := false |}.

Definition createBaseWebpackConfig (debug : bool) : Configuration :=
  {| name := "client";
     target := "web";
     mode := "production";
     cache_type := "memory";
     externals := {[ "react" := "React"; "react-dom" := "ReactDOM" ]};
     performance_hints := false;
     optimization :=
       if debug then {| minimizer := []; minimize := Some false |}
       else {| minimizer := [terser]; minimize := None |};
     stats := if debug then Some {| optimizationBailout := true |} else None;
     entry := None;
     output := None |}.

(** [{ ...base, entry, output }] *)
Definition with_entry_output (base : Configuration) (e : Entry) (o : Output)
    : Configuration :=
  {| name := name base; target := target base; mode := mode base;
     cache_type := cache_type base; externals := externals base;
     performance_hints := performance_hints base;
     optimization := optimization base; stats := stats base;
     entry := Some e; output := Some o |}.

Definition createWebpackConfig (fixturePath outputPath : string) (debug : bool)
    : Configuration :=
  with_entry_output (createBaseWebpackConfig debug)
    (EntryPath fixturePath)
    {| filename := Path.basename outputPath;
       path := Path.dirname outputPath;
       pathinfo := if debug then Some true else None |}.

(** An element of the [fixtures] array of the multi-entry runner. *)
Record FixtureWithPath : Type := mkFixture {
  fixturePath : string;
  outputPath : string }.

(** [path.basename(outputPath, path.extname(outputPath))] *)
Definition entryNameOf (outputPath : string) : string :=
  Path.basename_ext outputPath (Path.extname outputPath).

(** The two locals of the [forEach] loop. *)
Record EntryState : Type := {
  entries : gmap string string;
  seenKeys : gset string }.

(** The entry name a fixture gets at position [index], given the names
    seen so far. *)
Definition entryNameAt (seen : gset string) (index : nat) (f : FixtureWithPath)
    : string :=
  let entryName := entryNameOf (outputPath f) in
  if bool_decide (entryName ∈ seen) then entryName +:+ "_" +:+ pretty index
  else entryName.

(** One call of the [forEach] callback. *)
Definition forEachBody (st : EntryState) (index : nat) (f : FixtureWithPath)
    : EntryState :=
  let entryName := entryNameAt (seenKeys st) index f in
  {| entries := assign entryName (fixturePath f) (entries st);
     seenKeys := {[entryName]} ∪ seenKeys st |}.

(** [fixtures.forEach((f, index) => ...)], from position [index] on. *)
Fixpoint forEachFrom (index : nat) (fixtures : list FixtureWithPath)
    (st : EntryState) : EntryState :=
  match fixtures with
  | [] => st
  | f :: rest => forEachFrom (S index) rest (forEachBody st index f)
  end.

Definition buildEntry (fixtures : list FixtureWithPath) : EntryState :=
  forEachFrom 0 fixtures {| entries := ∅; seenKeys := ∅ |}.

(** [fixtures[0].outputPath]: reading a property of [undefined] throws. *)
Definition firstOutputPath (fixtures : list FixtureWithPath) : completion string :=
  match fixtures !! 0 with
  | Some f => Normal (outputPath f)
  | None => Throws (TypeError "Cannot read properties of undefined (reading 'outputPath')")
  end.

Definition createMultiEntryWebpackConfig (fixtures : list FixtureWithPath)
    (debug : bool) : completion Configuration :=
  let entry := entries (buildEntry fixtures) in
  match firstOutputPath fixtures with
  | Throws r => Throws r
  | Normal first =>
      let outputDir := Path.dirname first in
      Normal (with_entry_output (createBaseWebpackConfig debug)
                (EntryObject entry)
                {| filename := "[name].js";
                   path := outputDir;
                   pathinfo := if debug then Some true else None |})
  end.

(** What the compiler hands to the callback of [compiler.run]:
    [result.hasErrors()] and [result.compilation.errors]. *)
Record Stats : Type := {
  hasErrors : bool;
  compilation_errors : list string }.

(** The callback of [compiler.run], inside the promise executor. There
    is no [return] after a [reject]: the later calls find the promise
    settled. *)
Definition runCallback (err : option string) (result : option Stats)
    (p : outcome unit) : outcome unit :=
  let p := match err with
           | Some e => settle p (Rejected (BackendError e))
           | None => p
           end in
  let p := match result with
           | Some r =>
               if hasErrors r
               then settle p (Rejected (Diagnostics (join_with newline (compilation_errors r))))
               else p
           | None => p
           end in
  settle p (Resolved tt).

Module RunWebpackOptions.
Record t : Type := mk {
  enhanceConfig : Configuration → Configuration;
  fixturePath : string;
  outputPath : string;
  debug : bool;
  quiet : bool }.
End RunWebpackOptions.

Module RunWebpackMultiEntryOptions.
Record t : Type := mk {
  enhanceConfig : Configuration → Configuration;
  fixtures : list FixtureWithPath;
  debug : bool;
  quiet : bool }.
End RunWebpackMultiEntryOptions.

Section Runner.
(** The compiler of the [webpack] package: [webpack(config).run(cb)]
    calls [cb] once, with these arguments. *)
Variable webpack : Configuration → option string * option Stats.

Definition runWebpack (options : RunWebpackOptions.t)
    : async (call Configuration) unit :=
  let enhanceConfig := RunWebpackOptions.enhanceConfig options in
  let fixturePath := RunWebpackOptions.fixturePath options in
  let outputPath := RunWebpackOptions.outputPath options in
  let debug := RunWebpackOptions.debug options in
  webpackConfig ← callEnhancer enhanceConfig
    (createWebpackConfig fixturePath outputPath debug);
  args ← callBackend webpack webpackConfig;
  await (runCallback args.1 args.2 Unsettled).

Definition runWebpackMultiEntry (options : RunWebpackMultiEntryOptions.t)
    : async (call Configuration) unit :=
  let enhanceConfig := RunWebpackMultiEntryOptions.enhanceConfig options in
  let fixtures := RunWebpackMultiEntryOptions.fixtures options in
  let debug := RunWebpackMultiEntryOptions.debug options in
  defaultConfig ← sync (createMultiEntryWebpackConfig fixtures debug);
  webpackConfig ← callEnhancer enhanceConfig defaultConfig;
  args ← callBackend webpack webpackConfig;
  await (runCallback args.1 args.2 Unsettled).
End Runner.

End Webpack.

(** The earlier revision of [runWebpack.mts]: the configuration is written
    out in full and the entry object is built with no collision handling. *)
Module WebpackPrev.
Import Webpack.

Definition createWebpackConfig (fixturePath outputPath : string) (debug : bool)
    : Configuration :=
  {| name := "client";
     target := "web";
     mode := "production";
     cache_type := "memory";
     externals := {[ "react" := "React"; "react-dom" := "ReactDOM" ]};
     entry := Some (EntryPath fixturePath);
     output := Some {| filename := Path.basename outputPath;
                       path := Path.dirname outputPath;
                       pathinfo := if debug then Some true else None |};
     performance_hints := false;
     optimization :=
       if debug then {| minimizer := []; minimize := Some false |}
       else {| minimizer := [terser]; minimize := None |};
     stats := if debug then Some {| optimizationBailout := true |} else None |}.

(** [fixtures.forEach(({ fixturePath, outputPath }) => { entry[entryName] = fixturePath })] *)
Definition buildEntry (fixtures : list FixtureWithPath) : gmap string string :=
  fold_left (λ entry f, assign (entryNameOf (outputPath f)) (fixturePath f) entry)
    fixtures ∅.

Definition createMultiEntryWebpackConfig (fixtures : list FixtureWithPath)
    (debug : bool) : completion Configuration :=
  let entry := buildEntry fixtures in
  match firstOutputPath fixtures with
  | Throws r => Throws r
  | Normal first =>
      let outputDir := Path.dirname first in
      Normal
        {| name := "client";
           target := "web";
           mode := "production";
           cache_type := "memory";
           externals := {[ "react" := "React"; "react-dom" := "ReactDOM" ]};
           entry := Some (EntryObject entry);
           output := Some {| filename := "[name].js";
                             path := outputDir;
                             pathinfo := if debug then Some true else None |};
           performance_hints := false;
           optimization :=
             if debug then {| minimizer := []; minimize := Some false |}
             else {| minimizer := [terser]; minimize := None |};
           stats := if debug then Some {| optimizationBailout := true |} else None |}
  end.
Section Runner.
Variable webpack : Configuration → option string * option Stats.

Definition runWebpack (options : RunWebpackOptions.t)
    : async (call Configuration) unit :=
  let enhanceConfig := RunWebpackOptions.enhanceConfig options in
  let fixturePath := RunWebpackOptions.fixturePath options in
  let outputPath := RunWebpackOptions.outputPath options in
  let debug := RunWebpackOptions.debug options in
  webpackConfig ← callEnhancer enhanceConfig
    (createWebpackConfig fixturePath outputPath debug);
  args ← callBackend webpack webpackConfig;
  await (runCallback args.1 args.2 Unsettled).

Definition runWebpackMultiEntry (options : RunWebpackMultiEntryOptions.t)
    : async (call Configuration) unit :=
  let enhanceConfig := RunWebpackMultiEntryOptions.enhanceConfig options in
  let fixtures := RunWebpackMultiEntryOptions.fixtures options in
  let debug := RunWebpackMultiEntryOptions.debug options in
  defaultConfig ← sync (createMultiEntryWebpackConfig fixtures debug);
  webpackConfig ← callEnhancer enhanceConfig defaultConfig;
  args ← callBackend webpack webpackConfig;
  await (runCallback args.1 args.2 Unsettled).
End Runner.

End WebpackPrev.

(** ** The esbuild adapter, [createEsbuildBundler]

    [runEsbuild] and [runEsbuildMultiEntry] live in [runEsbuild.mjs]; the
    adapter only passes them the enhancer and the derived paths, so they
    are parameters here. *)

Module Esbuild.

Definition deriveOutputPath (fixturePath : string) : string :=
  replace_at_end re_fixture ".output.js" fixturePath.

Module RunEsbuildOptions.
Record t (Config : Type) : Type := mk {
  enhanceConfig : Config → Config;
  fixturePath : string;
  outputPath : string;
  quiet : bool }.
Arguments mk {Config}.
Arguments enhanceConfig {Config}.
Arguments fixturePath {Config}.
Arguments outputPath {Config}.
Arguments quiet {Config}.
End RunEsbuildOptions.

(** An element of the [fixtures] array handed to [runEsbuildMultiEntry]. *)
Record EntryPaths : Type := {
  ep_fixturePath : string;
  ep_outputPath : string }.

Module RunEsbuildMultiEntryOptions.
Record t (Config : Type) : Type := mk {
  enhanceConfig : Config → Config;
  fixtures : list EntryPaths;
  quiet : bool }.
Arguments mk {Config}.
Arguments enhanceConfig {Config}.
Arguments fixtures {Config}.
Arguments quiet {Config}.
End RunEsbuildMultiEntryOptions.

(** An element of [fixturesWithPaths]. *)
Record FixtureWithPath : Type := {
  fixturePath : string;
  name : string;
  outputPath : string }.

Section Adapter.
Variable Config : Type.
Variable configEnhancerCallback : Config → Config.
Variable runEsbuild : RunEsbuildOptions.t Config → async (call Config) unit.
Variable runEsbuildMultiEntry :
  RunEsbuildMultiEntryOptions.t Config → async (call Config) unit.

Definition buildFixture (options : BuildOptions.t)
    : async (call Config) BuildResult.t :=
  let fixturePath := BuildOptions.fixturePath options in
  let quiet := BuildOptions.quiet options in
  let outputPath := deriveOutputPath fixturePath in
  runEsbuild
    {| RunEsbuildOptions.enhanceConfig := configEnhancerCallback;
       RunEsbuildOptions.fixturePath := fixturePath;
       RunEsbuildOptions.outputPath := outputPath;
       RunEsbuildOptions.quiet := quiet |};;
  mret {| BuildResult.name := None;
          BuildResult.outputPath := outputPath;
          BuildResult.debugOutputPath := None |}.

Definition buildFixtures (options : BatchBuildOptions.t)
    : async (call Config) (list BuildResult.t) :=
  let fixtures := BatchBuildOptions.fixtures options in
  let quiet := BatchBuildOptions.quiet options in
  let fixturesWithPaths :=
    (λ f, {| fixturePath := Fixture.fixturePath f;
             name := Fixture.name f;
             outputPath := deriveOutputPath (Fixture.fixturePath f) |})
      <$> fixtures in
  runEsbuildMultiEntry
    {| RunEsbuildMultiEntryOptions.enhanceConfig := configEnhancerCallback;
       RunEsbuildMultiEntryOptions.fixtures :=
         (λ f, {| ep_fixturePath := fixturePath f;
                  ep_outputPath := outputPath f |}) <$> fixturesWithPaths;
       RunEsbuildMultiEntryOptions.quiet := quiet |};;
  mret ((λ f, {| BuildResult.name := Some (name f);
                 BuildResult.outputPath := outputPath f;
                 BuildResult.debugOutputPath := None |})
          <$> fixturesWithPaths).
End Adapter.

End Esbuild.

(** ** The rspack adapter, [createRspackBundler]

    The assignment [logger.level = 'error'] that opens both functions has
    no bearing on the configuration or the results and is left out. *)

Module Rspack.

Record OutputConfig : Type := {
  externals : gmap string string;
  target : string;
  emitAssets : bool;
  filename_js : string;
  distPath_root : string;
  distPath_js : string;
  minify : bool }.

Record EnvironmentConfig : Type := {
  source_entry : gmap string string;
  output : OutputConfig;
  performance_chunkSplit_strategy : string }.

Record RsbuildConfig : Type := {
  root : string;
  mode : string;
  dev_progressBar : bool;
  environments : gmap string EnvironmentConfig }.

(** [{ ...output, filename: { js }, minify }] *)
Definition with_filename_minify (o : OutputConfig) (js : string) (m : bool)
    : OutputConfig :=
  {| externals := externals o; target := target o; emitAssets := emitAssets o;
     filename_js := js; distPath_root := distPath_root o;
     distPath_js := distPath_js o; minify := m |}.

Definition createEnvironmentConfig (fixturePath outputPath : string)
    (debugOutputPath : option string) : gmap string EnvironmentConfig :=
  let environmentConfig :=
    {| source_entry := {[ "index" := fixturePath ]};
       output :=
         {| externals := {[ "react" := "React"; "react-dom" := "ReactDOM" ]};
            target := "web";
            emitAssets := false;
            filename_js := Path.basename outputPath;
            distPath_root := Path.dirname outputPath;
            distPath_js := "./";
            minify := true |};
       performance_chunkSplit_strategy := "all-in-one" |} in
  match debugOutputPath with
  | Some d =>
      if truthy d then
        {[ "default" := environmentConfig;
           "debug" :=
             {| source_entry := source_entry environmentConfig;
                output := with_filename_minify (output environmentConfig)
                            (Path.basename d) false;
                performance_chunkSplit_strategy :=
                  performance_chunkSplit_strategy environmentConfig |} ]}
      else {[ "default" := environmentConfig ]}
  | None => {[ "default" := environmentConfig ]}
  end.

(** An element of [fixturesWithPaths]. *)
Record FixtureWithPaths : Type := {
  fixturePath : string;
  name : string;
  outputPath : string;
  debugOutputPath : option string }.

(** [path.basename(p, path.extname(p))] *)
Definition entryNameOf (p : string) : string :=
  Path.basename_ext p (Path.extname p).

Definition firstOutputPath (fixtures : list FixtureWithPaths) : completion string :=
  match fixtures !! 0 with
  | Some f => Normal (outputPath f)
  | None => Throws (TypeError "Cannot read properties of undefined (reading 'outputPath')")
  end.

(** [fixtures.reduce((acc, f) => { acc[entryName] = fixturePath; return acc }, {})] *)
Definition reduceEntry (fixtures : list FixtureWithPaths) : gmap string string :=
  fold_left (λ acc f, assign (entryNameOf (outputPath f)) (fixturePath f) acc)
    fixtures ∅.

Definition reduceDebugEntry (fixtures : list FixtureWithPaths) : gmap string string :=
  fold_left
    (λ acc f,
       match debugOutputPath f with
       | Some d => if truthy d then assign (entryNameOf d) (fixturePath f) acc else acc
       | None => acc
       end)
    fixtures ∅.

Definition createMultiEntryEnvironmentConfig (fixtures : list FixtureWithPaths)
    (debug : bool) : completion (gmap string EnvironmentConfig) :=
  match firstOutputPath fixtures with
  | Throws r => Throws r
  | Normal first =>
      let outputDir := Path.dirname first in
      let entry := reduceEntry fixtures in
      let environmentConfig :=
        {| source_entry := entry;
           output :=
             {| externals := {[ "react" := "React"; "react-dom" := "ReactDOM" ]};
                target := "web";
                emitAssets := false;
                filename_js := "[name].js";
                distPath_root := outputDir;
                distPath_js := "./";
                minify := true |};
           performance_chunkSplit_strategy := "all-in-one" |} in
      if negb debug then Normal {[ "default" := environmentConfig ]}
      else
        let debugEntry := reduceDebugEntry fixtures in
        Normal
          {[ "default" := environmentConfig;
             "debug" :=
               {| source_entry := debugEntry;
                  output := with_filename_minify (output environmentConfig)
                              (filename_js (output environmentConfig)) false;
                  performance_chunkSplit_strategy :=
                    performance_chunkSplit_strategy environmentConfig |} ]}
  end.

(** The paths both adapter functions derive from a fixture path. *)
Definition artifactsDir (fixturePath : string) : string :=
  Path.join [Path.dirname fixturePath; "dist"].

Definition deriveOutputPath (fixturePath : string) : string :=
  Path.join [artifactsDir fixturePath;
             replace_at_end re_fixture_escaped ".output.js" (Path.basename fixturePath)].

Definition deriveDebugOutputPath (fixturePath : string) : string :=
  Path.join [artifactsDir fixturePath;
             replace_at_end re_fixture ".debug.js" (Path.basename fixturePath)].

(** [fixtures[0].fixturePath] *)
Definition firstFixturePath (fixtures : list Fixture.t) : completion string :=
  match fixtures !! 0 with
  | Some f => Normal (Fixture.fixturePath f)
  | None => Throws (TypeError "Cannot read properties of undefined (reading 'fixturePath')")
  end.

Section Adapter.
Variable configEnhancerCallback : RsbuildConfig → RsbuildConfig.
(** [createRsbuild], [build] and [close], awaited in turn: the state
    their chain of promises ends in. *)
Variable rsbuild : RsbuildConfig → outcome unit.

Definition buildFixture (options : BuildOptions.t)
    : async (call RsbuildConfig) BuildResult.t :=
  let debug := BuildOptions.debug options in
  let fixturePath := BuildOptions.fixturePath options in
  let rootDir := Path.dirname fixturePath in
  let outputPath := deriveOutputPath fixturePath in
  let debugOutputPath := deriveDebugOutputPath fixturePath in
  config ← callEnhancer configEnhancerCallback
    {| root := rootDir;
       mode := "production";
       dev_progressBar := false;
       environments :=
         createEnvironmentConfig fixturePath outputPath
           (if debug then Some debugOutputPath else None) |};
  built ← callBackend rsbuild config;
  await built;;
  mret {| BuildResult.name := None;
          BuildResult.outputPath := outputPath;
          BuildResult.debugOutputPath :=
            if debug then Some debugOutputPath else None |}.

Definition withPaths (f : Fixture.t) : FixtureWithPaths :=
  {| fixturePath := Fixture.fixturePath f;
     name := Fixture.name f;
     outputPath := deriveOutputPath (Fixture.fixturePath f);
     debugOutputPath := Some (deriveDebugOutputPath (Fixture.fixturePath f)) |}.

Definition buildFixtures (options : BatchBuildOptions.t)
    : async (call RsbuildConfig) (list BuildResult.t) :=
  let debug := BatchBuildOptions.debug options in
  let fixtures := BatchBuildOptions.fixtures options in
  let fixturesWithPaths := withPaths <$> fixtures in
  first ← sync (firstFixturePath fixtures);
  let rootDir := Path.dirname first in
  environments ← sync (createMultiEntryEnvironmentConfig fixturesWithPaths debug);
  config ← callEnhancer configEnhancerCallback
    {| root := rootDir;
       mode := "production";
       dev_progressBar := false;
       environments := environments |};
  built ← callBackend rsbuild config;
  await built;;
  mret ((λ f, {| BuildResult.name := Some (name f);
                 BuildResult.outputPath := outputPath f;
                 BuildResult.debugOutputPath :=
                   if debug then debugOutputPath f else None |})
          <$> fixturesWithPaths).
End Adapter.

End Rspack.

(** ** Notions used in the statements, and sample inputs *)

(** The promise was rejected. *)
Definition rejects {A} (o : outcome A) : Prop := ∃ r, o = Rejected r.

(** How a promise of the backend is carried through an [await]. *)
Definition after {A B} (p : outcome A) (b : B) : outcome B :=
  match p with
  | Resolved _ => Resolved b
  | Rejected r => Rejected r
  | Unsettled => Unsettled
  end.

(** The configuration the rspack adapter hands to the enhancer in a
    single build. *)
Definition rspackDefaultConfig (fixturePath : string) (debug : bool)
    : Rspack.RsbuildConfig :=
  {| Rspack.root := Path.dirname fixturePath;
     Rspack.mode := "production";
     Rspack.dev_progressBar := false;
     Rspack.environments :=
       Rspack.createEnvironmentConfig fixturePath (Rspack.deriveOutputPath fixturePath)
         (if debug then Some (Rspack.deriveDebugOutputPath fixturePath) else None) |}.

(** The result the rspack batch reports for one fixture. *)
Definition rspackBatchResult (debug : bool) (f : Fixture.t) : BuildResult.t :=
  {| BuildResult.name := Some (Fixture.name f);
     BuildResult.outputPath := Rspack.deriveOutputPath (Fixture.fixturePath f);
     BuildResult.debugOutputPath :=
       if debug then Some (Rspack.deriveDebugOutputPath (Fixture.fixturePath f))
       else None |}.

(** The compiler reported something: an [err], or a result with errors. *)
Definition reportsError (args : option string * option Webpack.Stats) : Prop :=
  is_Some args.1 ∨ ∃ st, args.2 = Some st ∧ Webpack.hasErrors st = true.

(** A compiler that finds an unresolved import in every configuration. *)
Definition failingCompiler (c : Webpack.Configuration)
    : option string * option Webpack.Stats :=
  (None, Some {| Webpack.hasErrors := true;
                 Webpack.compilation_errors :=
                   ["Module not found: unknown-pkg"; "1 error"] |}).

(** Two fixtures with their derived output paths. *)
Definition twoFixtures : list Webpack.FixtureWithPath :=
  [Webpack.mkFixture "/m/fixture1.fixture.js" "/m/fixture1.output.js";
   Webpack.mkFixture "/m/fixture2.fixture.js" "/m/fixture2.output.js"].

(** An enhancer in the manner of the test suite: it switches [pathinfo] off. *)
Definition noPathinfo (c : Webpack.Configuration) : Webpack.Configuration :=
  Webpack.with_entry_output c
    (default (Webpack.EntryPath "") (Webpack.entry c))
    {| Webpack.filename := from_option Webpack.filename "" (Webpack.output c);
       Webpack.path := from_option Webpack.path "" (Webpack.output c);
       Webpack.pathinfo := Some false |}.

(** A backend whose build always succeeds. *)
Definition rsbuildOk (c : Rspack.RsbuildConfig) : outcome unit := Resolved tt.

(** The three fixtures of the equivalence test, in one directory. *)
Definition threeFixtures : list Fixture.t :=
  [Fixture.mk "/m/a.fixture.js" "a"; Fixture.mk "/m/b.fixture.js" "b";
   Fixture.mk "/m/c.fixture.js" "c"].

(** The result the esbuild batch reports for one fixture. *)
Definition esbuildBatchResult (f : Fixture.t) : BuildResult.t :=
  {| BuildResult.name := Some (Fixture.name f);
     BuildResult.outputPath := Esbuild.deriveOutputPath (Fixture.fixturePath f);
     BuildResult.debugOutputPath := None |}.

(** The comment in the esbuild adapter says it has no debug mode; the
    rspack adapter builds a debug environment. *)
Inductive backend : Type := esbuild | rspack.

Definition supportsDebug (b : backend) : bool :=
  match b with
  | esbuild => false
  | rspack => true
  end.

(** The entry name a fixture would get without collision handling. *)
Definition plainNames (fixtures : list Webpack.FixtureWithPath) : list string :=
  (λ f, Webpack.entryNameOf (Webpack.outputPath f)) <$> fixtures.

(** A decimal digit. *)
Definition is_digit (c : ascii) : Prop := is_Some (Ascii.is_nat c).

(** A name carries index [i]: it ends in [_] followed by the numeral of [i]. *)
Definition indexed (k : string) (i : nat) : Prop :=
  ∃ x, k = x +:+ "_" +:+ pretty i.

(** The names the [forEach] loop assigns, in input order, from position
    [index] on and with [seen] already taken. *)
Fixpoint entryNamesFrom (index : nat) (fixtures : list Webpack.FixtureWithPath)
    (seen : gset string) : list string :=
  match fixtures with
  | [] => []
  | f :: rest =>
      let entryName := Webpack.entryNameAt seen index f in
      entryName :: entryNamesFrom (S index) rest ({[entryName]} ∪ seen)
  end.

(** The names of a whole batch. *)
Definition entryNames (fixtures : list Webpack.FixtureWithPath) : list string :=
  entryNamesFrom 0 fixtures ∅.

(** A name that ends in no index. *)
Definition unindexed (b : string) : Prop := ∀ i, ¬ indexed b i.

(** Two fixtures whose output basenames collide, in different directories. *)
Definition collidingFixtures : list Webpack.FixtureWithPath :=
  [Webpack.mkFixture "/x/widget.fixture.js" "/x/widget.output.js";
   Webpack.mkFixture "/y/widget.fixture.js" "/y/widget.output.js"].

(** Three fixtures; the index appended to the third one produces the name
    of the first. *)
Definition secondCollision : list Webpack.FixtureWithPath :=
  [Webpack.mkFixture "/src/widget_2.js" "/out/widget_2.js";
   Webpack.mkFixture "/src/a/widget.js" "/out/a/widget.js";
   Webpack.mkFixture "/src/b/widget.js" "/out/b/widget.js"].

(** The last character of a string is a decimal digit. *)
Definition ends_in_digit (s : string) : bool :=
  match rev (chars s) with
  | c :: _ => bool_decide (is_digit c)
  | [] => false
  end.

(** Two fixtures with the same basename in different directories, with the
    paths the rspack adapter derives for them. *)
Definition rspackColliding : list Rspack.FixtureWithPaths :=
  Rspack.withPaths <$>
    [Fixture.mk "/x/widget.fixture.js" "x"; Fixture.mk "/y/widget.fixture.js" "y"].

(** Two fixtures with the output basename [widget], and an unrelated one. *)
Definition widgetX : Webpack.FixtureWithPath :=
  Webpack.mkFixture "/x/widget.fixture.js" "/x/widget.js".
Definition widgetY : Webpack.FixtureWithPath :=
  Webpack.mkFixture "/y/widget.fixture.js" "/y/widget.js".
Definition otherFixture : Webpack.FixtureWithPath :=
  Webpack.mkFixture "/x/other.fixture.js" "/x/other.js".

(** No separator occurs in [l]. *)
Definition slash_free (l : list ascii) : Prop :=
  Forall (λ c, Path.is_slash c = false) l.

(** The directory of [l ++ name] for a non-empty [name] without separator
    depends on [l] alone. *)
Definition dir_of (l : list ascii) : list ascii :=
  match l with
  | [] => chars "."
  | c0 :: l' =>
      match Path.drop_part (rev l') with
      | [] => if Path.is_slash c0 then chars "/" else chars "."
      | _ :: more =>
          if Path.is_slash c0 && Nat.eqb (length more) 0 then chars "//"
          else c0 :: rev more
      end
  end.

(** A portion that [path.normalize] keeps as it is. *)
Definition clean (seg : list ascii) : Prop :=
  seg ≠ [] ∧ slash_free seg ∧ seg ≠ chars "." ∧ seg ≠ chars "..".

(** [/seg1/.../segn] *)
Definition absolute (segs : list (list ascii)) : list ascii :=
  "/"%char :: Path.join_segments segs.

(** [/seg1/.../segn] for portions given as strings. *)
Definition absPath (segs : list string) : string :=
  str (absolute (chars <$> segs)).

(** ** The adapter objects, [createEsbuildBundler] and [createRspackBundler]

    A [BundlerAdapter] has a name, [buildFixture] and, optionally,
    [buildFixtures]. Both factories take the enhancer as a parameter with
    a default value, which JavaScript uses when the argument is
    [undefined]. *)

Module BundlerAdapter.
Record t (E : Type) : Type := mk {
  name : string;
  buildFixture : BuildOptions.t → async E BuildResult.t;
  buildFixtures : option (BatchBuildOptions.t → async E (list BuildResult.t)) }.
Arguments mk {E}.
Arguments name {E}.
Arguments buildFixture {E}.
Arguments buildFixtures {E}.
End BundlerAdapter.

Module EsbuildBundler.
(** [config => config] *)
Definition DEFAULT_CONFIG_ENHANCER {Config : Type} : Config → Config :=
  λ config, config.

Definition createEsbuildBundler {Config : Type}
    (runEsbuild : Esbuild.RunEsbuildOptions.t Config → async (call Config) unit)
    (runEsbuildMultiEntry :
      Esbuild.RunEsbuildMultiEntryOptions.t Config → async (call Config) unit)
    (configEnhancerCallback : option (Config → Config))
    : BundlerAdapter.t (call Config) :=
  let configEnhancerCallback := default DEFAULT_CONFIG_ENHANCER configEnhancerCallback in
  {| BundlerAdapter.buildFixture :=
       Esbuild.buildFixture Config configEnhancerCallback runEsbuild;
     BundlerAdapter.buildFixtures :=
       Some (Esbuild.buildFixtures Config configEnhancerCallback runEsbuildMultiEntry);
     BundlerAdapter.name := "esbuild" |}.
End EsbuildBundler.

Module RspackBundler.
(** [config => config] *)
Definition DEFAULT_CONFIG_ENHANCER : Rspack.RsbuildConfig → Rspack.RsbuildConfig :=
  λ config, config.

Definition createRspackBundler
    (rsbuild : Rspack.RsbuildConfig → outcome unit)
    (configEnhancerCallback : option (Rspack.RsbuildConfig → Rspack.RsbuildConfig))
    : BundlerAdapter.t (call Rspack.RsbuildConfig) :=
  let configEnhancerCallback := default DEFAULT_CONFIG_ENHANCER configEnhancerCallback in
  {| BundlerAdapter.buildFixture := Rspack.buildFixture configEnhancerCallback rsbuild;
     BundlerAdapter.buildFixtures :=
       Some (Rspack.buildFixtures configEnhancerCallback rsbuild);
     BundlerAdapter.name := "Rsbuild" |}.
End RspackBundler.

(** ** Further notions used in the statements *)

(** What [path.join(a, name)] puts before [name], for a portion [name]
    that normalization keeps: the kept portions of [a], each followed by
    a separator, after the root if [a] is absolute. *)
Definition join_prefix (a : list ascii) : list ascii :=
  let isAbsolute := Path.starts_with_slash a in
  let kept :=
    rev (fold_left (Path.push_segment (negb isAbsolute)) (Path.split_slash a) []) in
  (if isAbsolute then ["/"%char] else [])
  ++ match kept with
     | [] => []
     | _ => Path.join_segments kept ++ ["/"%char]
     end.

(** The portion of a fixture path [pre.fixture.js] before the suffix,
    without its directories. *)
Definition stem_before (pre : string) : list ascii :=
  rev (Path.take_part (rev (chars pre))).

(** The fixture of largest index whose key is [k] is at index [i]. *)
Definition last_with_key {A} (kf : A → string) (l : list A) (k : string)
    (i : nat) (x : A) : Prop :=
  l !! i = Some x ∧ kf x = k ∧ ∀ j y, i < j → l !! j = Some y → kf y ≠ k.

(** * Properties *)

(** ** Assignment *)

Lemma assign_other key value obj :
  key ≠ "__proto__" → assign key value obj = <[key := value]> obj.
Proof. intros H. unfold assign. rewrite bool_decide_eq_false_2 by exact H. reflexivity. Qed.

Lemma assign_proto value obj : assign "__proto__" value obj = obj.
Proof. reflexivity. Qed.

Lemma lookup_assign_ne key value obj k :
  k ≠ key → assign key value obj !! k = obj !! k.
Proof.
  intros H. unfold assign. destruct (bool_decide (key = "__proto__")); [reflexivity|].
  apply lookup_insert_ne. congruence.
Qed.

Lemma lookup_assign_eq key value obj :
  key ≠ "__proto__" → assign key value obj !! key = Some value.
Proof. intros H. rewrite assign_other by exact H. apply lookup_insert_eq. Qed.

Lemma dom_assign key value obj :
  dom (assign key value obj) = ({[key]} ∖ {["__proto__"]}) ∪ dom obj.
Proof.
  unfold assign. destruct (decide (key = "__proto__")) as [->|Hne].
  - rewrite bool_decide_eq_true_2 by reflexivity. set_solver.
  - rewrite bool_decide_eq_false_2 by exact Hne. rewrite dom_insert_L. set_solver.
Qed.

(** An output path with the basename [__proto__]: the webpack loop takes
    the name into its set of seen keys, and the entry object stays
    empty. *)
Example webpack_proto_entry :
  entryNames [Webpack.mkFixture "/p/__proto__" "/p/__proto__"] = ["__proto__"]
  ∧ Webpack.entries
      (Webpack.buildEntry [Webpack.mkFixture "/p/__proto__" "/p/__proto__"]) = ∅
  ∧ "__proto__" ∈ Webpack.seenKeys
      (Webpack.buildEntry [Webpack.mkFixture "/p/__proto__" "/p/__proto__"]).
Proof.
  split; [vm_compute; reflexivity|]. split; [vm_compute; reflexivity|].
  unfold Webpack.buildEntry, Webpack.forEachFrom, Webpack.forEachBody.
  cbn [Webpack.seenKeys]. apply elem_of_union. left. apply elem_of_singleton.
  vm_compute. reflexivity.
Qed.

(** A fixture [/p/__proto__] in an rspack batch: both derived entry names
    are [__proto__], and neither entry object gets a key for it. *)
Example rspack_proto_entry :
  Rspack.entryNameOf (Rspack.deriveOutputPath "/p/__proto__") = "__proto__"
  ∧ Rspack.entryNameOf (Rspack.deriveDebugOutputPath "/p/__proto__") = "__proto__"
  ∧ Rspack.reduceEntry
      (Rspack.withPaths <$> [Fixture.mk "/p/__proto__" "p"; Fixture.mk "/p/a.fixture.js" "a"])
    = {[ "a.output" := "/p/a.fixture.js" ]}
  ∧ Rspack.reduceDebugEntry
      (Rspack.withPaths <$> [Fixture.mk "/p/__proto__" "p"; Fixture.mk "/p/a.fixture.js" "a"])
    = {[ "a.debug" := "/p/a.fixture.js" ]}.
Proof. repeat split; vm_compute; reflexivity. Qed.

(** ** The path functions and the suffix replacement on examples *)

Example basename_doc : Path.basename "/foo/bar/baz/asdf/quux.html" = "quux.html".
Proof. reflexivity. Qed.
Example basename_ext_doc :
  Path.basename_ext "/foo/bar/baz/asdf/quux.html" ".html" = "quux".
Proof. reflexivity. Qed.
Example basename_ext_whole : Path.basename_ext "a/.js" ".js" = ".js".
Proof. reflexivity. Qed.
Example basename_ext_same : Path.basename_ext ".js" ".js" = "".
Proof. reflexivity. Qed.
Example basename_ext_short : Path.basename_ext "a/bc//" "xbc" = "bc//".
Proof. reflexivity. Qed.
Example basename_trailing : Path.basename "/a/b//" = "b".
Proof. reflexivity. Qed.
Example extname_doc :
  (Path.extname "index.html", Path.extname "index.coffee.md", Path.extname "index.",
   Path.extname "index", Path.extname ".index", Path.extname ".index.md",
   Path.extname "..", Path.extname "a/...", Path.extname "a.b/")
  = (".html", ".md", ".", "", "", ".md", "", ".", ".b").
Proof. reflexivity. Qed.
Example dirname_doc :
  (Path.dirname "/foo/bar/baz/asdf/quux", Path.dirname "a//b", Path.dirname "/a",
   Path.dirname "a", Path.dirname "", Path.dirname "//a", Path.dirname "a/b/",
   Path.dirname "/", Path.dirname "/a/b")
  = ("/foo/bar/baz/asdf", "a/", "/", ".", ".", "//", "a", "/", "/a").
Proof. reflexivity. Qed.
Example join_doc :
  (Path.join ["/foo"; "bar"; "baz/asdf"; "quux"; ".."], Path.join ["."; "dist"],
   Path.join ["/p"; "dist"], Path.join [""; ""], Path.join ["a"; "../../b/"],
   Path.join ["/"; ".."; "x"], Path.join ["./"], Path.join ["/p/dist"; "a.output.js"])
  = ("/foo/bar/baz/asdf", "dist", "/p/dist", ".", "../b/", "/x", "./", "/p/dist/a.output.js").
Proof. reflexivity. Qed.

Example replace_escaped :
  (replace_at_end re_fixture_escaped ".output.js" "/p/a.fixture.js",
   replace_at_end re_fixture_escaped ".output.js" "/p/a.fixture-js",
   replace_at_end re_fixture ".output.js" "/p/a.fixture-js",
   replace_at_end re_fixture ".output.js" "/p/a.fixture.js.map")
  = ("/p/a.output.js", "/p/a.fixture-js", "/p/a.output.js", "/p/a.fixture.js.map").
Proof. reflexivity. Qed.

(** ** Running the adapters: what is logged and how the promise ends *)

Lemma runCallback_unsettled err result :
  Webpack.runCallback err result Unsettled =
    match err, result with
    | Some e, _ => Rejected (BackendError e)
    | None, Some st =>
        if Webpack.hasErrors st
        then Rejected (Diagnostics (join_with newline (Webpack.compilation_errors st)))
        else Resolved tt
    | None, None => Resolved tt
    end.
Proof.
  unfold Webpack.runCallback.
  destruct err as [e|], result as [st|]; simpl; try reflexivity;
    destruct (Webpack.hasErrors st); reflexivity.
Qed.

Lemma runWebpack_run wp opts :
  let enh := Webpack.RunWebpackOptions.enhanceConfig opts in
  let c0 := Webpack.createWebpackConfig (Webpack.RunWebpackOptions.fixturePath opts)
              (Webpack.RunWebpackOptions.outputPath opts)
              (Webpack.RunWebpackOptions.debug opts) in
  run (Webpack.runWebpack wp opts) =
    (Webpack.runCallback (wp (enh c0)).1 (wp (enh c0)).2 Unsettled,
     [Enhance c0; Backend (enh c0)]).
Proof. reflexivity. Qed.

Lemma runWebpackMultiEntry_run wp opts c0 :
  let enh := Webpack.RunWebpackMultiEntryOptions.enhanceConfig opts in
  Webpack.createMultiEntryWebpackConfig (Webpack.RunWebpackMultiEntryOptions.fixtures opts)
    (Webpack.RunWebpackMultiEntryOptions.debug opts) = Normal c0 →
  run (Webpack.runWebpackMultiEntry wp opts) =
    (Webpack.runCallback (wp (enh c0)).1 (wp (enh c0)).2 Unsettled,
     [Enhance c0; Backend (enh c0)]).
Proof.
  intros enh H. unfold run, Webpack.runWebpackMultiEntry. cbv zeta. rewrite H.
  reflexivity.
Qed.

Lemma createMultiEntryWebpackConfig_cons f fs debug :
  Webpack.createMultiEntryWebpackConfig (f :: fs) debug =
    Normal (Webpack.with_entry_output (Webpack.createBaseWebpackConfig debug)
              (Webpack.EntryObject (Webpack.entries (Webpack.buildEntry (f :: fs))))
              {| Webpack.filename := "[name].js";
                 Webpack.path := Path.dirname (Webpack.outputPath f);
                 Webpack.pathinfo := if debug then Some true else None |}).
Proof. reflexivity. Qed.

Lemma createMultiEntryWebpackConfig_nil debug :
  Webpack.createMultiEntryWebpackConfig [] debug =
    Throws (TypeError "Cannot read properties of undefined (reading 'outputPath')").
Proof. reflexivity. Qed.

Lemma rspack_buildFixture_run enh rsbuild opts :
  let fp := BuildOptions.fixturePath opts in
  let debug := BuildOptions.debug opts in
  let c0 := rspackDefaultConfig fp debug in
  run (Rspack.buildFixture enh rsbuild opts) =
    (after (rsbuild (enh c0))
       {| BuildResult.name := None;
          BuildResult.outputPath := Rspack.deriveOutputPath fp;
          BuildResult.debugOutputPath :=
            if debug then Some (Rspack.deriveDebugOutputPath fp) else None |},
     [Enhance c0; Backend (enh c0)]).
Proof.
  simpl. unfold run, Rspack.buildFixture, rspackDefaultConfig. simpl.
  unfold mbind, async_bind, callEnhancer, callBackend, emit, await, mret, async_ret.
  simpl. destruct (rsbuild _); reflexivity.
Qed.

Lemma rspack_createMultiEntry_cons f fs debug :
  ∃ envs, Rspack.createMultiEntryEnvironmentConfig (f :: fs) debug = Normal envs
    ∧ ∃ env, envs !! "default" = Some env
        ∧ Rspack.distPath_root (Rspack.output env) = Path.dirname (Rspack.outputPath f)
        ∧ Rspack.filename_js (Rspack.output env) = "[name].js"
        ∧ Rspack.source_entry env = Rspack.reduceEntry (f :: fs).
Proof.
  unfold Rspack.createMultiEntryEnvironmentConfig. simpl.
  destruct debug; simpl; eexists; (split; [reflexivity|]); eexists; split.
  - apply lookup_insert_eq.
  - auto.
  - apply lookup_singleton_eq.
  - auto.
Qed.

Lemma rspack_buildFixtures_run enh rsbuild opts f fs :
  BatchBuildOptions.fixtures opts = f :: fs →
  let debug := BatchBuildOptions.debug opts in
  ∃ envs,
    Rspack.createMultiEntryEnvironmentConfig (Rspack.withPaths <$> (f :: fs)) debug
      = Normal envs ∧
    let c0 := {| Rspack.root := Path.dirname (Fixture.fixturePath f);
                 Rspack.mode := "production";
                 Rspack.dev_progressBar := false;
                 Rspack.environments := envs |} in
    run (Rspack.buildFixtures enh rsbuild opts) =
      (after (rsbuild (enh c0)) (rspackBatchResult debug <$> (f :: fs)),
       [Enhance c0; Backend (enh c0)]).
Proof.
  intros Hfs debug.
  destruct (rspack_createMultiEntry_cons (Rspack.withPaths f) (Rspack.withPaths <$> fs) debug)
    as (envs & Henvs & _).
  exists envs. split; [exact Henvs|].
  unfold run, Rspack.buildFixtures. rewrite Hfs. fold debug.
  change (Rspack.withPaths <$> f :: fs) with (Rspack.withPaths f :: (Rspack.withPaths <$> fs)) in *.
  simpl.
  unfold mbind at 1. unfold async_bind at 1. simpl.
  unfold mbind at 1. unfold async_bind at 1. rewrite Henvs. simpl.
  unfold mbind, async_bind, callEnhancer, callBackend, emit, await, mret, async_ret.
  simpl. destruct (rsbuild _); simpl; try reflexivity.
  f_equal. f_equal. f_equal.
  clear. induction fs as [|g fs IH]; simpl; [reflexivity|].
  f_equal. exact IH.
Qed.

Lemma rspack_buildFixtures_nil enh rsbuild opts :
  BatchBuildOptions.fixtures opts = [] →
  run (Rspack.buildFixtures enh rsbuild opts) =
    (Rejected (TypeError "Cannot read properties of undefined (reading 'fixturePath')"), []).
Proof. intros H. unfold run, Rspack.buildFixtures. rewrite H. reflexivity. Qed.

(** ** Compilation errors (webpack) *)

Lemma runCallback_spec args :
  let out := Webpack.runCallback args.1 args.2 Unsettled in
  (rejects out ↔ reportsError args)
  ∧ (∀ st, args.1 = None → args.2 = Some st → Webpack.hasErrors st = true →
       out = Rejected (Diagnostics (join_with newline (Webpack.compilation_errors st))))
  ∧ (¬ reportsError args → out = Resolved tt).
Proof.
  destruct args as [err result]. simpl. rewrite runCallback_unsettled.
  unfold rejects, reportsError. simpl.
  destruct err as [e|]; [|destruct result as [st|]; [destruct (Webpack.hasErrors st) eqn:He|]].
  - split; [|split].
    + split; eauto.
    + discriminate.
    + intros H. destruct H. eauto.
  - split; [|split].
    + split; eauto.
    + intros st' _ [= <-] _. reflexivity.
    + intros H. destruct H. eauto.
  - split; [|split].
    + split.
      * intros [r Hr]. discriminate.
      * intros [[x Hx]|(st' & [= <-] & Hst')]; [discriminate|congruence].
    + intros st' _ [= <-]. congruence.
    + reflexivity.
  - split; [|split].
    + split.
      * intros [r Hr]. discriminate.
      * intros [[x Hx]|(st' & Hst' & _)]; discriminate.
    + discriminate.
    + reflexivity.
Qed.

(** C7. A webpack build, single-fixture or batch (on a non-empty list of
    fixtures), rejects if and only if the compiler hands the callback an
    error or a result that has errors; when only the result has errors the
    rejection carries the compilation errors joined by newlines into one
    message; otherwise the promise resolves with [null]. The batch has one
    promise for all its fixtures, so an error in any of them rejects the
    whole batch. *)
Theorem webpack_rejects_iff_compiler_reports
    (wp : Webpack.Configuration → option string * option Webpack.Stats)
    (single : Webpack.RunWebpackOptions.t)
    (batch : Webpack.RunWebpackMultiEntryOptions.t) :
  Webpack.RunWebpackMultiEntryOptions.fixtures batch ≠ [] →
  (let enh := Webpack.RunWebpackOptions.enhanceConfig single in
   let args := wp (enh (Webpack.createWebpackConfig
                          (Webpack.RunWebpackOptions.fixturePath single)
                          (Webpack.RunWebpackOptions.outputPath single)
                          (Webpack.RunWebpackOptions.debug single))) in
   let out := (run (Webpack.runWebpack wp single)).1 in
   (rejects out ↔ reportsError args)
   ∧ (∀ st, args.1 = None → args.2 = Some st → Webpack.hasErrors st = true →
        out = Rejected (Diagnostics (join_with newline (Webpack.compilation_errors st))))
   ∧ (¬ reportsError args → out = Resolved tt))
  ∧ (∃ c0, Webpack.createMultiEntryWebpackConfig
             (Webpack.RunWebpackMultiEntryOptions.fixtures batch)
             (Webpack.RunWebpackMultiEntryOptions.debug batch) = Normal c0 ∧
     let enh := Webpack.RunWebpackMultiEntryOptions.enhanceConfig batch in
     let args := wp (enh c0) in
     let out := (run (Webpack.runWebpackMultiEntry wp batch)).1 in
     (rejects out ↔ reportsError args)
     ∧ (∀ st, args.1 = None → args.2 = Some st → Webpack.hasErrors st = true →
          out = Rejected (Diagnostics (join_with newline (Webpack.compilation_errors st))))
     ∧ (¬ reportsError args → out = Resolved tt)).
Proof.
  intros Hne. split.
  - rewrite runWebpack_run. simpl. apply runCallback_spec.
  - destruct (Webpack.RunWebpackMultiEntryOptions.fixtures batch)
      as [|f fs] eqn:Hfs; [done|].
    eexists. split; [apply createMultiEntryWebpackConfig_cons|].
    erewrite runWebpackMultiEntry_run
      by (rewrite Hfs; apply createMultiEntryWebpackConfig_cons).
    simpl. apply runCallback_spec.
Qed.

Lemma webpack_rejects_iff_compiler_reports_witness :
  (run (Webpack.runWebpackMultiEntry failingCompiler
          (Webpack.RunWebpackMultiEntryOptions.mk id twoFixtures false true))).1
  = Rejected (Diagnostics ("Module not found: unknown-pkg" +:+ newline +:+ "1 error")).
Proof.
  destruct (webpack_rejects_iff_compiler_reports failingCompiler
              (Webpack.RunWebpackOptions.mk id "/m/fixture1.fixture.js"
                 "/m/fixture1.output.js" false true)
              (Webpack.RunWebpackMultiEntryOptions.mk id twoFixtures false true))
    as [_ (c0 & _ & _ & H & _)].
  - discriminate.
  - apply (H {| Webpack.hasErrors := true;
                Webpack.compilation_errors :=
                  ["Module not found: unknown-pkg"; "1 error"] |});
      reflexivity.
Defined.

(** ** The enhancer *)

(** C8. In every build the enhancer is called exactly once, on the whole
    default configuration (for a batch: the one multi-entry configuration),
    and the backend is started on the value it returned: the log of a
    webpack run, single or multi-entry, and of an rspack build, single or
    batch, is the enhancer call followed by the backend call on the
    enhancer's result, whatever the backend then answers. *)
Theorem enhancer_called_once_result_used
    (wp : Webpack.Configuration → option string * option Webpack.Stats)
    (single : Webpack.RunWebpackOptions.t)
    (batch : Webpack.RunWebpackMultiEntryOptions.t)
    (enhR : Rspack.RsbuildConfig → Rspack.RsbuildConfig)
    (rsbuild : Rspack.RsbuildConfig → outcome unit)
    (options : BuildOptions.t) (batchOptions : BatchBuildOptions.t) :
  Webpack.RunWebpackMultiEntryOptions.fixtures batch ≠ [] →
  BatchBuildOptions.fixtures batchOptions ≠ [] →
  (let enh := Webpack.RunWebpackOptions.enhanceConfig single in
   let c0 := Webpack.createWebpackConfig
               (Webpack.RunWebpackOptions.fixturePath single)
               (Webpack.RunWebpackOptions.outputPath single)
               (Webpack.RunWebpackOptions.debug single) in
   (run (Webpack.runWebpack wp single)).2 = [Enhance c0; Backend (enh c0)])
  ∧ (∃ c0, Webpack.createMultiEntryWebpackConfig
             (Webpack.RunWebpackMultiEntryOptions.fixtures batch)
             (Webpack.RunWebpackMultiEntryOptions.debug batch) = Normal c0
       ∧ let enh := Webpack.RunWebpackMultiEntryOptions.enhanceConfig batch in
         (run (Webpack.runWebpackMultiEntry wp batch)).2
         = [Enhance c0; Backend (enh c0)])
  ∧ (let c0 := rspackDefaultConfig (BuildOptions.fixturePath options)
                 (BuildOptions.debug options) in
     (run (Rspack.buildFixture enhR rsbuild options)).2
     = [Enhance c0; Backend (enhR c0)])
  ∧ (∃ first envs,
       Rspack.firstFixturePath (BatchBuildOptions.fixtures batchOptions) = Normal first
       ∧ Rspack.createMultiEntryEnvironmentConfig
           (Rspack.withPaths <$> BatchBuildOptions.fixtures batchOptions)
           (BatchBuildOptions.debug batchOptions) = Normal envs
       ∧ let c0 := {| Rspack.root := Path.dirname first;
                      Rspack.mode := "production";
                      Rspack.dev_progressBar := false;
                      Rspack.environments := envs |} in
         (run (Rspack.buildFixtures enhR rsbuild batchOptions)).2
         = [Enhance c0; Backend (enhR c0)]).
Proof.
  intros HneW HneR. repeat split.
  - destruct (Webpack.RunWebpackMultiEntryOptions.fixtures batch)
      as [|f fs] eqn:Hfs; [done|].
    eexists. split; [apply createMultiEntryWebpackConfig_cons|].
    erewrite runWebpackMultiEntry_run
      by (rewrite Hfs; apply createMultiEntryWebpackConfig_cons).
    reflexivity.
  - rewrite rspack_buildFixture_run. reflexivity.
  - destruct (BatchBuildOptions.fixtures batchOptions) as [|f fs] eqn:Hfs; [done|].
    destruct (rspack_buildFixtures_run enhR rsbuild batchOptions f fs Hfs)
      as (envs & Henvs & Hrun).
    exists (Fixture.fixturePath f), envs. split; [reflexivity|]. split; [exact Henvs|].
    simpl in Hrun |- *. rewrite Hrun. reflexivity.
Qed.

Lemma enhancer_called_once_result_used_witness :
  ∃ c0, Webpack.createMultiEntryWebpackConfig twoFixtures true = Normal c0
    ∧ (run (Webpack.runWebpackMultiEntry failingCompiler
              (Webpack.RunWebpackMultiEntryOptions.mk noPathinfo twoFixtures true true))).2
      = [Enhance c0; Backend (noPathinfo c0)].
Proof.
  destruct (enhancer_called_once_result_used failingCompiler
              (Webpack.RunWebpackOptions.mk noPathinfo "/m/fixture1.fixture.js"
                 "/m/fixture1.output.js" true true)
              (Webpack.RunWebpackMultiEntryOptions.mk noPathinfo twoFixtures true true)
              id rsbuildOk
              (BuildOptions.mk "/m/a.fixture.js" true false)
              (BatchBuildOptions.mk threeFixtures true false))
    as (_ & H & _).
  - discriminate.
  - discriminate.
  - exact H.
Defined.

(** ** Access to the first fixture *)

Lemma empty_batch_throws debug :
  Webpack.createMultiEntryWebpackConfig [] debug
    = Throws (TypeError "Cannot read properties of undefined (reading 'outputPath')")
  ∧ Rspack.createMultiEntryEnvironmentConfig [] debug
    = Throws (TypeError "Cannot read properties of undefined (reading 'outputPath')")
  ∧ Rspack.firstFixturePath []
    = Throws (TypeError "Cannot read properties of undefined (reading 'fixturePath')").
Proof. repeat split. Qed.

(** C9. For a non-empty list of fixtures the construction of the batch
    configuration is defined: [fixtures[0]] is in bounds where the webpack
    builder and the rspack builder take the shared output directory and
    where the rspack adapter takes the build root, nothing is thrown, and
    the rspack batch goes on to call the enhancer and the backend. (On the
    empty list each of the three accesses throws a [TypeError], see
    [empty_batch_throws].) *)
Theorem first_fixture_access_defined
    (wfs : list Webpack.FixtureWithPath) (rfs : list Rspack.FixtureWithPaths)
    (debug : bool)
    (enh : Rspack.RsbuildConfig → Rspack.RsbuildConfig)
    (rsbuild : Rspack.RsbuildConfig → outcome unit)
    (options : BatchBuildOptions.t) :
  wfs ≠ [] → rfs ≠ [] → BatchBuildOptions.fixtures options ≠ [] →
  (∃ f cfg, wfs !! 0 = Some f
     ∧ Webpack.firstOutputPath wfs = Normal (Webpack.outputPath f)
     ∧ Webpack.createMultiEntryWebpackConfig wfs debug = Normal cfg)
  ∧ (∃ f envs, rfs !! 0 = Some f
       ∧ Rspack.firstOutputPath rfs = Normal (Rspack.outputPath f)
       ∧ Rspack.createMultiEntryEnvironmentConfig rfs debug = Normal envs)
  ∧ (∃ f c0, BatchBuildOptions.fixtures options !! 0 = Some f
       ∧ Rspack.firstFixturePath (BatchBuildOptions.fixtures options)
         = Normal (Fixture.fixturePath f)
       ∧ Rspack.root c0 = Path.dirname (Fixture.fixturePath f)
       ∧ run (Rspack.buildFixtures enh rsbuild options)
         = (after (rsbuild (enh c0))
              (rspackBatchResult (BatchBuildOptions.debug options)
                 <$> BatchBuildOptions.fixtures options),
            [Enhance c0; Backend (enh c0)])).
Proof.
  intros Hw Hr Ho. split; [|split].
  - destruct wfs as [|f fs]; [done|]. exists f. eexists.
    split; [reflexivity|]. split; [reflexivity|].
    apply createMultiEntryWebpackConfig_cons.
  - destruct rfs as [|f fs]; [done|]. exists f.
    destruct (rspack_createMultiEntry_cons f fs debug) as (envs & Henvs & _).
    exists envs. auto.
  - destruct (BatchBuildOptions.fixtures options) as [|f fs] eqn:Hfs; [done|].
    destruct (rspack_buildFixtures_run enh rsbuild options f fs Hfs)
      as (envs & Henvs & Hrun).
    exists f. eexists. split; [reflexivity|]. split; [reflexivity|].
    split; [|exact Hrun]. reflexivity.
Qed.

Lemma first_fixture_access_defined_witness :
  ∃ cfg, Webpack.createMultiEntryWebpackConfig twoFixtures false = Normal cfg.
Proof.
  destruct (first_fixture_access_defined twoFixtures
              (Rspack.withPaths <$> threeFixtures) false id rsbuildOk
              (BatchBuildOptions.mk threeFixtures true false))
    as ((f & cfg & _ & _ & H) & _).
  - discriminate.
  - discriminate.
  - discriminate.
  - exists cfg. exact H.
Defined.

(** ** Results of a build *)

Section EsbuildRuns.
Context {Config : Type}.
Variable enh : Config → Config.
Variable runEsbuild :
  Esbuild.RunEsbuildOptions.t Config → async (call Config) unit.
Variable runEsbuildMultiEntry :
  Esbuild.RunEsbuildMultiEntryOptions.t Config → async (call Config) unit.

Lemma esbuild_buildFixture_resolved options r :
  (run (Esbuild.buildFixture Config enh runEsbuild options)).1 = Resolved r →
  r = {| BuildResult.name := None;
         BuildResult.outputPath :=
           Esbuild.deriveOutputPath (BuildOptions.fixturePath options);
         BuildResult.debugOutputPath := None |}.
Proof.
  unfold run, Esbuild.buildFixture, mbind, async_bind. simpl.
  destruct (runEsbuild _ _) as [[[]| |] log]; simpl; congruence.
Qed.

Lemma esbuild_buildFixtures_resolved options rs :
  (run (Esbuild.buildFixtures Config enh runEsbuildMultiEntry options)).1
    = Resolved rs →
  rs = esbuildBatchResult <$> BatchBuildOptions.fixtures options.
Proof.
  unfold run, Esbuild.buildFixtures, mbind, async_bind. simpl.
  destruct (runEsbuildMultiEntry _ _) as [[[]| |] log]; simpl; try congruence.
  intros [= <-]. rewrite <- list_fmap_compose. reflexivity.
Qed.
End EsbuildRuns.

Lemma after_resolved {A B} (p : outcome A) (b b' : B) :
  after p b = Resolved b' → b' = b.
Proof. destruct p; simpl; congruence. Qed.

(** C5. The result of a build has a [debugOutputPath] if and only if debug
    was requested and the backend supports debug output: for rspack, single
    or batch, exactly when [debug] is true; for esbuild never. In
    particular no build with [debug] false yields a [debugOutputPath], and
    an rspack build with [debug] true that resolves always yields one; an
    rspack build resolves whenever its backend does. *)
Theorem debugOutputPath_iff_debug_supported
    (enhR : Rspack.RsbuildConfig → Rspack.RsbuildConfig)
    (rsbuild : Rspack.RsbuildConfig → outcome unit)
    (Config : Type) (enhE : Config → Config)
    (runEsbuild : Esbuild.RunEsbuildOptions.t Config → async (call Config) unit)
    (runEsbuildMultiEntry :
      Esbuild.RunEsbuildMultiEntryOptions.t Config → async (call Config) unit)
    (options : BuildOptions.t) (batchOptions : BatchBuildOptions.t) :
  (∀ r, (run (Rspack.buildFixture enhR rsbuild options)).1 = Resolved r →
     (is_Some (BuildResult.debugOutputPath r)
      ↔ BuildOptions.debug options = true ∧ supportsDebug rspack = true))
  ∧ (∀ rs r, (run (Rspack.buildFixtures enhR rsbuild batchOptions)).1 = Resolved rs →
       r ∈ rs →
       (is_Some (BuildResult.debugOutputPath r)
        ↔ BatchBuildOptions.debug batchOptions = true ∧ supportsDebug rspack = true))
  ∧ (∀ r, (run (Esbuild.buildFixture Config enhE runEsbuild options)).1 = Resolved r →
       (is_Some (BuildResult.debugOutputPath r)
        ↔ BuildOptions.debug options = true ∧ supportsDebug esbuild = true))
  ∧ (∀ rs r,
       (run (Esbuild.buildFixtures Config enhE runEsbuildMultiEntry batchOptions)).1
         = Resolved rs →
       r ∈ rs →
       (is_Some (BuildResult.debugOutputPath r)
        ↔ BatchBuildOptions.debug batchOptions = true ∧ supportsDebug esbuild = true))
  ∧ ((∀ c, ∃ u, rsbuild c = Resolved u) →
     (∃ r, (run (Rspack.buildFixture enhR rsbuild options)).1 = Resolved r)
     ∧ (BatchBuildOptions.fixtures batchOptions ≠ [] →
        ∃ rs, (run (Rspack.buildFixtures enhR rsbuild batchOptions)).1 = Resolved rs
          ∧ length rs = length (BatchBuildOptions.fixtures batchOptions))).
Proof.
  split; [|split; [|split; [|split]]].
  - intros r. rewrite rspack_buildFixture_run. simpl. intros ->%after_resolved. simpl.
    destruct (BuildOptions.debug options); split; intros H; auto.
    + destruct H as [? ?]; discriminate.
    + destruct H as [? ?]; discriminate.
  - intros rs r Hrun Hr.
    destruct (BatchBuildOptions.fixtures batchOptions) as [|f fs] eqn:Hfs.
    + rewrite rspack_buildFixtures_nil in Hrun by exact Hfs. discriminate.
    + destruct (rspack_buildFixtures_run enhR rsbuild batchOptions f fs Hfs)
        as (envs & _ & Hrun').
      cbv zeta in Hrun'. rewrite Hrun' in Hrun. cbn [fst] in Hrun.
      apply after_resolved in Hrun. subst rs.
      apply list_elem_of_fmap in Hr as (g & -> & _). simpl.
      destruct (BatchBuildOptions.debug batchOptions); split; intros H; auto.
      * destruct H as [? ?]; discriminate.
      * destruct H as [? ?]; discriminate.
  - intros r ->%esbuild_buildFixture_resolved. simpl. split.
    + intros [? ?]; discriminate.
    + intros [_ ?]; discriminate.
  - intros rs r ->%esbuild_buildFixtures_resolved Hr.
    apply list_elem_of_fmap in Hr as (g & -> & _). simpl. split.
    + intros [? ?]; discriminate.
    + intros [_ ?]; discriminate.
  - intros Hok. split.
    + rewrite rspack_buildFixture_run. cbn [fst].
      destruct (Hok (enhR (rspackDefaultConfig (BuildOptions.fixturePath options)
                             (BuildOptions.debug options)))) as [u ->].
      eexists. reflexivity.
    + intros Hne.
      destruct (BatchBuildOptions.fixtures batchOptions) as [|f fs] eqn:Hfs; [done|].
      destruct (rspack_buildFixtures_run enhR rsbuild batchOptions f fs Hfs)
        as (envs & _ & Hrun).
      cbv zeta in Hrun. rewrite Hrun. cbn [fst].
      match goal with |- context [rsbuild ?c] => destruct (Hok c) as [u ->] end.
      eexists. split; [reflexivity|]. apply length_fmap.
Qed.

Lemma debugOutputPath_iff_debug_supported_witness :
  is_Some (BuildResult.debugOutputPath
             {| BuildResult.name := None;
                BuildResult.outputPath := "/m/dist/a.output.js";
                BuildResult.debugOutputPath := Some "/m/dist/a.debug.js" |})
  ↔ true = true ∧ supportsDebug rspack = true.
Proof.
  destruct (debugOutputPath_iff_debug_supported id rsbuildOk
              Rspack.RsbuildConfig id (λ _, mret tt) (λ _, mret tt)
              (BuildOptions.mk "/m/a.fixture.js" true true)
              (BatchBuildOptions.mk threeFixtures true true)) as [H _].
  apply (H {| BuildResult.name := None;
              BuildResult.outputPath := "/m/dist/a.output.js";
              BuildResult.debugOutputPath := Some "/m/dist/a.debug.js" |}).
  vm_compute. reflexivity.
Defined.

(** C6. A batch returns one result per input fixture, in input order, each
    with that fixture's name and the paths derived from its fixture path
    alone: whatever enhancer and backend are used, a batch that resolves
    resolves with the same list, the image of the input list under the
    path derivation, and the rspack batch resolves with it whenever the
    backend resolves. The one output directory of the batch is the
    directory of the first fixture's derived [outputPath], in the rspack
    environment handed to the enhancer and in the webpack multi-entry
    configuration. *)
Theorem batch_fan_out_in_input_order
    (enh : Rspack.RsbuildConfig → Rspack.RsbuildConfig)
    (rsbuild : Rspack.RsbuildConfig → outcome unit)
    (Config : Type) (enhE : Config → Config)
    (runEsbuildMultiEntry :
      Esbuild.RunEsbuildMultiEntryOptions.t Config → async (call Config) unit)
    (options : BatchBuildOptions.t) (f : Fixture.t) (fs : list Fixture.t)
    (wf : Webpack.FixtureWithPath) (wfs : list Webpack.FixtureWithPath) :
  BatchBuildOptions.fixtures options = f :: fs →
  let debug := BatchBuildOptions.debug options in
  (∀ rs, (run (Rspack.buildFixtures enh rsbuild options)).1 = Resolved rs →
     rs = rspackBatchResult debug <$> BatchBuildOptions.fixtures options
     ∧ length rs = length (BatchBuildOptions.fixtures options)
     ∧ ∀ i g, BatchBuildOptions.fixtures options !! i = Some g →
         rs !! i = Some (rspackBatchResult debug g))
  ∧ (∀ rs,
       (run (Esbuild.buildFixtures Config enhE runEsbuildMultiEntry options)).1
         = Resolved rs →
       rs = esbuildBatchResult <$> BatchBuildOptions.fixtures options
       ∧ length rs = length (BatchBuildOptions.fixtures options)
       ∧ ∀ i g, BatchBuildOptions.fixtures options !! i = Some g →
           rs !! i = Some (esbuildBatchResult g))
  ∧ (∃ c0 env,
       run (Rspack.buildFixtures enh rsbuild options)
         = (after (rsbuild (enh c0))
              (rspackBatchResult debug <$> BatchBuildOptions.fixtures options),
            [Enhance c0; Backend (enh c0)])
       ∧ Rspack.environments c0 !! "default" = Some env
       ∧ Rspack.distPath_root (Rspack.output env)
         = Path.dirname (Rspack.deriveOutputPath (Fixture.fixturePath f)))
  ∧ (∃ cfg o, Webpack.createMultiEntryWebpackConfig (wf :: wfs) debug = Normal cfg
       ∧ Webpack.output cfg = Some o
       ∧ Webpack.path o = Path.dirname (Webpack.outputPath wf)).
Proof.
  intros Hfs debug.
  assert (Hmap : ∀ (g : Fixture.t → BuildResult.t) rs,
            rs = g <$> BatchBuildOptions.fixtures options →
            rs = g <$> BatchBuildOptions.fixtures options
            ∧ length rs = length (BatchBuildOptions.fixtures options)
            ∧ ∀ i x, BatchBuildOptions.fixtures options !! i = Some x →
                rs !! i = Some (g x)).
  { intros g rs ->. split; [reflexivity|]. split; [apply length_fmap|].
    intros i x Hi. rewrite list_lookup_fmap, Hi. reflexivity. }
  destruct (rspack_buildFixtures_run enh rsbuild options f fs Hfs)
    as (envs & Henvs & Hrun).
  cbv zeta in Hrun. fold debug in Hrun, Henvs.
  split; [|split; [|split]].
  - intros rs Hrs. apply Hmap. rewrite Hrun in Hrs. cbn [fst] in Hrs.
    apply after_resolved in Hrs. rewrite Hfs. exact Hrs.
  - intros rs Hrs. apply Hmap. eapply esbuild_buildFixtures_resolved. exact Hrs.
  - destruct (rspack_createMultiEntry_cons (Rspack.withPaths f)
                (Rspack.withPaths <$> fs) debug)
      as (envs' & Henvs' & env & Henv & Hroot & _).
    change (Rspack.withPaths f :: (Rspack.withPaths <$> fs))
      with (Rspack.withPaths <$> f :: fs) in Henvs'.
    rewrite Henvs in Henvs'. injection Henvs' as <-.
    eexists. exists env. rewrite Hrun, Hfs. split; [reflexivity|].
    split; [exact Henv|]. exact Hroot.
  - eexists. eexists. split; [apply createMultiEntryWebpackConfig_cons|].
    split; reflexivity.
Qed.

Lemma batch_fan_out_in_input_order_witness :
  (run (Rspack.buildFixtures id rsbuildOk
          (BatchBuildOptions.mk threeFixtures true false))).1
  = Resolved (rspackBatchResult false <$> threeFixtures)
  ∧ (rspackBatchResult false <$> threeFixtures) !! 1
    = Some {| BuildResult.name := Some "b";
              BuildResult.outputPath := "/m/dist/b.output.js";
              BuildResult.debugOutputPath := None |}.
Proof.
  assert (Hrun : (run (Rspack.buildFixtures id rsbuildOk
                         (BatchBuildOptions.mk threeFixtures true false))).1
                 = Resolved (rspackBatchResult false <$> threeFixtures))
    by (vm_compute; reflexivity).
  split; [exact Hrun|].
  destruct (batch_fan_out_in_input_order id rsbuildOk
              Rspack.RsbuildConfig id (λ _, mret tt)
              (BatchBuildOptions.mk threeFixtures true false)
              (Fixture.mk "/m/a.fixture.js" "a")
              [Fixture.mk "/m/b.fixture.js" "b"; Fixture.mk "/m/c.fixture.js" "c"]
              (Webpack.mkFixture "/m/fixture1.fixture.js" "/m/fixture1.output.js")
              [Webpack.mkFixture "/m/fixture2.fixture.js" "/m/fixture2.output.js"]
              eq_refl) as [H _].
  destruct (H _ Hrun) as (_ & _ & Hi).
  rewrite (Hi 1 (Fixture.mk "/m/b.fixture.js" "b") eq_refl).
  vm_compute. reflexivity.
Defined.

(** ** Batches without a name collision *)

Lemma forEachFrom_no_collision fixtures : ∀ index st,
  NoDup (plainNames fixtures) →
  (∀ k, k ∈ plainNames fixtures → k ∉ Webpack.seenKeys st) →
  Webpack.entries (Webpack.forEachFrom index fixtures st) =
    fold_left (λ entry f, assign (Webpack.entryNameOf (Webpack.outputPath f))
                            (Webpack.fixturePath f) entry)
      fixtures (Webpack.entries st).
Proof.
  induction fixtures as [|f fs IH]; intros index st Hnd Hseen; [reflexivity|].
  simpl. apply NoDup_cons in Hnd as [Hf Hnd].
  assert (Hk : Webpack.entryNameAt (Webpack.seenKeys st) index f
               = Webpack.entryNameOf (Webpack.outputPath f)).
  { unfold Webpack.entryNameAt. rewrite bool_decide_eq_false_2; [reflexivity|].
    apply Hseen. left. }
  rewrite IH.
  - unfold Webpack.forEachBody. simpl. rewrite Hk. reflexivity.
  - exact Hnd.
  - intros k Hin. unfold Webpack.forEachBody. simpl. rewrite Hk.
    intros [Heq%elem_of_singleton|Hs]%elem_of_union.
    + subst k. contradiction.
    + apply (Hseen k); [right; exact Hin|exact Hs].
Qed.

Lemma single_entry_config_revisions_agree fixturePath outputPath debug :
  Webpack.createWebpackConfig fixturePath outputPath debug
  = WebpackPrev.createWebpackConfig fixturePath outputPath debug.
Proof. destruct debug; reflexivity. Qed.


(** ** Strings *)

Lemma str_chars s : str (chars s) = s.
Proof. apply String.string_of_list_ascii_of_string. Qed.

Lemma chars_str l : chars (str l) = l.
Proof. apply String.list_ascii_of_string_of_list_ascii. Qed.

Lemma chars_inj s1 s2 : chars s1 = chars s2 → s1 = s2.
Proof. intros H. rewrite <- (str_chars s1), <- (str_chars s2), H. reflexivity. Qed.

Lemma chars_app s1 s2 : chars (s1 +:+ s2) = chars s1 ++ chars s2.
Proof.
  induction s1 as [|c s1 IH]; [reflexivity|].
  change (String c s1 +:+ s2) with (String c (s1 +:+ s2)).
  simpl. f_equal. exact IH.
Qed.

Lemma str_app l1 l2 : str (l1 ++ l2) = str l1 +:+ str l2.
Proof. apply chars_inj. rewrite chars_app, !chars_str. reflexivity. Qed.

(** *** Decimal numerals *)

Lemma pretty_N_char_digit x : is_digit (pretty_N_char x).
Proof.
  unfold pretty_N_char, is_digit.
  repeat case_match; simpl; eauto.
Qed.

Lemma pretty_N_go_digits x : ∀ s,
  Forall is_digit (chars s) → s ≠ "" →
  Forall is_digit (chars (pretty_N_go x s)) ∧ pretty_N_go x s ≠ "".
Proof.
  induction (N.lt_wf_0 x) as [x _ IH]; intros s Hs Hne.
  destruct (decide (x = 0)%N) as [->|Hx].
  - rewrite pretty_N_go_0. auto.
  - rewrite pretty_N_go_step by lia. apply IH.
    + apply N.div_lt; lia.
    + simpl. constructor; [apply pretty_N_char_digit|exact Hs].
    + discriminate.
Qed.

Lemma pretty_nat_digits (n : nat) :
  Forall is_digit (chars (pretty n)) ∧ chars (pretty n) ≠ [].
Proof.
  unfold pretty, pretty_nat, pretty, pretty_N.
  destruct (decide (N.of_nat n = 0)%N) as [_|Hn].
  - split; [|discriminate]. repeat constructor. unfold is_digit. simpl. eauto.
  - assert (N.of_nat n = N.succ (N.pred (N.of_nat n))) as -> by lia.
    set (x := N.succ _). assert (0 < x)%N by lia.
    rewrite pretty_N_go_step by done.
    destruct (pretty_N_go_digits (x `div` 10)
                (String (pretty_N_char (x `mod` 10)) "")) as [Hd Hne].
    + repeat constructor. apply pretty_N_char_digit.
    + discriminate.
    + split; [exact Hd|]. intros Hnil. apply Hne.
      apply chars_inj. exact Hnil.
Qed.

Lemma split_at_last_underscore (l1 l2 d1 d2 : list ascii) :
  "_"%char ∉ d1 → "_"%char ∉ d2 →
  l1 ++ "_"%char :: d1 = l2 ++ "_"%char :: d2 → l1 = l2 ∧ d1 = d2.
Proof.
  revert l2. induction l1 as [|c l1 IH]; intros [|c' l2] H1 H2 Heq; simpl in Heq.
  - injection Heq as Heq. auto.
  - injection Heq as Hc Heq. exfalso. apply H1. rewrite Heq.
    apply elem_of_app. right. left.
  - injection Heq as Hc Heq. exfalso. apply H2. rewrite <- Heq.
    apply elem_of_app. right. left.
  - injection Heq as Hc Heq. destruct (IH l2 H1 H2 Heq) as [Hl Hd].
    split; congruence.
Qed.

Lemma digits_no_underscore (d : list ascii) :
  Forall is_digit d → "_"%char ∉ d.
Proof.
  intros Hd Hin. rewrite Forall_forall in Hd. apply Hd in Hin.
  destruct Hin as [n Hn]. discriminate.
Qed.

Lemma indexed_inj k i j : indexed k i → indexed k j → i = j.
Proof.
  intros [x ->] [y Heq].
  apply (f_equal chars) in Heq. rewrite !chars_app in Heq. simpl in Heq.
  apply split_at_last_underscore in Heq as [_ Heq].
  - apply chars_inj in Heq. apply (inj pretty) in Heq. exact Heq.
  - apply digits_no_underscore, pretty_nat_digits.
  - apply digits_no_underscore, pretty_nat_digits.
Qed.

(** An indexed name ends in a digit. *)
Lemma indexed_last_digit k i :
  indexed k i → ∃ c r, rev (chars k) = c :: r ∧ is_digit c.
Proof.
  intros [x ->]. rewrite !chars_app. simpl.
  destruct (pretty_nat_digits i) as [Hd Hne].
  rewrite rev_app_distr. simpl.
  destruct (rev (chars (pretty i))) as [|c r] eqn:Hr.
  - exfalso. apply Hne. apply (f_equal (@rev ascii)) in Hr.
    rewrite rev_involutive in Hr. exact Hr.
  - exists c. eexists. split; [reflexivity|].
    rewrite Forall_forall in Hd. apply Hd.
    apply list_elem_of_In, in_rev. rewrite Hr. left. reflexivity.
Qed.

(** ** Entry names of a webpack batch *)

Lemma length_entryNamesFrom fixtures : ∀ index seen,
  length (entryNamesFrom index fixtures seen) = length fixtures.
Proof. induction fixtures as [|f fs IH]; intros; simpl; [|rewrite IH]; reflexivity. Qed.

(** The loop adds exactly these names to the set of seen keys. *)
Lemma forEachFrom_seenKeys fixtures : ∀ index st,
  Webpack.seenKeys (Webpack.forEachFrom index fixtures st)
  = list_to_set (entryNamesFrom index fixtures (Webpack.seenKeys st))
      ∪ Webpack.seenKeys st.
Proof.
  induction fixtures as [|f fs IH]; intros index st; simpl.
  - set_solver.
  - rewrite IH. simpl. set_solver.
Qed.

(** A key that is no later name keeps the value it had. *)
Lemma forEachFrom_entries_other fixtures : ∀ index st k,
  k ∉ entryNamesFrom index fixtures (Webpack.seenKeys st) →
  Webpack.entries (Webpack.forEachFrom index fixtures st) !! k
  = Webpack.entries st !! k.
Proof.
  induction fixtures as [|f fs IH]; intros index st k Hk; simpl; [reflexivity|].
  simpl in Hk. apply not_elem_of_cons in Hk as [Hne Hk].
  rewrite IH by exact Hk. simpl. apply lookup_assign_ne. congruence.
Qed.

(** With pairwise distinct names the entry object gains one key per
    fixture, bound to that fixture's path. *)
Lemma forEachFrom_entries_NoDup fixtures : ∀ index st,
  NoDup (entryNamesFrom index fixtures (Webpack.seenKeys st)) →
  "__proto__" ∉ entryNamesFrom index fixtures (Webpack.seenKeys st) →
  (∀ k, k ∈ entryNamesFrom index fixtures (Webpack.seenKeys st) →
        Webpack.entries st !! k = None) →
  size (Webpack.entries (Webpack.forEachFrom index fixtures st))
  = length fixtures + size (Webpack.entries st)
  ∧ ∀ i f, fixtures !! i = Some f →
      ∃ k, entryNamesFrom index fixtures (Webpack.seenKeys st) !! i = Some k
        ∧ Webpack.entries (Webpack.forEachFrom index fixtures st) !! k
          = Some (Webpack.fixturePath f).
Proof.
  induction fixtures as [|f fs IH]; intros index st Hnd Hproto Hfresh; simpl.
  - split; [reflexivity|]. intros i f Hi. discriminate.
  - simpl in Hnd, Hproto, Hfresh. apply NoDup_cons in Hnd as [Hk Hnd].
    apply not_elem_of_cons in Hproto as [Hkp Hproto].
    set (k := Webpack.entryNameAt (Webpack.seenKeys st) index f) in *.
    assert (Hassign : assign k (Webpack.fixturePath f) (Webpack.entries st)
                      = <[k := Webpack.fixturePath f]> (Webpack.entries st))
      by (apply assign_other; congruence).
    destruct (IH (S index) (Webpack.forEachBody st index f)) as [Hsize Hlook].
    + exact Hnd.
    + exact Hproto.
    + intros k' Hk'. simpl. fold k. rewrite lookup_assign_ne.
      * apply Hfresh. right. exact Hk'.
      * intros Heq. subst k'. apply Hk. exact Hk'.
    + split.
      * rewrite Hsize. simpl. fold k. rewrite Hassign.
        rewrite map_size_insert_None by (apply Hfresh; left). lia.
      * intros [|i] g Hi; simpl in Hi.
        -- injection Hi as <-. exists k. split; [reflexivity|].
           rewrite forEachFrom_entries_other by exact Hk.
           simpl. fold k. rewrite Hassign. apply lookup_insert_eq.
        -- apply Hlook in Hi. exact Hi.
Qed.

(** Every name is the plain one or the plain one with the fixture's own
    index, according to the names given before it. *)
Lemma entryNamesFrom_lookup fixtures : ∀ index seen i f,
  fixtures !! i = Some f →
  entryNamesFrom index fixtures seen !! i
  = Some (Webpack.entryNameAt
            (list_to_set (take i (entryNamesFrom index fixtures seen)) ∪ seen)
            (index + i) f).
Proof.
  induction fixtures as [|g fs IH]; intros index seen [|i] f Hi; simpl in Hi |- *;
    try discriminate.
  - injection Hi as ->. rewrite Nat.add_0_r. do 2 f_equal. set_solver.
  - rewrite (IH _ _ _ _ Hi). rewrite Nat.add_succ_r. simpl. do 2 f_equal.
    set_solver.
Qed.

(** A later fixture with the same output basename gets its index appended. *)
Lemma entryNamesFrom_second fixtures index seen i j fi fj :
  i < j → fixtures !! i = Some fi → fixtures !! j = Some fj →
  Webpack.entryNameOf (Webpack.outputPath fi)
    = Webpack.entryNameOf (Webpack.outputPath fj) →
  entryNamesFrom index fixtures seen !! j
  = Some (Webpack.entryNameOf (Webpack.outputPath fj) +:+ "_" +:+ pretty (index + j)).
Proof.
  intros Hij Hi Hj Hb.
  rewrite (entryNamesFrom_lookup _ _ _ _ _ Hj). f_equal.
  unfold Webpack.entryNameAt. rewrite bool_decide_eq_true_2; [reflexivity|].
  set (names := entryNamesFrom index fixtures seen).
  assert (Hni : names !! i = Some (Webpack.entryNameAt
            (list_to_set (take i names) ∪ seen) (index + i) fi))
    by (apply entryNamesFrom_lookup; exact Hi).
  assert (Htake : ∀ k, names !! i = Some k → k ∈ take j names).
  { intros k Hk. apply list_elem_of_lookup. exists i.
    rewrite lookup_take_lt by exact Hij. exact Hk. }
  unfold Webpack.entryNameAt in Hni. rewrite <- Hb.
  case_bool_decide as Hseen.
  - apply elem_of_union in Hseen as [Hseen|Hseen]; [|set_solver].
    apply elem_of_union. left. apply elem_of_list_to_set.
    apply elem_of_list_to_set in Hseen.
    apply list_elem_of_lookup in Hseen as [n Hn].
    apply list_elem_of_lookup. exists n.
    destruct (decide (n < i)) as [Hlt|Hge].
    + rewrite lookup_take_lt in Hn by exact Hlt.
      rewrite lookup_take_lt by lia. exact Hn.
    + rewrite lookup_take_ge in Hn by lia. discriminate.
  - apply elem_of_union. left. apply elem_of_list_to_set. apply Htake. exact Hni.
Qed.

Lemma entryNameAt_cases seen index f :
  let base := Webpack.entryNameOf (Webpack.outputPath f) in
  ((base ∉ seen) ∧ Webpack.entryNameAt seen index f = base)
  ∨ (base ∈ seen ∧ Webpack.entryNameAt seen index f = base +:+ "_" +:+ pretty index).
Proof.
  simpl. unfold Webpack.entryNameAt. case_bool_decide; [right|left]; auto.
Qed.

(** When no output basename ends in an index, every name is new when it
    is given. *)
Lemma entryNamesFrom_fresh fixtures : ∀ index seen,
  (∀ f, f ∈ fixtures → unindexed (Webpack.entryNameOf (Webpack.outputPath f))) →
  (∀ k, k ∈ seen → unindexed k ∨ ∃ i, i < index ∧ indexed k i) →
  NoDup (entryNamesFrom index fixtures seen)
  ∧ ∀ k, k ∈ entryNamesFrom index fixtures seen → k ∉ seen.
Proof.
  induction fixtures as [|f fs IH]; intros index seen Hwf Hinv; simpl.
  - split; [constructor|]. intros k Hk. inversion Hk.
  - set (k := Webpack.entryNameAt seen index f).
    assert (Hbase : unindexed (Webpack.entryNameOf (Webpack.outputPath f)))
      by (apply Hwf; left).
    assert (Hk : (k ∉ seen) ∧ (unindexed k ∨ indexed k index)).
    { destruct (entryNameAt_cases seen index f) as [[Hn Hk]|[Hs Hk]]; fold k in Hk.
      - rewrite Hk. auto.
      - assert (Hidx : indexed k index) by (rewrite Hk; eexists; reflexivity).
        split; [|auto]. intros Hin.
        destruct (Hinv k Hin) as [Hun|(i & Hlt & Hi)].
        + exact (Hun index Hidx).
        + pose proof (indexed_inj k i index Hi Hidx). lia. }
    destruct Hk as [Hk Hform].
    destruct (IH (S index) ({[k]} ∪ seen)) as [Hnd Hfresh].
    + intros g Hg. apply Hwf. right. exact Hg.
    + intros k' Hk'. apply elem_of_union in Hk' as [Hk'|Hin].
      * apply elem_of_singleton in Hk' as ->.
        destruct Hform as [Hun|Hidx]; [left; exact Hun|right; exists index; split; [lia|exact Hidx]].
      * destruct (Hinv k' Hin) as [Hun|(i & Hlt & Hi)]; [left; exact Hun|].
        right. exists i. split; [lia|exact Hi].
    + split.
      * constructor; [|exact Hnd]. intros Hin. apply (Hfresh k Hin).
        apply elem_of_union. left. apply elem_of_singleton. reflexivity.
      * intros k' Hk'. apply elem_of_cons in Hk' as [->|Hin]; [exact Hk|].
        intros Hs. apply (Hfresh k' Hin). apply elem_of_union. right. exact Hs.
Qed.

(** *** The entry name of an output path ending in [.output.js] *)

Lemma take_part_app_lit (l r : list ascii) :
  Forall (λ c, Path.is_slash c = false) l →
  Path.take_part (l ++ r) = l ++ Path.take_part r.
Proof.
  induction 1 as [|c l Hc Hl IH]; simpl; [reflexivity|].
  rewrite Hc, IH. reflexivity.
Qed.

Lemma entryNameOf_output_js pre :
  Webpack.entryNameOf (pre +:+ ".output.js")
  = str (rev (Path.take_part (rev (chars pre)))) +:+ ".output".
Proof.
  unfold Webpack.entryNameOf, Path.basename_ext, Path.extname.
  assert (Hrev : rev (chars (pre +:+ ".output.js"))
                 = chars "sj.tuptuo." ++ rev (chars pre)).
  { rewrite chars_app, rev_app_distr. reflexivity. }
  assert (Hext : Path.extname_l (chars (pre +:+ ".output.js")) = chars ".js").
  { unfold Path.extname_l. rewrite Hrev. simpl. reflexivity. }
  rewrite Hext, chars_str.
  unfold Path.basename_ext_l.
  assert (Hlen : length (chars (pre +:+ ".output.js")) = length (chars pre) + 10).
  { rewrite chars_app, length_app. reflexivity. }
  rewrite Hlen.
  replace (length (chars ".js") <=? length (chars pre) + 10) with true
    by (symmetry; apply Nat.leb_le; simpl; lia).
  simpl negb. cbn [andb].
  rewrite bool_decide_eq_false_2.
  2:{ intros Heq. apply (f_equal (@length ascii)) in Heq. rewrite Hlen in Heq.
      simpl in Heq. lia. }
  rewrite Hrev. simpl.
  apply chars_inj. rewrite chars_app, !chars_str.
  change (chars ".output") with (rev (chars "tuptuo.")).
  rewrite <- rev_app_distr. reflexivity.
Qed.

Lemma output_js_unindexed pre :
  unindexed (Webpack.entryNameOf (pre +:+ ".output.js")).
Proof.
  intros i Hidx. apply indexed_last_digit in Hidx as (c & r & Hrev & [n Hn]).
  rewrite entryNameOf_output_js, chars_app, rev_app_distr in Hrev.
  simpl in Hrev. injection Hrev as <- _. discriminate.
Qed.

(** The key that an assignment skips is none of the names the webpack
    loop gives to output paths ending in [.output.js]. *)
Lemma proto_unindexed : unindexed "__proto__".
Proof.
  intros i Hidx. apply indexed_last_digit in Hidx as (c & r & Hrev & [n Hn]).
  simpl in Hrev. injection Hrev as <- _. discriminate.
Qed.

Lemma entryNameOf_output_js_not_proto pre :
  Webpack.entryNameOf (pre +:+ ".output.js") ≠ "__proto__".
Proof.
  rewrite entryNameOf_output_js. intros Heq.
  apply (f_equal (λ s, rev (chars s))) in Heq.
  rewrite chars_app, rev_app_distr in Heq. simpl in Heq. discriminate.
Qed.

Lemma entryNames_output_js_not_proto fixtures :
  (∀ f, f ∈ fixtures → ∃ pre, Webpack.outputPath f = pre +:+ ".output.js") →
  "__proto__" ∉ entryNames fixtures.
Proof.
  intros Hwf Hin. apply list_elem_of_lookup in Hin as [i Hi].
  assert (Hf : is_Some (fixtures !! i)).
  { apply lookup_lt_is_Some. apply lookup_lt_Some in Hi.
    unfold entryNames in Hi. rewrite length_entryNamesFrom in Hi. exact Hi. }
  destruct Hf as [f Hf].
  unfold entryNames in Hi. rewrite (entryNamesFrom_lookup fixtures 0 ∅ i f Hf) in Hi.
  destruct (Hwf f) as [pre Hpre]; [apply list_elem_of_lookup; eauto|].
  destruct (entryNameAt_cases
              (list_to_set (take i (entryNamesFrom 0 fixtures ∅)) ∪ ∅) (0 + i) f)
    as [[_ Hname]|[_ Hname]]; rewrite Hname in Hi; injection Hi as Hi.
  - rewrite Hpre in Hi. exact (entryNameOf_output_js_not_proto pre Hi).
  - apply (proto_unindexed (0 + i)). rewrite <- Hi. eexists. reflexivity.
Qed.

(** Assignments under keys that are not skipped are insertions. *)
Lemma fold_assign_no_proto {A} (kf vf : A → string) (l : list A) :
  ∀ acc : gmap string string,
  "__proto__" ∉ kf <$> l →
  fold_left (λ m x, assign (kf x) (vf x) m) l acc
  = fold_left (λ m x, <[kf x := vf x]> m) l acc.
Proof.
  induction l as [|a l IH]; intros acc Hp; [reflexivity|].
  rewrite fmap_cons in Hp. apply not_elem_of_cons in Hp as [Ha Hp].
  cbn [fold_left]. rewrite assign_other by congruence. apply IH, Hp.
Qed.

(** Inserting under pairwise distinct keys, none of them bound before. *)
Lemma fold_insert_NoDup {A} (kf vf : A → string) (l : list A) :
  ∀ acc : gmap string string,
  NoDup (kf <$> l) → (∀ x, x ∈ l → acc !! kf x = None) →
  size (fold_left (λ m x, <[kf x := vf x]> m) l acc) = length l + size acc
  ∧ (∀ x, x ∈ l → fold_left (λ m x, <[kf x := vf x]> m) l acc !! kf x = Some (vf x))
  ∧ (∀ k, k ∉ kf <$> l → fold_left (λ m x, <[kf x := vf x]> m) l acc !! k = acc !! k).
Proof.
  induction l as [|a l IH]; intros acc Hnd Hfresh; simpl.
  - split; [reflexivity|]. split; [|reflexivity]. intros x Hx. inversion Hx.
  - rewrite fmap_cons in Hnd. apply NoDup_cons in Hnd as [Ha Hnd].
    destruct (IH (<[kf a := vf a]> acc)) as (Hsize & Hin & Hout).
    + exact Hnd.
    + intros x Hx. rewrite lookup_insert_ne.
      * apply Hfresh. right. exact Hx.
      * intros Heq. apply Ha. rewrite Heq. apply list_elem_of_fmap. eauto.
    + split; [|split].
      * rewrite Hsize, map_size_insert_None by (apply Hfresh; left). lia.
      * intros x Hx. apply elem_of_cons in Hx as [->|Hx]; [|apply Hin; exact Hx].
        rewrite Hout by exact Ha. apply lookup_insert_eq.
      * intros k Hk. apply not_elem_of_cons in Hk as [Hne Hk].
        rewrite Hout by exact Hk. apply lookup_insert_ne. congruence.
Qed.

(** C3, as the code has it. In the webpack multi-entry builder a
    fixture's entry key is its output basename without the extension, or,
    when that name is already among the keys given to the fixtures before
    it, that name followed by [_] and the fixture's zero-based input index.
    When every [outputPath] ends in [.output.js], as the path derivation
    makes it, these keys are pairwise distinct and the entry object has
    exactly one entry per fixture, from its key to its [fixturePath]. In
    the rspack builder the key is the plain name, and the entry object has
    exactly one entry per fixture when the plain names are pairwise
    distinct and none of them is [__proto__], the one key under which an
    assignment to an object literal creates no property. *)
Theorem entry_keys_one_per_fixture
    (wfs : list Webpack.FixtureWithPath) (rfs : list Rspack.FixtureWithPaths) :
  (∀ f, f ∈ wfs → ∃ pre, Webpack.outputPath f = pre +:+ ".output.js") →
  NoDup ((λ f, Rspack.entryNameOf (Rspack.outputPath f)) <$> rfs) →
  "__proto__" ∉ (λ f, Rspack.entryNameOf (Rspack.outputPath f)) <$> rfs →
  (let names := entryNames wfs in
   let entry := Webpack.entries (Webpack.buildEntry wfs) in
   length names = length wfs
   ∧ NoDup names
   ∧ size entry = length wfs
   ∧ ∀ i f, wfs !! i = Some f →
       let base := Webpack.entryNameOf (Webpack.outputPath f) in
       let name := if bool_decide (base ∈ take i names)
                   then base +:+ "_" +:+ pretty i else base in
       names !! i = Some name ∧ entry !! name = Some (Webpack.fixturePath f))
  ∧ (let entry := Rspack.reduceEntry rfs in
     size entry = length rfs
     ∧ ∀ f, f ∈ rfs →
         entry !! Rspack.entryNameOf (Rspack.outputPath f)
         = Some (Rspack.fixturePath f)).
Proof.
  intros Hwf Hnd Hproto. split.
  - destruct (entryNamesFrom_fresh wfs 0 ∅) as [Hnames _].
    { intros f Hf. destruct (Hwf f Hf) as [pre ->]. apply output_js_unindexed. }
    { intros k Hk. set_solver. }
    destruct (forEachFrom_entries_NoDup wfs 0
                {| Webpack.entries := ∅; Webpack.seenKeys := ∅ |})
      as [Hsize Hlook].
    { exact Hnames. }
    { exact (entryNames_output_js_not_proto wfs Hwf). }
    { intros k _. apply lookup_empty. }
    simpl. split; [apply length_entryNamesFrom|]. split; [exact Hnames|]. split.
    + unfold Webpack.buildEntry. rewrite Hsize. simpl.
      rewrite map_size_empty. lia.
    + intros i f Hi.
      assert (Hname : entryNames wfs !! i
                = Some (if bool_decide
                             (Webpack.entryNameOf (Webpack.outputPath f)
                                ∈ take i (entryNames wfs))
                        then Webpack.entryNameOf (Webpack.outputPath f)
                               +:+ "_" +:+ pretty i
                        else Webpack.entryNameOf (Webpack.outputPath f))).
      { unfold entryNames. rewrite (entryNamesFrom_lookup wfs 0 ∅ i f Hi).
        unfold Webpack.entryNameAt. simpl. f_equal.
        erewrite bool_decide_ext; [reflexivity|]. set_solver. }
      split; [exact Hname|].
      destruct (Hlook i f Hi) as (k & Hk & Hentry).
      simpl in Hk. fold (entryNames wfs) in Hk. rewrite Hname in Hk.
      injection Hk as <-. exact Hentry.
  - cbv zeta. unfold Rspack.reduceEntry.
    rewrite (fold_assign_no_proto
               (λ f, Rspack.entryNameOf (Rspack.outputPath f)) Rspack.fixturePath
               rfs ∅ Hproto).
    destruct (fold_insert_NoDup
                (λ f, Rspack.entryNameOf (Rspack.outputPath f)) Rspack.fixturePath
                rfs ∅ Hnd) as (Hsize & Hin & _).
    { intros x _. apply lookup_empty. }
    split; [|exact Hin]. rewrite Hsize, map_size_empty. lia.
Qed.

Lemma entry_keys_one_per_fixture_witness :
  entryNames collidingFixtures = ["widget.output"; "widget.output_1"]
  ∧ Webpack.entries (Webpack.buildEntry collidingFixtures) !! "widget.output_1"
    = Some "/y/widget.fixture.js".
Proof.
  destruct (entry_keys_one_per_fixture collidingFixtures
              (Rspack.withPaths <$> threeFixtures)) as [(_ & _ & _ & H) _].
  - intros f Hf. apply list_elem_of_In in Hf. simpl in Hf.
    destruct Hf as [<-|[<-|[]]]; [exists "/x/widget"|exists "/y/widget"]; reflexivity.
  - refine (@bool_decide_unpack _ (NoDup_dec _) _). vm_compute. exact I.
  - intros Hin. apply list_elem_of_In in Hin. vm_compute in Hin.
    destruct Hin as [Hin|[Hin|[Hin|[]]]]; discriminate Hin.
  - split; [vm_compute; reflexivity|].
    apply (H 1 (Webpack.mkFixture "/y/widget.fixture.js" "/y/widget.output.js")).
    reflexivity.
Defined.

(** On output paths that no path derivation yields the appended index can
    itself repeat a key: in [secondCollision] the first and the third
    fixture both get [widget_2], and the entry object has two entries for
    three fixtures. *)
Lemma entry_keys_second_collision :
  entryNames secondCollision = ["widget_2"; "widget"; "widget_2"]
  ∧ ¬ NoDup (entryNames secondCollision)
  ∧ length secondCollision = 3
  ∧ size (Webpack.entries (Webpack.buildEntry secondCollision)) = 2
  ∧ Webpack.entries (Webpack.buildEntry secondCollision) !! "widget_2"
    = Some "/src/b/widget.js".
Proof.
  assert (H : entryNames secondCollision = ["widget_2"; "widget"; "widget_2"])
    by (vm_compute; reflexivity).
  split; [exact H|]. split.
  - rewrite H. intros Hnd. apply NoDup_cons in Hnd as [Hnotin _].
    apply Hnotin. right. left.
  - split; [reflexivity|]. split; vm_compute; reflexivity.
Qed.

(** The specification's pairwise distinct keys, one entry per fixture, fail
    in the rspack builder, which has no set of seen keys: two fixtures
    with the same basename in different directories, with the paths the
    adapter derives for them, get the same key, and the entry object has
    one entry for the two fixtures, the later fixture's. *)
Lemma rspack_entry_collision :
  length rspackColliding = 2
  ∧ (λ f, Rspack.entryNameOf (Rspack.outputPath f)) <$> rspackColliding
    = ["widget.output"; "widget.output"]
  ∧ size (Rspack.reduceEntry rspackColliding) = 1
  ∧ map_to_list (Rspack.reduceEntry rspackColliding)
    = [("widget.output", "/y/widget.fixture.js")].
Proof. repeat split; vm_compute; reflexivity. Qed.

(** ** The tie-break *)

Lemma not_ends_in_digit_unindexed b : ends_in_digit b = false → unindexed b.
Proof.
  intros Hb i Hidx. apply indexed_last_digit in Hidx as (c & r & Hrev & Hc).
  unfold ends_in_digit in Hb. rewrite Hrev in Hb.
  apply bool_decide_eq_false in Hb. contradiction.
Qed.

(** The names given before position [i] are plain names of earlier
    fixtures or carry an index. *)
Lemma entryNames_before fixtures i k :
  k ∈ take i (entryNames fixtures) →
  ∃ n f, n < i ∧ fixtures !! n = Some f
    ∧ (k = Webpack.entryNameOf (Webpack.outputPath f) ∨ indexed k n).
Proof.
  intros Hk. apply list_elem_of_lookup in Hk as [n Hn].
  assert (Hlt : n < i).
  { destruct (decide (n < i)) as [Hlt|Hge]; [exact Hlt|].
    rewrite lookup_take_ge in Hn by lia. discriminate. }
  rewrite lookup_take_lt in Hn by exact Hlt.
  assert (Hf : is_Some (fixtures !! n)).
  { apply lookup_lt_is_Some. apply lookup_lt_Some in Hn.
    unfold entryNames in Hn. rewrite length_entryNamesFrom in Hn. exact Hn. }
  destruct Hf as [f Hf]. exists n, f. split; [exact Hlt|]. split; [exact Hf|].
  unfold entryNames in Hn. rewrite (entryNamesFrom_lookup _ _ _ _ _ Hf) in Hn.
  injection Hn as <-. simpl.
  destruct (entryNameAt_cases
              (list_to_set (take n (entryNamesFrom 0 fixtures ∅)) ∪ ∅) n f)
    as [[_ ->]|[_ ->]]; [left; reflexivity|right; eexists; reflexivity].
Qed.

Lemma entryNames_first_and_second fixtures i j fi fj b :
  i < j → fixtures !! i = Some fi → fixtures !! j = Some fj →
  Webpack.entryNameOf (Webpack.outputPath fi) = b →
  Webpack.entryNameOf (Webpack.outputPath fj) = b →
  unindexed b →
  (∀ k fk, k < i → fixtures !! k = Some fk →
     Webpack.entryNameOf (Webpack.outputPath fk) ≠ b) →
  entryNames fixtures !! i = Some b
  ∧ entryNames fixtures !! j = Some (b +:+ "_" +:+ pretty j).
Proof.
  intros Hij Hi Hj Hbi Hbj Hun Hfirst. split.
  - unfold entryNames. rewrite (entryNamesFrom_lookup _ _ _ _ _ Hi). f_equal.
    unfold Webpack.entryNameAt. rewrite Hbi.
    rewrite bool_decide_eq_false_2; [reflexivity|].
    intros Hin. apply elem_of_union in Hin as [Hin|Hin]; [|set_solver].
    apply elem_of_list_to_set in Hin.
    apply (entryNames_before fixtures i b) in Hin as (n & f & Hn & Hf & [Heq|Hidx]).
    + apply (Hfirst n f Hn Hf). symmetry. exact Heq.
    + exact (Hun n Hidx).
  - unfold entryNames.
    rewrite (entryNamesFrom_second fixtures 0 ∅ i j fi fj Hij Hi Hj)
      by congruence.
    rewrite Hbj. reflexivity.
Qed.

(** C4, as the code has it. Of two fixtures with the same output basename
    [b] (one that does not itself end in a digit), the first one in the
    list gets the plain key [b] and the later one, at zero-based input
    position [j], gets [b_j]: the appended number is the fixture's own
    position, so it is [b_1] exactly when the fixture is second in the
    list. Fixtures that follow do not change these keys; a fixture put
    before them changes [j] and with it the key. *)
Theorem tie_break_appends_input_index
    (fixtures extra : list Webpack.FixtureWithPath) (i j : nat)
    (fi fj : Webpack.FixtureWithPath) (b : string) :
  i < j → fixtures !! i = Some fi → fixtures !! j = Some fj →
  Webpack.entryNameOf (Webpack.outputPath fi) = b →
  Webpack.entryNameOf (Webpack.outputPath fj) = b →
  ends_in_digit b = false →
  (∀ k fk, k < i → fixtures !! k = Some fk →
     Webpack.entryNameOf (Webpack.outputPath fk) ≠ b) →
  entryNames fixtures !! i = Some b
  ∧ entryNames fixtures !! j = Some (b +:+ "_" +:+ pretty j)
  ∧ entryNames (fixtures ++ extra) !! i = Some b
  ∧ entryNames (fixtures ++ extra) !! j = Some (b +:+ "_" +:+ pretty j).
Proof.
  intros Hij Hi Hj Hbi Hbj Hb Hfirst.
  apply not_ends_in_digit_unindexed in Hb.
  destruct (entryNames_first_and_second fixtures i j fi fj b) as [H1 H2]; auto.
  destruct (entryNames_first_and_second (fixtures ++ extra) i j fi fj b)
    as [H3 H4]; auto.
  - apply lookup_app_l_Some. exact Hi.
  - apply lookup_app_l_Some. exact Hj.
  - intros k fk Hk Hfk. apply (Hfirst k fk Hk).
    rewrite lookup_app_l in Hfk; [exact Hfk|].
    apply lookup_lt_Some in Hi. lia.
Qed.

Lemma tie_break_appends_input_index_witness :
  entryNames [otherFixture; widgetX; widgetY] !! 1 = Some "widget"
  ∧ entryNames [otherFixture; widgetX; widgetY] !! 2 = Some "widget_2".
Proof.
  destruct (tie_break_appends_input_index [otherFixture; widgetX; widgetY] []
              1 2 widgetX widgetY "widget") as (H1 & H2 & _).
  - lia.
  - reflexivity.
  - reflexivity.
  - reflexivity.
  - reflexivity.
  - reflexivity.
  - intros k fk Hk Hfk. assert (k = 0) as -> by lia.
    injection Hfk as <-. vm_compute. discriminate.
  - split; [exact H1|]. rewrite H2. reflexivity.
Defined.

(** That the second-seen fixture gets [widget_1] whatever the
    positions of unrelated fixtures fails: alone the two widgets get
    [widget] and [widget_1], after one unrelated fixture they get [widget]
    and [widget_2]. *)
Lemma tie_break_depends_on_position :
  entryNames [widgetX; widgetY] = ["widget"; "widget_1"]
  ∧ entryNames [otherFixture; widgetX; widgetY] = ["other"; "widget"; "widget_2"]
  ∧ entryNames [otherFixture; widgetX; widgetY] !! 2 ≠ Some "widget_1".
Proof.
  split; [vm_compute; reflexivity|].
  assert (H : entryNames [otherFixture; widgetX; widgetY]
              = ["other"; "widget"; "widget_2"]) by (vm_compute; reflexivity).
  split; [exact H|]. rewrite H. simpl. discriminate.
Qed.

(** ** Path derivation *)

Lemma replace_fixture_suffix pre repl :
  replace_at_end re_fixture repl (pre +:+ ".fixture.js") = pre +:+ repl
  ∧ replace_at_end re_fixture_escaped repl (pre +:+ ".fixture.js") = pre +:+ repl.
Proof.
  unfold replace_at_end.
  rewrite chars_app, rev_app_distr. simpl.
  rewrite rev_involutive, str_app, str_chars. split; apply chars_inj;
    rewrite !chars_app, chars_str; reflexivity.
Qed.

Lemma drop_slashes_app_lit (l r : list ascii) c :
  Path.is_slash c = false → Path.drop_slashes ((c :: l) ++ r) = (c :: l) ++ r.
Proof. intros Hc. simpl. rewrite Hc. reflexivity. Qed.

Lemma drop_part_app_lit (l r : list ascii) :
  slash_free l → Path.drop_part (l ++ r) = Path.drop_part r.
Proof.
  induction 1 as [|c l Hc Hl IH]; simpl; [reflexivity|].
  rewrite Hc. exact IH.
Qed.

Lemma slash_free_rev l : slash_free l → slash_free (rev l).
Proof.
  unfold slash_free. rewrite !Forall_forall. intros H c Hc.
  apply H. apply list_elem_of_In. apply list_elem_of_In in Hc.
  apply in_rev. exact Hc.
Qed.

Lemma dirname_l_app (l name : list ascii) :
  slash_free name → name ≠ [] → Path.dirname_l (l ++ name) = dir_of l.
Proof.
  intros Hfree Hne. destruct l as [|c0 l']; simpl.
  - destruct name as [|c name']; [done|].
    apply Forall_cons in Hfree as [Hc Hfree]. simpl.
    assert (Hdrop : Path.drop_part (Path.drop_slashes (rev name')) = []).
    { destruct (rev name') as [|d r] eqn:Hr; [reflexivity|].
      assert (Hfr : slash_free (d :: r)) by (rewrite <- Hr; apply slash_free_rev, Hfree).
      pose proof Hfr as Hfr'. apply Forall_cons in Hfr' as [Hd _].
      simpl. rewrite Hd.
      rewrite <- (app_nil_r r). change (Path.drop_part ((d :: r) ++ []) = []).
      rewrite drop_part_app_lit by exact Hfr. reflexivity. }
    rewrite Hdrop, Hc. reflexivity.
  - rewrite rev_app_distr.
    destruct (rev name) as [|d r] eqn:Hr.
    { exfalso. apply Hne. apply (f_equal (@rev ascii)) in Hr.
      rewrite rev_involutive in Hr. exact Hr. }
    assert (Hfr : slash_free (d :: r)) by (rewrite <- Hr; apply slash_free_rev, Hfree).
    pose proof Hfr as Hfr'. apply Forall_cons in Hfr' as [Hd _].
    rewrite drop_slashes_app_lit by exact Hd.
    rewrite drop_part_app_lit by exact Hfr. reflexivity.
Qed.

Lemma basename_l_app (l name : list ascii) :
  slash_free name → name ≠ [] →
  Path.basename_l (l ++ name) = rev (Path.take_part (rev l)) ++ name.
Proof.
  intros Hfree Hne. unfold Path.basename_l, Path.last_part.
  rewrite rev_app_distr.
  destruct (rev name) as [|d r] eqn:Hr.
  { exfalso. apply Hne. apply (f_equal (@rev ascii)) in Hr.
    rewrite rev_involutive in Hr. exact Hr. }
  assert (Hfr : slash_free (d :: r)) by (rewrite <- Hr; apply slash_free_rev, Hfree).
  pose proof Hfr as Hfr'. apply Forall_cons in Hfr' as [Hd _].
  rewrite drop_slashes_app_lit by exact Hd.
  rewrite take_part_app_lit by exact Hfr.
  rewrite rev_app_distr, <- Hr, rev_involutive. reflexivity.
Qed.

Lemma slash_free_fixture_js : slash_free (chars ".fixture.js").
Proof. repeat constructor. Qed.
Lemma slash_free_output_js : slash_free (chars ".output.js").
Proof. repeat constructor. Qed.

(** For a fixture path [pre.fixture.js]: what the esbuild adapter and the
    rspack adapter derive, in terms of [path.dirname] and [path.join]. *)
Lemma suffix_replacement_paths (pre : string) :
  let fixturePath := pre +:+ ".fixture.js" in
  Esbuild.deriveOutputPath fixturePath = pre +:+ ".output.js"
  ∧ Path.dirname (Esbuild.deriveOutputPath fixturePath) = Path.dirname fixturePath
  ∧ ∃ stem,
      Path.basename fixturePath = stem +:+ ".fixture.js"
      ∧ Path.basename (Esbuild.deriveOutputPath fixturePath) = stem +:+ ".output.js"
      ∧ Rspack.deriveOutputPath fixturePath
        = Path.join [Path.join [Path.dirname fixturePath; "dist"]; stem +:+ ".output.js"]
      ∧ Rspack.deriveDebugOutputPath fixturePath
        = Path.join [Path.join [Path.dirname fixturePath; "dist"]; stem +:+ ".debug.js"].
Proof.
  simpl.
  assert (Hout : Esbuild.deriveOutputPath (pre +:+ ".fixture.js") = pre +:+ ".output.js")
    by apply replace_fixture_suffix.
  assert (Hbase : ∀ suffix, slash_free (chars suffix) → chars suffix ≠ [] →
            Path.basename (pre +:+ suffix)
            = str (rev (Path.take_part (rev (chars pre)))) +:+ suffix).
  { intros suffix Hfree Hne. unfold Path.basename.
    rewrite chars_app, basename_l_app by assumption.
    rewrite str_app, str_chars. reflexivity. }
  split; [exact Hout|]. split.
  - rewrite Hout. unfold Path.dirname. rewrite !chars_app.
    rewrite !dirname_l_app;
      [reflexivity|apply slash_free_fixture_js|discriminate
      |apply slash_free_output_js|discriminate].
  - exists (str (rev (Path.take_part (rev (chars pre))))).
    assert (Hfix := Hbase ".fixture.js" slash_free_fixture_js ltac:(discriminate)).
    split; [exact Hfix|]. split.
    + rewrite Hout. apply Hbase; [apply slash_free_output_js|discriminate].
    + unfold Rspack.deriveOutputPath, Rspack.deriveDebugOutputPath, Rspack.artifactsDir.
      rewrite Hfix.
      destruct (replace_fixture_suffix
                  (str (rev (Path.take_part (rev (chars pre))))) ".output.js")
        as [_ ->].
      destruct (replace_fixture_suffix
                  (str (rev (Path.take_part (rev (chars pre))))) ".debug.js")
        as [-> _].
      split; reflexivity.
Qed.

(** That every backend keeps the output in the fixture's
    directory fails for rspack: the output of [/p/a.fixture.js] is
    [/p/dist/a.output.js], in another directory than [/p/a.output.js]. *)
Lemma rspack_output_not_in_fixture_directory :
  Rspack.deriveOutputPath "/p/a.fixture.js" = "/p/dist/a.output.js"
  ∧ Rspack.deriveOutputPath "/p/a.fixture.js" ≠ "/p/a.output.js"
  ∧ Path.dirname (Rspack.deriveOutputPath "/p/a.fixture.js") = "/p/dist"
  ∧ Path.dirname "/p/a.fixture.js" = "/p"
  ∧ Rspack.deriveDebugOutputPath "/p/a.fixture.js" = "/p/dist/a.debug.js".
Proof.
  repeat split; try (vm_compute; reflexivity).
  vm_compute. discriminate.
Qed.

(** *** Absolute, normalized paths *)

Lemma split_slash_slash_free seg :
  slash_free seg → Path.split_slash seg = [seg].
Proof.
  induction 1 as [|c seg Hc Hseg IH]; simpl; [reflexivity|].
  rewrite Hc, IH. reflexivity.
Qed.

Lemma split_slash_app seg rest :
  slash_free seg →
  Path.split_slash (seg ++ "/"%char :: rest) = seg :: Path.split_slash rest.
Proof.
  induction 1 as [|c seg Hc Hseg IH]; simpl; [reflexivity|].
  rewrite Hc, IH. reflexivity.
Qed.

Lemma split_slash_join_segments segs :
  segs ≠ [] → Forall slash_free segs →
  Path.split_slash (Path.join_segments segs) = segs.
Proof.
  intros Hne Hall. induction Hall as [|seg segs Hseg Hall IH]; [done|].
  destruct segs as [|seg' segs'].
  - simpl. apply split_slash_slash_free. exact Hseg.
  - change (Path.join_segments (seg :: seg' :: segs'))
      with (seg ++ "/"%char :: Path.join_segments (seg' :: segs')).
    rewrite split_slash_app by exact Hseg. rewrite IH by discriminate. reflexivity.
Qed.

Lemma push_segment_clean b stack seg :
  clean seg → Path.push_segment b stack seg = seg :: stack.
Proof.
  intros (Hne & _ & Hdot & Hdots). unfold Path.push_segment.
  rewrite !bool_decide_eq_false_2 by assumption. reflexivity.
Qed.

Lemma fold_push_clean b segs : ∀ stack,
  Forall clean segs →
  fold_left (Path.push_segment b) segs stack = rev segs ++ stack.
Proof.
  induction segs as [|seg segs IH]; intros stack Hall; simpl; [reflexivity|].
  apply Forall_cons in Hall as [Hseg Hall].
  rewrite push_segment_clean by exact Hseg. rewrite IH by exact Hall.
  rewrite <- app_assoc. reflexivity.
Qed.

Lemma clean_slash_free segs : Forall clean segs → Forall slash_free segs.
Proof.
  intros H. eapply Forall_impl; [exact H|]. intros seg (_ & Hs & _). exact Hs.
Qed.

Lemma join_segments_snoc segs seg :
  segs ≠ [] →
  Path.join_segments (segs ++ [seg]) = Path.join_segments segs ++ "/"%char :: seg.
Proof.
  induction segs as [|s segs IH]; [done|]. intros _.
  destruct segs as [|s' segs'].
  - reflexivity.
  - change (Path.join_segments ((s :: s' :: segs') ++ [seg]))
      with (s ++ "/"%char :: Path.join_segments ((s' :: segs') ++ [seg])).
    rewrite IH by discriminate.
    change (Path.join_segments (s :: s' :: segs'))
      with (s ++ "/"%char :: Path.join_segments (s' :: segs')).
    rewrite <- app_assoc. reflexivity.
Qed.

(** The last character of a joined path is the last one of its last portion. *)
Lemma join_segments_last segs :
  segs ≠ [] → Forall clean segs →
  ∃ c r, rev (Path.join_segments segs) = c :: r ∧ Path.is_slash c = false.
Proof.
  intros Hne Hall.
  destruct (rev segs) as [|seg before] eqn:Hrev.
  { exfalso. apply Hne. apply (f_equal (@rev _)) in Hrev.
    rewrite rev_involutive in Hrev. exact Hrev. }
  assert (Hsegs : segs = rev before ++ [seg]).
  { rewrite <- (rev_involutive segs), Hrev. reflexivity. }
  assert (Hseg : clean seg).
  { rewrite Forall_forall in Hall. apply Hall. rewrite Hsegs.
    apply elem_of_app. right. left. }
  destruct Hseg as (Hne' & Hfree & _).
  assert (Hlast : ∃ c r, rev seg = c :: r ∧ Path.is_slash c = false).
  { destruct (rev seg) as [|c r] eqn:Hr.
    - exfalso. apply Hne'. apply (f_equal (@rev _)) in Hr.
      rewrite rev_involutive in Hr. exact Hr.
    - exists c, r. split; [reflexivity|].
      apply slash_free_rev in Hfree. rewrite Hr in Hfree.
      apply Forall_cons in Hfree as [Hc _]. exact Hc. }
  destruct Hlast as (c & r & Hr & Hc).
  rewrite Hsegs. destruct (rev before) as [|b bs] eqn:Hb.
  - simpl. exists c, r. auto.
  - rewrite join_segments_snoc by discriminate.
    rewrite rev_app_distr. simpl. rewrite Hr. simpl. eexists c, _. split; [reflexivity|exact Hc].
Qed.

(** [path.normalize] leaves an absolute path of clean portions alone. *)
Lemma normalize_absolute segs :
  segs ≠ [] → Forall clean segs →
  Path.normalize_l (absolute segs) = absolute segs.
Proof.
  intros Hne Hall. unfold Path.normalize_l, absolute.
  cbn [Path.starts_with_slash]. change (Path.is_slash "/") with true. cbn [negb].
  assert (Hq : Path.normalizeString ("/"%char :: Path.join_segments segs) false
               = Path.join_segments segs).
  { unfold Path.normalizeString. cbn [Path.split_slash].
    change (Path.is_slash "/") with true. cbn iota.
    rewrite split_slash_join_segments by (auto using clean_slash_free).
    cbn [fold_left]. change (Path.push_segment false [] []) with (@nil (list ascii)).
    rewrite fold_push_clean by exact Hall.
    rewrite app_nil_r, rev_involutive. reflexivity. }
  rewrite Hq.
  destruct (join_segments_last segs Hne Hall) as (c & r & Hrev & Hc).
  assert (Htrail : Path.starts_with_slash (rev ("/"%char :: Path.join_segments segs)) = false).
  { simpl rev. rewrite Hrev. simpl. exact Hc. }
  rewrite Htrail.
  destruct (Path.join_segments segs) as [|a q] eqn:Hj; [|reflexivity].
  simpl in Hrev. discriminate.
Qed.

Lemma join_l_absolute segs seg :
  segs ≠ [] → Forall clean segs → clean seg →
  Path.join_l [absolute segs; seg] = absolute (segs ++ [seg]).
Proof.
  intros Hne Hall Hseg. unfold Path.join_l.
  rewrite filter_cons_True by discriminate.
  rewrite filter_cons_True by (destruct Hseg as [H _]; exact H).
  rewrite filter_nil. cbn [fold_left].
  assert (Heq : absolute segs ++ "/"%char :: seg = absolute (segs ++ [seg])).
  { unfold absolute. rewrite join_segments_snoc by exact Hne. reflexivity. }
  rewrite Heq. apply normalize_absolute.
  - destruct segs; discriminate.
  - apply Forall_app. split; [exact Hall|]. constructor; [exact Hseg|constructor].
Qed.

Lemma clean_dist : clean (chars "dist").
Proof. repeat split; try discriminate. repeat constructor. Qed.

Lemma clean_with_suffix stem suffix :
  slash_free stem → slash_free suffix → 3 ≤ length suffix → clean (stem ++ suffix).
Proof.
  intros Hstem Hsuffix Hlen.
  assert (Hl : 3 ≤ length (stem ++ suffix)) by (rewrite length_app; lia).
  repeat split.
  - intros Heq. rewrite Heq in Hl. simpl in Hl. lia.
  - apply Forall_app. auto.
  - intros Heq. rewrite Heq in Hl. simpl in Hl. lia.
  - intros Heq. rewrite Heq in Hl. simpl in Hl. lia.
Qed.

Lemma absolute_file segs name :
  segs ≠ [] →
  absolute (segs ++ [name]) = (absolute segs ++ ["/"%char]) ++ name.
Proof.
  intros Hne. unfold absolute. rewrite join_segments_snoc by exact Hne.
  simpl. rewrite <- app_assoc. reflexivity.
Qed.

Lemma dirname_l_absolute segs name :
  segs ≠ [] → Forall clean segs → slash_free name → name ≠ [] →
  Path.dirname_l (absolute (segs ++ [name])) = absolute segs.
Proof.
  intros Hne Hall Hfree Hname.
  rewrite absolute_file by exact Hne.
  rewrite dirname_l_app by assumption.
  unfold absolute. cbn [app dir_of].
  rewrite rev_app_distr. cbn [rev app Path.drop_part].
  change (Path.is_slash "/") with true. cbn iota.
  destruct (join_segments_last segs Hne Hall) as (c & r & Hrev & _).
  rewrite Hrev. cbn [length Nat.eqb andb].
  rewrite <- Hrev, rev_involutive. reflexivity.
Qed.

Lemma basename_l_absolute segs name :
  segs ≠ [] → slash_free name → name ≠ [] →
  Path.basename_l (absolute (segs ++ [name])) = name.
Proof.
  intros Hne Hfree Hname.
  rewrite absolute_file by exact Hne.
  rewrite basename_l_app by assumption.
  rewrite rev_app_distr. reflexivity.
Qed.

(** For a fixture [/seg1/.../segn/stem.fixture.js] the rspack adapter
    derives [/seg1/.../segn/dist/stem.output.js] and
    [/seg1/.../segn/dist/stem.debug.js]. *)
Lemma rspack_paths_absolute (segs : list (list ascii)) (stem : list ascii) :
  segs ≠ [] → Forall clean segs → slash_free stem →
  let fixturePath := str (absolute (segs ++ [stem ++ chars ".fixture.js"])) in
  Path.dirname fixturePath = str (absolute segs)
  ∧ Rspack.deriveOutputPath fixturePath
    = str (absolute (segs ++ [chars "dist"; stem ++ chars ".output.js"]))
  ∧ Rspack.deriveDebugOutputPath fixturePath
    = str (absolute (segs ++ [chars "dist"; stem ++ chars ".debug.js"])).
Proof.
  intros Hne Hall Hstem. cbv zeta.
  assert (Hname : slash_free (stem ++ chars ".fixture.js"))
    by (apply Forall_app; split; [exact Hstem|apply slash_free_fixture_js]).
  assert (Hnamene : stem ++ chars ".fixture.js" ≠ []) by (destruct stem; discriminate).
  assert (Hdir : Path.dirname (str (absolute (segs ++ [stem ++ chars ".fixture.js"])))
                 = str (absolute segs)).
  { unfold Path.dirname. rewrite chars_str, dirname_l_absolute by assumption.
    reflexivity. }
  assert (Hbase : Path.basename (str (absolute (segs ++ [stem ++ chars ".fixture.js"])))
                  = str stem +:+ ".fixture.js").
  { unfold Path.basename. rewrite chars_str, basename_l_absolute by assumption.
    rewrite str_app. reflexivity. }
  assert (Hart : Rspack.artifactsDir (str (absolute (segs ++ [stem ++ chars ".fixture.js"])))
                 = str (absolute (segs ++ [chars "dist"]))).
  { unfold Rspack.artifactsDir. rewrite Hdir. unfold Path.join.
    cbn [fmap list_fmap]. rewrite chars_str.
    rewrite join_l_absolute by (auto using clean_dist). reflexivity. }
  assert (Hjoin : ∀ suffix, slash_free (chars suffix) → 3 ≤ length (chars suffix) →
            Path.join [str (absolute (segs ++ [chars "dist"])); str stem +:+ suffix]
            = str (absolute (segs ++ [chars "dist"; stem ++ chars suffix]))).
  { intros suffix Hs Hl. unfold Path.join. cbn [fmap list_fmap].
    rewrite chars_str, chars_app, chars_str.
    rewrite join_l_absolute.
    - rewrite <- app_assoc. reflexivity.
    - destruct segs; discriminate.
    - apply Forall_app. split; [exact Hall|]. constructor; [apply clean_dist|constructor].
    - apply clean_with_suffix; assumption. }
  split; [exact Hdir|].
  unfold Rspack.deriveOutputPath, Rspack.deriveDebugOutputPath.
  rewrite Hart, Hbase.
  destruct (replace_fixture_suffix (str stem) ".output.js") as [_ ->].
  destruct (replace_fixture_suffix (str stem) ".debug.js") as [-> _].
  split; apply Hjoin; try (repeat constructor); simpl; lia.
Qed.

(** C2, as the code has it. For a fixture path [pre.fixture.js]: the
    esbuild adapter derives [pre.output.js], in the same directory and
    with the same basename up to the suffix, and derives no debug path;
    the rspack adapter puts its outputs into the [dist] directory below
    the fixture's directory, [join(join(dirname, "dist"), stem.output.js)]
    and, for debug, [join(join(dirname, "dist"), stem.debug.js)], where
    [stem.fixture.js] is the fixture's basename. So for an absolute,
    normalized fixture path [/d1/.../dn/stem.fixture.js] rspack derives
    [/d1/.../dn/dist/stem.output.js] and [/d1/.../dn/dist/stem.debug.js].
    All of these are functions of the path string alone. *)
Theorem output_paths_from_fixture_suffix
    (pre : string) (dir : list string) (stem : string) :
  dir ≠ [] → Forall (λ d, clean (chars d)) dir → slash_free (chars stem) →
  (let fixturePath := pre +:+ ".fixture.js" in
   Esbuild.deriveOutputPath fixturePath = pre +:+ ".output.js"
   ∧ Path.dirname (Esbuild.deriveOutputPath fixturePath) = Path.dirname fixturePath
   ∧ ∃ stem',
       Path.basename fixturePath = stem' +:+ ".fixture.js"
       ∧ Path.basename (Esbuild.deriveOutputPath fixturePath) = stem' +:+ ".output.js"
       ∧ Rspack.deriveOutputPath fixturePath
         = Path.join [Path.join [Path.dirname fixturePath; "dist"];
                      stem' +:+ ".output.js"]
       ∧ Rspack.deriveDebugOutputPath fixturePath
         = Path.join [Path.join [Path.dirname fixturePath; "dist"];
                      stem' +:+ ".debug.js"])
  ∧ (let fixturePath := absPath (dir ++ [stem +:+ ".fixture.js"]) in
     Esbuild.deriveOutputPath fixturePath = absPath (dir ++ [stem +:+ ".output.js"])
     ∧ Rspack.deriveOutputPath fixturePath
       = absPath (dir ++ ["dist"; stem +:+ ".output.js"])
     ∧ Rspack.deriveDebugOutputPath fixturePath
       = absPath (dir ++ ["dist"; stem +:+ ".debug.js"])).
Proof.
  intros Hne Hdir Hstem. split; [apply suffix_replacement_paths|].
  assert (Hsegs : chars <$> dir ≠ []) by (destruct dir; [done|discriminate]).
  assert (Hclean : Forall clean (chars <$> dir)).
  { apply Forall_fmap. exact Hdir. }
  destruct (rspack_paths_absolute (chars <$> dir) (chars stem) Hsegs Hclean Hstem)
    as (_ & Hout & Hdbg).
  assert (Hfile : ∀ suffix,
            absPath (dir ++ [stem +:+ suffix])
            = str (absolute ((chars <$> dir) ++ [chars stem ++ chars suffix]))).
  { intros suffix. unfold absPath. rewrite fmap_app. cbn [fmap list_fmap].
    rewrite chars_app. reflexivity. }
  assert (Hdist : ∀ suffix,
            absPath (dir ++ ["dist"; stem +:+ suffix])
            = str (absolute ((chars <$> dir) ++ [chars "dist"; chars stem ++ chars suffix]))).
  { intros suffix. unfold absPath. rewrite fmap_app. cbn [fmap list_fmap].
    rewrite chars_app. reflexivity. }
  cbv zeta. rewrite Hfile, !Hdist. split; [|split; [exact Hout|exact Hdbg]].
  rewrite <- Hfile.
  assert (Hpre : absPath (dir ++ [stem +:+ ".fixture.js"])
                 = absPath (dir ++ [stem]) +:+ ".fixture.js").
  { apply chars_inj. rewrite chars_app. unfold absPath. rewrite !chars_str.
    rewrite !fmap_app. cbn [fmap list_fmap]. rewrite chars_app.
    unfold absolute. rewrite !join_segments_snoc by exact Hsegs.
    simpl. rewrite <- !app_assoc. reflexivity. }
  rewrite Hpre. unfold Esbuild.deriveOutputPath.
  destruct (replace_fixture_suffix (absPath (dir ++ [stem])) ".output.js") as [-> _].
  apply chars_inj. rewrite chars_app. unfold absPath. rewrite !chars_str.
  rewrite !fmap_app. cbn [fmap list_fmap]. rewrite chars_app.
  unfold absolute. rewrite !join_segments_snoc by exact Hsegs.
  simpl. rewrite <- !app_assoc. reflexivity.
Qed.

Lemma output_paths_from_fixture_suffix_witness :
  Esbuild.deriveOutputPath "/m/pkg/a.fixture.js" = "/m/pkg/a.output.js"
  ∧ Rspack.deriveOutputPath "/m/pkg/a.fixture.js" = "/m/pkg/dist/a.output.js"
  ∧ Rspack.deriveDebugOutputPath "/m/pkg/a.fixture.js" = "/m/pkg/dist/a.debug.js".
Proof.
  destruct (output_paths_from_fixture_suffix "/m/pkg/a" ["m"; "pkg"] "a") as [_ H].
  - discriminate.
  - repeat constructor; discriminate.
  - repeat constructor.
  - exact H.
Defined.

(** ** The batch configuration, entry by entry

    What the runner itself contributes to the agreement of batch and
    single builds: for fixtures with pairwise distinct names in one output
    directory, the multi-entry configuration binds each fixture's name to
    its path, and the template [[name].js] applied to that name is the
    file name of the fixture's single-build configuration; directory and
    all other settings are those of the single build. The bytes the
    compiler then writes are outside this development. *)

Lemma entry_name_js_is_output_basename pre :
  Webpack.entryNameOf (pre +:+ ".output.js") +:+ ".js"
  = Path.basename (pre +:+ ".output.js").
Proof.
  rewrite entryNameOf_output_js. unfold Path.basename.
  rewrite chars_app, basename_l_app by (apply slash_free_output_js || discriminate).
  rewrite str_app, str_chars. apply chars_inj.
  rewrite !chars_app. rewrite <- app_assoc. reflexivity.
Qed.

(** X1. For fixtures whose output paths end in [.output.js], with
    pairwise distinct entry names and one output directory, every entry of
    the webpack multi-entry configuration is that fixture's single build:
    the entry object binds the fixture's name to its path, the file name
    pattern [[name].js] applied to that name is the file name of the
    single-build configuration, and output directory, [pathinfo],
    optimization, stats and all other settings are those of the single
    build with the same debug flag. *)
Lemma batch_entry_is_single_build
    (fixtures : list Webpack.FixtureWithPath) (debug : bool)
    (f : Webpack.FixtureWithPath) :
  f ∈ fixtures →
  (∀ g, g ∈ fixtures → ∃ pre, Webpack.outputPath g = pre +:+ ".output.js") →
  NoDup (plainNames fixtures) →
  (∀ g, g ∈ fixtures →
     Path.dirname (Webpack.outputPath g) = Path.dirname (Webpack.outputPath f)) →
  let single := Webpack.createWebpackConfig (Webpack.fixturePath f)
                  (Webpack.outputPath f) debug in
  ∃ cfg m o o1,
    Webpack.createMultiEntryWebpackConfig fixtures debug = Normal cfg
    ∧ Webpack.entry cfg = Some (Webpack.EntryObject m)
    ∧ Webpack.output cfg = Some o
    ∧ Webpack.output single = Some o1
    ∧ m !! Webpack.entryNameOf (Webpack.outputPath f) = Some (Webpack.fixturePath f)
    ∧ Webpack.filename o = "[name].js"
    ∧ Webpack.entryNameOf (Webpack.outputPath f) +:+ ".js" = Webpack.filename o1
    ∧ Webpack.path o = Webpack.path o1
    ∧ Webpack.pathinfo o = Webpack.pathinfo o1
    ∧ Webpack.optimization cfg = Webpack.optimization single
    ∧ Webpack.stats cfg = Webpack.stats single
    ∧ Webpack.externals cfg = Webpack.externals single
    ∧ (Webpack.name cfg, Webpack.target cfg, Webpack.mode cfg, Webpack.cache_type cfg,
       Webpack.performance_hints cfg)
      = (Webpack.name single, Webpack.target single, Webpack.mode single,
         Webpack.cache_type single, Webpack.performance_hints single).
Proof.
  intros Hf Hwf Hnd Hdir single.
  destruct fixtures as [|f0 fs]; [inversion Hf|].
  rewrite createMultiEntryWebpackConfig_cons.
  eexists. eexists. eexists. eexists.
  split; [reflexivity|]. split; [reflexivity|]. split; [reflexivity|].
  split; [reflexivity|]. split.
  - unfold Webpack.buildEntry.
    rewrite forEachFrom_no_collision; [| exact Hnd | intros k _; set_solver].
    cbn [Webpack.entries].
    rewrite (fold_assign_no_proto
               (λ g, Webpack.entryNameOf (Webpack.outputPath g)) Webpack.fixturePath).
    2:{ intros Hp. apply list_elem_of_fmap in Hp as (g & Hg & Hgin).
        destruct (Hwf g Hgin) as [pre Hpre]. rewrite Hpre in Hg. symmetry in Hg.
        exact (entryNameOf_output_js_not_proto pre Hg). }
    destruct (fold_insert_NoDup
                (λ g, Webpack.entryNameOf (Webpack.outputPath g)) Webpack.fixturePath
                (f0 :: fs) ∅ Hnd) as (_ & Hin & _).
    { intros x _. apply lookup_empty. }
    apply (Hin f Hf).
  - split; [reflexivity|]. split.
    + destruct (Hwf f Hf) as [pre ->]. apply entry_name_js_is_output_basename.
    + split; [apply (Hdir f0); left|]. repeat split.
Qed.

(** ** Old and new multi-entry configuration *)

(** C10. The two revisions of [createMultiEntryWebpackConfig], with and
    without the set of seen keys, return the same configuration (entry
    object, output settings and all other fields; the same [TypeError] on
    the empty list) for every list of fixtures whose derived output
    basenames are pairwise distinct: be it the basenames without the
    extension, which are the entry names, or the full basenames of output
    paths that end in [.output.js], as the path derivation makes them. *)
Theorem multi_entry_config_revisions_agree
    (fixtures : list Webpack.FixtureWithPath) (debug : bool) :
  NoDup (plainNames fixtures)
  ∨ ((∀ f, f ∈ fixtures → ∃ pre, Webpack.outputPath f = pre +:+ ".output.js")
     ∧ NoDup ((λ f, Path.basename (Webpack.outputPath f)) <$> fixtures)) →
  Webpack.createMultiEntryWebpackConfig fixtures debug
  = WebpackPrev.createMultiEntryWebpackConfig fixtures debug.
Proof.
  intros Hdistinct.
  assert (Hnd : NoDup (plainNames fixtures)).
  { destruct Hdistinct as [Hnd|[Hwf Hnd]]; [exact Hnd|].
    apply (NoDup_fmap_1 (λ k, k +:+ ".js")).
    unfold plainNames. rewrite <- list_fmap_compose.
    erewrite list_fmap_ext; [exact Hnd|].
    intros i f Hf. simpl.
    destruct (Hwf f) as [pre ->]; [apply list_elem_of_lookup; eauto|].
    apply entry_name_js_is_output_basename. }
  unfold Webpack.createMultiEntryWebpackConfig,
    WebpackPrev.createMultiEntryWebpackConfig.
  destruct (Webpack.firstOutputPath fixtures) as [first|r]; [|reflexivity].
  unfold Webpack.buildEntry, WebpackPrev.buildEntry.
  rewrite forEachFrom_no_collision; [| exact Hnd | intros k _; set_solver].
  destruct debug; reflexivity.
Qed.

Lemma multi_entry_config_revisions_agree_witness :
  Webpack.createMultiEntryWebpackConfig twoFixtures true
  = WebpackPrev.createMultiEntryWebpackConfig twoFixtures true.
Proof.
  apply multi_entry_config_revisions_agree. left.
  refine (@bool_decide_unpack _ (NoDup_dec _) _).
  vm_compute. exact I.
Defined.

(** * Further properties of the adapters *)

(** ** [path.join] with a file name *)

Lemma normalize_l_nonempty p : Path.normalize_l p ≠ [].
Proof.
  unfold Path.normalize_l. destruct p as [|c p]; [discriminate|].
  destruct (Path.normalizeString (c :: p) _) as [|d q];
    repeat (case_match; try discriminate).
  all: destruct (d :: q); discriminate.
Qed.

Lemma join_l_nonempty args : Path.join_l args ≠ [].
Proof.
  unfold Path.join_l. destruct (filter _ args); [discriminate|].
  apply normalize_l_nonempty.
Qed.

Lemma join_truthy args : truthy (Path.join args) = true.
Proof.
  unfold truthy. rewrite bool_decide_eq_false_2; [reflexivity|].
  unfold Path.join. intros H. apply (f_equal chars) in H.
  rewrite chars_str in H. exact (join_l_nonempty _ H).
Qed.

Lemma dirname_l_nonempty p : Path.dirname_l p ≠ [].
Proof.
  unfold Path.dirname_l. destruct p as [|c0 rest]; [discriminate|].
  repeat (case_match; try discriminate).
Qed.

Lemma split_slash_nonempty p : Path.split_slash p ≠ [].
Proof.
  destruct p as [|c p]; simpl; [discriminate|].
  destruct (Path.is_slash c); [discriminate|].
  destruct (Path.split_slash p); discriminate.
Qed.

Lemma split_slash_sep a b :
  Path.split_slash (a ++ "/"%char :: b) = Path.split_slash a ++ Path.split_slash b.
Proof.
  induction a as [|c a IH]; [reflexivity|]. simpl. rewrite IH.
  destruct (Path.is_slash c); [reflexivity|].
  destruct (Path.split_slash a) as [|seg segs] eqn:Hs; [|reflexivity].
  exfalso. exact (split_slash_nonempty a Hs).
Qed.

Lemma join_segments_snoc_any xs seg :
  Path.join_segments (xs ++ [seg])
  = match xs with
    | [] => seg
    | _ => Path.join_segments xs ++ "/"%char :: seg
    end.
Proof.
  destruct xs as [|x xs]; [reflexivity|]. apply join_segments_snoc. discriminate.
Qed.

Lemma normalize_l_unfold p :
  p ≠ [] →
  Path.normalize_l p =
    let isAbsolute := Path.starts_with_slash p in
    let trailingSeparator := Path.starts_with_slash (rev p) in
    let q := Path.normalizeString p (negb isAbsolute) in
    match q with
    | [] => if isAbsolute then chars "/"
            else if trailingSeparator then chars "./" else chars "."
    | _ =>
        let q' := if trailingSeparator then q ++ chars "/" else q in
        if isAbsolute then "/"%char :: q' else q'
    end.
Proof. destruct p; [done|reflexivity]. Qed.

(** [path.join(a, name)] is a prefix determined by [a], followed by [name]. *)
Lemma join_l_file a name :
  a ≠ [] → clean name → Path.join_l [a; name] = join_prefix a ++ name.
Proof.
  intros Ha Hname. pose proof Hname as (Hne & Hfree & _).
  unfold Path.join_l.
  rewrite filter_cons_True by exact Ha.
  rewrite filter_cons_True by exact Hne.
  rewrite filter_nil. cbn [fold_left].
  rewrite normalize_l_unfold by (destruct a; discriminate).
  cbv zeta. unfold join_prefix.
  assert (Habs : Path.starts_with_slash (a ++ "/"%char :: name)
                 = Path.starts_with_slash a).
  { destruct a; [done|reflexivity]. }
  assert (Htrail : Path.starts_with_slash (rev (a ++ "/"%char :: name)) = false).
  { rewrite rev_app_distr. simpl.
    destruct (rev name) as [|c r] eqn:Hr.
    - exfalso. apply Hne. apply (f_equal (@rev _)) in Hr.
      rewrite rev_involutive in Hr. exact Hr.
    - simpl. apply slash_free_rev in Hfree. rewrite Hr in Hfree.
      apply Forall_cons in Hfree as [Hc _]. exact Hc. }
  rewrite Habs, Htrail.
  unfold Path.normalizeString.
  rewrite split_slash_sep, (split_slash_slash_free name) by exact Hfree.
  rewrite fold_left_app. cbn [fold_left].
  rewrite push_segment_clean by exact Hname.
  cbn [rev]. rewrite join_segments_snoc_any.
  destruct (rev (fold_left _ (Path.split_slash a) [])) as [|x xs].
  - destruct name as [|n0 name']; [done|].
    destruct (Path.starts_with_slash a); reflexivity.
  - destruct (Path.join_segments (x :: xs) ++ "/"%char :: name) as [|q0 q] eqn:Hq.
    { destruct (Path.join_segments (x :: xs)); discriminate. }
    rewrite <- Hq. rewrite <- !app_assoc.
    destruct (Path.starts_with_slash a); reflexivity.
Qed.

(** The prefix is empty or ends in a separator. *)
Lemma join_prefix_rev a :
  rev (join_prefix a) = [] ∨ ∃ r, rev (join_prefix a) = "/"%char :: r.
Proof.
  unfold join_prefix.
  destruct (rev (fold_left _ (Path.split_slash a) [])) as [|x xs].
  - rewrite app_nil_r. destruct (Path.starts_with_slash a); [right|left].
    + exists []. reflexivity.
    + reflexivity.
  - right. rewrite rev_app_distr, rev_app_distr. simpl. eexists. reflexivity.
Qed.

Lemma take_part_join_prefix a : Path.take_part (rev (join_prefix a)) = [].
Proof. destruct (join_prefix_rev a) as [->|[r ->]]; reflexivity. Qed.

Lemma clean_ne_nil name : clean name → name ≠ [].
Proof. intros [H _]. exact H. Qed.

Lemma basename_l_join a name :
  a ≠ [] → clean name → Path.basename_l (Path.join_l [a; name]) = name.
Proof.
  intros Ha Hname. rewrite join_l_file by assumption.
  rewrite basename_l_app.
  - rewrite take_part_join_prefix. reflexivity.
  - destruct Hname as (_ & H & _). exact H.
  - apply clean_ne_nil. exact Hname.
Qed.

Lemma dirname_l_join a name :
  a ≠ [] → clean name → Path.dirname_l (Path.join_l [a; name]) = dir_of (join_prefix a).
Proof.
  intros Ha Hname. rewrite join_l_file by assumption.
  apply dirname_l_app.
  - destruct Hname as (_ & H & _). exact H.
  - apply clean_ne_nil. exact Hname.
Qed.

Lemma take_part_slash_free r : slash_free (Path.take_part r).
Proof.
  induction r as [|c r IH]; simpl; [constructor|].
  destruct (Path.is_slash c) eqn:Hc; constructor; assumption.
Qed.

(** ** The paths the rspack adapter derives *)

(** The entry name of a path [y.js] whose [y] does not end in a separator
    is the last portion of [y]. *)
Lemma entryNameOf_js (y0 : list ascii) (c : ascii) :
  Path.is_slash c = false →
  Rspack.entryNameOf (str (y0 ++ [c]) +:+ ".js")
  = str (rev (Path.take_part (rev (y0 ++ [c])))).
Proof.
  intros Hc.
  unfold Rspack.entryNameOf, Path.basename_ext, Path.extname.
  assert (Hrev : rev (chars (str (y0 ++ [c]) +:+ ".js"))
                 = chars "sj." ++ c :: rev y0).
  { rewrite chars_app, chars_str, rev_app_distr, rev_app_distr. reflexivity. }
  assert (Hext : Path.extname_l (chars (str (y0 ++ [c]) +:+ ".js")) = chars ".js").
  { unfold Path.extname_l. rewrite Hrev. simpl. rewrite Hc. simpl. reflexivity. }
  rewrite Hext, chars_str.
  unfold Path.basename_ext_l.
  assert (Hlen : length (chars (str (y0 ++ [c]) +:+ ".js")) = length y0 + 4).
  { rewrite chars_app, chars_str, !length_app. simpl. lia. }
  rewrite Hlen.
  replace (length (chars ".js") <=? length y0 + 4) with true
    by (symmetry; apply Nat.leb_le; simpl; lia).
  simpl negb. cbn [andb].
  rewrite bool_decide_eq_false_2.
  2:{ intros Heq. apply (f_equal (@length ascii)) in Heq. rewrite Hlen in Heq.
      simpl in Heq. lia. }
  rewrite Hrev. simpl. rewrite Hc. simpl.
  rewrite rev_app_distr. simpl. rewrite Hc. reflexivity.
Qed.


Lemma stem_before_slash_free pre : slash_free (stem_before pre).
Proof. apply slash_free_rev, take_part_slash_free. Qed.

Lemma artifactsDir_nonempty p : chars (Rspack.artifactsDir p) ≠ [].
Proof.
  unfold Rspack.artifactsDir, Path.join. rewrite chars_str. apply join_l_nonempty.
Qed.

Lemma slash_free_debug_js : slash_free (chars ".debug.js").
Proof. repeat constructor. Qed.

(** For a fixture path [pre.fixture.js]: the basename, and the two derived
    paths as the prefix that [path.join] makes of the artifacts directory,
    followed by the file name. *)
Lemma rspack_derived_shape pre :
  let p := pre +:+ ".fixture.js" in
  let prefix := join_prefix (chars (Rspack.artifactsDir p)) in
  Path.basename p = str (stem_before pre) +:+ ".fixture.js"
  ∧ Rspack.deriveOutputPath p
    = str (prefix ++ stem_before pre ++ chars ".output.js")
  ∧ Rspack.deriveDebugOutputPath p
    = str (prefix ++ stem_before pre ++ chars ".debug.js").
Proof.
  cbv zeta.
  assert (Hbase : Path.basename (pre +:+ ".fixture.js")
                  = str (stem_before pre) +:+ ".fixture.js").
  { unfold Path.basename. rewrite chars_app.
    rewrite basename_l_app by (apply slash_free_fixture_js || discriminate).
    rewrite str_app, str_chars. reflexivity. }
  split; [exact Hbase|].
  unfold Rspack.deriveOutputPath, Rspack.deriveDebugOutputPath. rewrite Hbase.
  destruct (replace_fixture_suffix (str (stem_before pre)) ".output.js") as [_ ->].
  destruct (replace_fixture_suffix (str (stem_before pre)) ".debug.js") as [-> _].
  unfold Path.join. cbn [fmap list_fmap].
  rewrite !chars_app, !chars_str.
  rewrite !join_l_file.
  - split; reflexivity.
  - apply artifactsDir_nonempty.
  - apply clean_with_suffix;
      [apply stem_before_slash_free|apply slash_free_debug_js|simpl; lia].
  - apply artifactsDir_nonempty.
  - apply clean_with_suffix;
      [apply stem_before_slash_free|apply slash_free_output_js|simpl; lia].
Qed.

Lemma take_part_stem_prefix a pre :
  Path.take_part (rev (join_prefix a ++ stem_before pre)) = rev (stem_before pre).
Proof.
  rewrite rev_app_distr.
  rewrite take_part_app_lit by (apply slash_free_rev, stem_before_slash_free).
  rewrite take_part_join_prefix, app_nil_r. reflexivity.
Qed.

Lemma rspack_derived_entry_names (pre : string) :
  let p := pre +:+ ".fixture.js" in
  ∃ stem,
    Path.basename p = stem +:+ ".fixture.js"
    ∧ Path.basename (Rspack.deriveOutputPath p) = stem +:+ ".output.js"
    ∧ Path.basename (Rspack.deriveDebugOutputPath p) = stem +:+ ".debug.js"
    ∧ Rspack.entryNameOf (Rspack.deriveOutputPath p) = stem +:+ ".output"
    ∧ Rspack.entryNameOf (Rspack.deriveDebugOutputPath p) = stem +:+ ".debug"
    ∧ Rspack.entryNameOf (Rspack.deriveOutputPath p) +:+ ".js"
      = Path.basename (Rspack.deriveOutputPath p)
    ∧ Rspack.entryNameOf (Rspack.deriveDebugOutputPath p) +:+ ".js"
      = Path.basename (Rspack.deriveDebugOutputPath p).
Proof.
  cbv zeta. destruct (rspack_derived_shape pre) as (Hbase & Hout & Hdbg).
  cbv zeta in Hout, Hdbg.
  set (prefix := join_prefix (chars (Rspack.artifactsDir (pre +:+ ".fixture.js")))) in *.
  exists (str (stem_before pre)).
  assert (Hb : ∀ suffix, slash_free (chars suffix) → chars suffix ≠ [] →
            Path.basename (str (prefix ++ stem_before pre ++ chars suffix))
            = str (stem_before pre) +:+ suffix).
  { intros suffix Hs Hne. unfold Path.basename. rewrite chars_str.
    rewrite basename_l_app.
    - unfold prefix. rewrite take_part_join_prefix. simpl. rewrite str_app, str_chars.
      reflexivity.
    - apply Forall_app. split; [apply stem_before_slash_free|exact Hs].
    - destruct (stem_before pre); [exact Hne|discriminate]. }
  assert (Hn : ∀ (mid : list ascii) c, Path.is_slash c = false → slash_free mid →
            Rspack.entryNameOf
              (str (prefix ++ stem_before pre ++ (mid ++ [c]) ++ chars ".js"))
            = str (stem_before pre) +:+ str (mid ++ [c])).
  { intros mid c Hc Hmid.
    replace (str (prefix ++ stem_before pre ++ (mid ++ [c]) ++ chars ".js"))
      with (str ((prefix ++ stem_before pre ++ mid) ++ [c]) +:+ ".js").
    2:{ apply chars_inj. rewrite chars_app, !chars_str.
        rewrite <- !app_assoc. reflexivity. }
    rewrite entryNameOf_js by exact Hc.
    rewrite <- str_app. f_equal.
    rewrite <- !app_assoc. rewrite !rev_app_distr. simpl. rewrite Hc.
    rewrite <- app_assoc.
    rewrite take_part_app_lit by (apply slash_free_rev; exact Hmid).
    rewrite take_part_app_lit by (apply slash_free_rev, stem_before_slash_free).
    unfold prefix. rewrite take_part_join_prefix, app_nil_r.
    simpl. rewrite !rev_app_distr, !rev_involutive.
    rewrite <- app_assoc. reflexivity. }
  assert (Hno : Rspack.entryNameOf (Rspack.deriveOutputPath (pre +:+ ".fixture.js"))
                = str (stem_before pre) +:+ ".output").
  { rewrite Hout.
    apply (Hn (chars ".outpu") "t"%char); [reflexivity|repeat constructor]. }
  assert (Hnd : Rspack.entryNameOf (Rspack.deriveDebugOutputPath (pre +:+ ".fixture.js"))
                = str (stem_before pre) +:+ ".debug").
  { rewrite Hdbg.
    apply (Hn (chars ".debu") "g"%char); [reflexivity|repeat constructor]. }
  assert (Hbo := Hb ".output.js" slash_free_output_js ltac:(discriminate)).
  assert (Hbd := Hb ".debug.js" slash_free_debug_js ltac:(discriminate)).
  rewrite Hno, Hnd, Hout, Hdbg, Hbo, Hbd.
  repeat split; try exact Hbase.
  - apply chars_inj. rewrite !chars_app. rewrite <- app_assoc. reflexivity.
  - apply chars_inj. rewrite !chars_app. rewrite <- app_assoc. reflexivity.
Qed.

(** X2. For a fixture path [pre.fixture.js] the rspack adapter derives
    paths whose basenames are the fixture's own stem followed by
    [.output.js] and [.debug.js]; the entry names of the batch are these
    basenames without [.js], so that the file name pattern [[name].js] of
    the batch writes each bundle under the basename the adapter reports. *)
Theorem rspack_derived_names (pre : string) :
  let p := pre +:+ ".fixture.js" in
  ∃ stem,
    Path.basename p = stem +:+ ".fixture.js"
    ∧ Path.basename (Rspack.deriveOutputPath p) = stem +:+ ".output.js"
    ∧ Path.basename (Rspack.deriveDebugOutputPath p) = stem +:+ ".debug.js"
    ∧ Rspack.entryNameOf (Rspack.deriveOutputPath p) = stem +:+ ".output"
    ∧ Rspack.entryNameOf (Rspack.deriveDebugOutputPath p) = stem +:+ ".debug"
    ∧ Rspack.entryNameOf (Rspack.deriveOutputPath p) +:+ ".js"
      = Path.basename (Rspack.deriveOutputPath p)
    ∧ Rspack.entryNameOf (Rspack.deriveDebugOutputPath p) +:+ ".js"
      = Path.basename (Rspack.deriveDebugOutputPath p).
Proof. exact (rspack_derived_entry_names pre). Qed.

Lemma rspack_derived_dirname pre :
  let p := pre +:+ ".fixture.js" in
  Path.dirname (Rspack.deriveOutputPath p)
    = str (dir_of (join_prefix (chars (Rspack.artifactsDir p))))
  ∧ Path.dirname (Rspack.deriveDebugOutputPath p)
    = str (dir_of (join_prefix (chars (Rspack.artifactsDir p)))).
Proof.
  cbv zeta. destruct (rspack_derived_shape pre) as (_ & -> & ->).
  unfold Path.dirname. rewrite !chars_str.
  rewrite !dirname_l_app; [split; reflexivity|..].
  - apply Forall_app. split; [apply stem_before_slash_free|apply slash_free_debug_js].
  - destruct (stem_before pre); discriminate.
  - apply Forall_app. split; [apply stem_before_slash_free|apply slash_free_output_js].
  - destruct (stem_before pre); discriminate.
Qed.

(** X3. In an rspack batch whose fixture paths end in [.fixture.js]
    and lie in one directory, every path the batch reports, release or
    debug, lies in the one directory the build is configured to write to:
    [distPath.root] of the default environment, which the debug
    environment shares. *)
Theorem rspack_batch_paths_in_output_directory
    (f0 : Fixture.t) (fs : list Fixture.t) (debug : bool) :
  (∀ f, f ∈ f0 :: fs →
     (∃ pre, Fixture.fixturePath f = pre +:+ ".fixture.js")
     ∧ Path.dirname (Fixture.fixturePath f) = Path.dirname (Fixture.fixturePath f0)) →
  ∃ envs dflt,
    Rspack.createMultiEntryEnvironmentConfig (Rspack.withPaths <$> f0 :: fs) debug
      = Normal envs
    ∧ envs !! "default" = Some dflt
    ∧ (∀ env, env ∈ (map_to_list envs).*2 →
         Rspack.distPath_root (Rspack.output env)
         = Rspack.distPath_root (Rspack.output dflt))
    ∧ ∀ f, f ∈ f0 :: fs →
        let r := rspackBatchResult debug f in
        Path.dirname (BuildResult.outputPath r)
          = Rspack.distPath_root (Rspack.output dflt)
        ∧ ∀ d, BuildResult.debugOutputPath r = Some d →
            Path.dirname d = Rspack.distPath_root (Rspack.output dflt).
Proof.
  intros Hall.
  assert (Hdir : ∀ f, f ∈ f0 :: fs →
            Path.dirname (Rspack.deriveOutputPath (Fixture.fixturePath f))
              = Path.dirname (Rspack.deriveOutputPath (Fixture.fixturePath f0))
            ∧ Path.dirname (Rspack.deriveDebugOutputPath (Fixture.fixturePath f))
              = Path.dirname (Rspack.deriveOutputPath (Fixture.fixturePath f0))).
  { intros f Hf.
    destruct (Hall f Hf) as [[pre Hpre] Hsame].
    destruct (Hall f0 ltac:(left)) as [[pre0 Hpre0] _].
    assert (Hart : Rspack.artifactsDir (Fixture.fixturePath f)
                   = Rspack.artifactsDir (Fixture.fixturePath f0)).
    { unfold Rspack.artifactsDir. rewrite Hsame. reflexivity. }
    rewrite Hpre in Hart |- *. rewrite Hpre0 in Hart |- *.
    destruct (rspack_derived_dirname pre) as [-> ->].
    destruct (rspack_derived_dirname pre0) as [-> _].
    rewrite Hart. split; reflexivity. }
  unfold Rspack.createMultiEntryEnvironmentConfig.
  change (Rspack.withPaths <$> f0 :: fs)
    with (Rspack.withPaths f0 :: (Rspack.withPaths <$> fs)).
  cbn [Rspack.firstOutputPath lookup list_lookup Rspack.withPaths Rspack.outputPath].
  destruct debug; cbn [negb]; eexists; eexists;
    (split; [reflexivity|]); (split; [apply lookup_insert_eq || apply lookup_singleton_eq|]).
  - split.
    + intros env Henv. apply list_elem_of_fmap in Henv as ([k e] & -> & Hke).
      apply elem_of_map_to_list in Hke. cbn [snd].
      apply lookup_insert_Some in Hke as [[_ <-]|[_ Hke]]; [reflexivity|].
      apply lookup_singleton_Some in Hke as [_ <-]. reflexivity.
    + intros f Hf. cbn. destruct (Hdir f Hf) as [H1 H2]. split; [exact H1|].
      intros d [= <-]. exact H2.
  - split.
    + intros env Henv. apply list_elem_of_fmap in Henv as ([k e] & -> & Hke).
      apply elem_of_map_to_list in Hke. cbn [snd].
      apply lookup_singleton_Some in Hke as [_ <-]. reflexivity.
    + intros f Hf. cbn. destruct (Hdir f Hf) as [H1 H2]. split; [exact H1|].
      intros d [=].
Qed.

Lemma rspack_batch_paths_in_output_directory_witness :
  ∃ envs dflt,
    Rspack.createMultiEntryEnvironmentConfig (Rspack.withPaths <$> threeFixtures) true
      = Normal envs
    ∧ envs !! "default" = Some dflt
    ∧ Path.dirname (Rspack.deriveOutputPath "/m/b.fixture.js")
      = Rspack.distPath_root (Rspack.output dflt)
    ∧ Path.dirname (Rspack.deriveDebugOutputPath "/m/b.fixture.js")
      = Rspack.distPath_root (Rspack.output dflt).
Proof.
  destruct (rspack_batch_paths_in_output_directory
              (Fixture.mk "/m/a.fixture.js" "a")
              [Fixture.mk "/m/b.fixture.js" "b"; Fixture.mk "/m/c.fixture.js" "c"] true)
    as (envs & dflt & Henvs & Hd & _ & H).
  - intros f Hf. apply list_elem_of_In in Hf. simpl in Hf.
    destruct Hf as [<-|[<-|[<-|[]]]];
      (split; [|reflexivity]);
      [exists "/m/a"|exists "/m/b"|exists "/m/c"]; reflexivity.
  - destruct (H (Fixture.mk "/m/b.fixture.js" "b")) as [Hout Hdbg].
    { right. left. }
    exists envs, dflt. split; [exact Henvs|]. split; [exact Hd|].
    split; [exact Hout|]. exact (Hdbg _ eq_refl).
Defined.

(** ** The environments of an rspack single build *)

Lemma deriveDebugOutputPath_truthy p :
  truthy (Rspack.deriveDebugOutputPath p) = true.
Proof. apply join_truthy. Qed.

(** X4. In an rspack single build the enhancer receives a
    configuration with a minified [default] environment for the one entry
    [index]; a [debug] environment is there exactly when debug is requested
    (the derived debug path is never the empty string, so the guard on it
    never drops the environment), and it differs from [default] only in
    being unminified and in its file name, the basename of the debug
    path. *)
Theorem rspack_single_build_environments
    (enh : Rspack.RsbuildConfig → Rspack.RsbuildConfig)
    (rsbuild : Rspack.RsbuildConfig → outcome unit)
    (options : BuildOptions.t) :
  let fixturePath := BuildOptions.fixturePath options in
  ∃ c0 dflt,
    (run (Rspack.buildFixture enh rsbuild options)).2 = [Enhance c0; Backend (enh c0)]
    ∧ Rspack.environments c0 !! "default" = Some dflt
    ∧ Rspack.source_entry dflt = {[ "index" := fixturePath ]}
    ∧ Rspack.minify (Rspack.output dflt) = true
    ∧ Rspack.filename_js (Rspack.output dflt)
      = Path.basename (Rspack.deriveOutputPath fixturePath)
    ∧ Rspack.distPath_root (Rspack.output dflt)
      = Path.dirname (Rspack.deriveOutputPath fixturePath)
    ∧ (BuildOptions.debug options = false →
       Rspack.environments c0 = {[ "default" := dflt ]})
    ∧ (BuildOptions.debug options = true →
       Rspack.environments c0
       = {[ "default" := dflt;
            "debug" :=
              {| Rspack.source_entry := Rspack.source_entry dflt;
                 Rspack.output :=
                   Rspack.with_filename_minify (Rspack.output dflt)
                     (Path.basename (Rspack.deriveDebugOutputPath fixturePath)) false;
                 Rspack.performance_chunkSplit_strategy :=
                   Rspack.performance_chunkSplit_strategy dflt |} ]}).
Proof.
  cbv zeta. rewrite rspack_buildFixture_run. cbn [snd].
  eexists. eexists. split; [reflexivity|].
  unfold rspackDefaultConfig, Rspack.createEnvironmentConfig. cbn [Rspack.environments].
  destruct (BuildOptions.debug options).
  - cbv beta iota. rewrite deriveDebugOutputPath_truthy.
    split; [apply lookup_insert_eq|].
    repeat split; try discriminate.
  - split; [apply lookup_singleton_eq|].
    repeat split; try discriminate.
Qed.

(** ** The suffix patterns *)

Lemma match_prefix_Some pat : ∀ l rest,
  match_prefix pat l = Some rest ↔
  ∃ m, l = m ++ rest ∧ Forall2 (λ pc c, pat_matches pc c = true) pat m.
Proof.
  induction pat as [|pc pat IH]; intros l rest; simpl.
  - split.
    + intros [= ->]. exists []. split; [reflexivity|constructor].
    + intros (m & -> & Hm). inversion Hm. reflexivity.
  - destruct l as [|c l].
    + split; [discriminate|]. intros (m & Hl & Hm). inversion Hm; subst. discriminate.
    + destruct (pat_matches pc c) eqn:Hc.
      * rewrite IH. split.
        -- intros (m & -> & Hm). exists (c :: m). split; [reflexivity|].
           constructor; assumption.
        -- intros (m & Hl & Hm). inversion Hm as [|? c' ? m' Hc' Hm']; subst.
           injection Hl as <- ->. exists m'. split; [reflexivity|assumption].
      * split; [discriminate|]. intros (m & Hl & Hm).
        inversion Hm as [|? c' ? m' Hc' Hm']; subst.
        injection Hl as <- ->. congruence.
Qed.

Lemma lit_matches a c : pat_matches (Lit a) c = true → c = a.
Proof. simpl. intros H. apply Ascii.eqb_eq in H. congruence. Qed.

(** A string matches [/\.fixture.js$/] exactly when it is some [pre]
    followed by [.fixture], one character that is no line terminator, and
    [js]. *)
Lemma re_fixture_matches s rest :
  match_prefix (rev re_fixture) (rev (chars s)) = Some rest ↔
  ∃ c, is_line_terminator c = false
    ∧ s = str (rev rest) +:+ ".fixture" +:+ String c "js".
Proof.
  rewrite match_prefix_Some. split.
  - intros (m & Hs & Hm). cbn in Hm.
    repeat match goal with
           | H : Forall2 _ (_ :: _) _ |- _ =>
               inversion H; subst; clear H
           | H : Forall2 _ [] _ |- _ => inversion H; subst; clear H
           | H : pat_matches (Lit _) _ = true |- _ => apply lit_matches in H; subst
           end.
    match goal with
    | H : pat_matches AnyChar ?c = true |- _ =>
        exists c; split; [simpl in H; destruct (is_line_terminator c); [discriminate|reflexivity]|]
    end.
    apply chars_inj. rewrite !chars_app, chars_str.
    apply (f_equal (@rev ascii)) in Hs. rewrite rev_involutive in Hs.
    rewrite Hs, rev_app_distr. reflexivity.
  - intros (c & Hc & ->).
    exists (rev (chars (".fixture" +:+ String c "js"))). split.
    + rewrite chars_app, chars_str, rev_app_distr, rev_involutive. reflexivity.
    + cbn. repeat constructor. simpl. rewrite Hc. reflexivity.
Qed.

Lemma re_fixture_escaped_matches s rest :
  match_prefix (rev re_fixture_escaped) (rev (chars s)) = Some rest ↔
  s = str (rev rest) +:+ ".fixture.js".
Proof.
  rewrite match_prefix_Some. split.
  - intros (m & Hs & Hm). cbn in Hm.
    repeat match goal with
           | H : Forall2 _ (_ :: _) _ |- _ =>
               inversion H; subst; clear H
           | H : Forall2 _ [] _ |- _ => inversion H; subst; clear H
           | H : pat_matches (Lit _) _ = true |- _ => apply lit_matches in H; subst
           end.
    apply chars_inj. rewrite !chars_app, chars_str.
    apply (f_equal (@rev ascii)) in Hs. rewrite rev_involutive in Hs.
    rewrite Hs, rev_app_distr. reflexivity.
  - intros ->.
    exists (rev (chars ".fixture.js")). split.
    + rewrite chars_app, chars_str, rev_app_distr, rev_involutive. reflexivity.
    + cbn. repeat constructor.
Qed.

Lemma chars_length_app s1 s2 :
  length (chars (s1 +:+ s2)) = length (chars s1) + length (chars s2).
Proof. rewrite chars_app, length_app. reflexivity. Qed.

(** X5. The esbuild adapter changes a fixture path exactly when it ends
    in [.fixture], one more character that is no line terminator, and
    [js] (the dot of the pattern is not escaped); that ending is replaced by
    [.output.js]. For every other path the derived output path is the
    fixture path itself. *)
Theorem esbuild_output_path_changes_iff_suffix (fixturePath : string) :
  (Esbuild.deriveOutputPath fixturePath ≠ fixturePath
   ↔ ∃ pre c, is_line_terminator c = false
       ∧ fixturePath = pre +:+ ".fixture" +:+ String c "js")
  ∧ (∀ pre c, is_line_terminator c = false →
       fixturePath = pre +:+ ".fixture" +:+ String c "js" →
       Esbuild.deriveOutputPath fixturePath = pre +:+ ".output.js").
Proof.
  assert (Hfire : ∀ pre c, is_line_terminator c = false →
            fixturePath = pre +:+ ".fixture" +:+ String c "js" →
            Esbuild.deriveOutputPath fixturePath = pre +:+ ".output.js").
  { intros pre c Hc Hp. unfold Esbuild.deriveOutputPath, replace_at_end.
    destruct (re_fixture_matches fixturePath (rev (chars pre))) as [_ Hm].
    rewrite Hm.
    - rewrite rev_involutive, str_app, str_chars. reflexivity.
    - exists c. split; [exact Hc|]. rewrite rev_involutive, str_chars. exact Hp. }
  split; [|exact Hfire]. split.
  - intros Hne. unfold Esbuild.deriveOutputPath, replace_at_end in Hne.
    destruct (match_prefix (rev re_fixture) (rev (chars fixturePath)))
      as [rest|] eqn:Hm; [|done].
    apply re_fixture_matches in Hm as (c & Hc & Hp). eauto.
  - intros (pre & c & Hc & Hp). rewrite (Hfire pre c Hc Hp).
    intros Heq. apply (f_equal (λ s, length (chars s))) in Heq.
    rewrite Hp, !chars_length_app in Heq. simpl in Heq. lia.
Qed.

(** X6. The two patterns of the rspack adapter differ: the release
    pattern wants the literal ending [.fixture.js], the debug pattern
    accepts any character (but a line terminator) before [js]. For a
    fixture whose basename ends in [.fixture], a character other than a
    dot, and [js], the release file keeps the basename of the fixture
    while the debug file is [stem.debug.js]. *)
Theorem rspack_patterns_differ (fixturePath stem : string) (c : ascii) :
  is_line_terminator c = false → c ≠ "."%char →
  Path.basename fixturePath = stem +:+ ".fixture" +:+ String c "js" →
  Rspack.deriveOutputPath fixturePath
    = Path.join [Rspack.artifactsDir fixturePath; Path.basename fixturePath]
  ∧ Rspack.deriveDebugOutputPath fixturePath
    = Path.join [Rspack.artifactsDir fixturePath; stem +:+ ".debug.js"].
Proof.
  intros Hc Hdot Hbase.
  unfold Rspack.deriveOutputPath, Rspack.deriveDebugOutputPath. split; f_equal; f_equal.
  - unfold replace_at_end.
    destruct (match_prefix (rev re_fixture_escaped) (rev (chars (Path.basename fixturePath))))
      as [rest|] eqn:Hm; [|reflexivity].
    exfalso. apply re_fixture_escaped_matches in Hm. rewrite Hbase in Hm.
    apply (f_equal (λ s, rev (chars s))) in Hm.
    rewrite !chars_app, !rev_app_distr in Hm. simpl in Hm.
    inversion Hm. congruence.
  - f_equal. rewrite Hbase. unfold replace_at_end.
    destruct (re_fixture_matches (stem +:+ ".fixture" +:+ String c "js")
                (rev (chars stem))) as [_ Hm].
    rewrite Hm.
    + rewrite rev_involutive, str_app, str_chars. reflexivity.
    + exists c. split; [exact Hc|]. rewrite rev_involutive, str_chars. reflexivity.
Qed.

Lemma rspack_patterns_differ_witness :
  Rspack.deriveOutputPath "/m/a.fixture-js" = "/m/dist/a.fixture-js"
  ∧ Rspack.deriveDebugOutputPath "/m/a.fixture-js" = "/m/dist/a.debug.js".
Proof.
  apply (rspack_patterns_differ "/m/a.fixture-js" "a" "-"%char).
  - reflexivity.
  - discriminate.
  - reflexivity.
Defined.

(** ** Entry objects built by assignment *)

Lemma last_with_key_snoc_eq {A} (kf : A → string) l a k i x :
  kf a = k →
  last_with_key kf (l ++ [a]) k i x ↔ i = length l ∧ x = a.
Proof.
  intros Hk. unfold last_with_key. split.
  - intros (Hi & Hx & Hlast).
    destruct (decide (i < length l)) as [Hlt|Hge].
    + exfalso. apply (Hlast (length l) a Hlt); [|exact Hk].
      rewrite lookup_app_r by lia. replace (length l - length l) with 0 by lia.
      reflexivity.
    + rewrite lookup_app_r in Hi by lia.
      destruct (i - length l) as [|n] eqn:E; simpl in Hi; [|discriminate].
      split; [lia|congruence].
  - intros [-> ->]. split; [|split; [exact Hk|]].
    + rewrite lookup_app_r by lia. replace (length l - length l) with 0 by lia.
      reflexivity.
    + intros j y Hj Hy. apply lookup_lt_Some in Hy.
      rewrite length_app in Hy. simpl in Hy. lia.
Qed.

Lemma last_with_key_snoc_ne {A} (kf : A → string) l a k i x :
  kf a ≠ k →
  last_with_key kf (l ++ [a]) k i x ↔ last_with_key kf l k i x.
Proof.
  intros Hk. unfold last_with_key. split.
  - intros (Hi & Hx & Hlast).
    assert (Hlt : i < length l).
    { destruct (decide (i < length l)) as [|Hge]; [assumption|].
      rewrite lookup_app_r in Hi by lia.
      destruct (i - length l) as [|n]; simpl in Hi; [|discriminate].
      congruence. }
    rewrite lookup_app_l in Hi by exact Hlt.
    split; [exact Hi|]. split; [exact Hx|].
    intros j y Hj Hy. apply (Hlast j y Hj).
    rewrite lookup_app_l; [exact Hy|]. apply lookup_lt_Some in Hy. exact Hy.
  - intros (Hi & Hx & Hlast).
    pose proof (lookup_lt_Some _ _ _ Hi) as Hlt.
    split; [rewrite lookup_app_l by exact Hlt; exact Hi|].
    split; [exact Hx|].
    intros j y Hj Hy.
    destruct (decide (j < length l)) as [Hjl|Hjl].
    + rewrite lookup_app_l in Hy by exact Hjl. apply (Hlast j y Hj Hy).
    + rewrite lookup_app_r in Hy by lia.
      destruct (j - length l) as [|n]; simpl in Hy; [|discriminate].
      congruence.
Qed.

Lemma last_with_key_elem {A} (kf : A → string) l k i x :
  last_with_key kf l k i x → k ∈ kf <$> l.
Proof.
  intros (Hi & Hx & _). apply list_elem_of_fmap. exists x.
  split; [congruence|]. apply list_elem_of_lookup. eauto.
Qed.

(** What a loop of assignments [acc[kf x] = vf x] leaves under a key. *)
Lemma fold_insert_lookup {A} (kf vf : A → string) (l : list A)
    (acc : gmap string string) k v :
  fold_left (λ m x, <[kf x := vf x]> m) l acc !! k = Some v
  ↔ (∃ i x, last_with_key kf l k i x ∧ v = vf x)
    ∨ ((k ∉ kf <$> l) ∧ acc !! k = Some v).
Proof.
  revert v. induction l as [|a l IH] using rev_ind; intros v.
  - simpl. split.
    + intros H. right. split; [apply not_elem_of_nil|exact H].
    + intros [(i & x & (Hi & _) & _)|[_ H]]; [discriminate|exact H].
  - rewrite fold_left_app. simpl.
    destruct (decide (kf a = k)) as [Hk|Hk].
    + rewrite <- Hk at 1. rewrite lookup_insert_eq. split.
      * intros [= <-]. left. exists (length l), a.
        split; [|reflexivity]. apply last_with_key_snoc_eq; auto.
      * intros [(i & x & Hl & ->)|[Hnot _]].
        -- apply last_with_key_snoc_eq in Hl; [|exact Hk].
           destruct Hl as [_ ->]. reflexivity.
        -- exfalso. apply Hnot. rewrite fmap_app. simpl.
           apply elem_of_app. right. rewrite Hk. left.
    + rewrite lookup_insert_ne by exact Hk. rewrite IH. split.
      * intros [(i & x & Hl & ->)|[Hnot Hacc]].
        -- left. exists i, x. split; [|reflexivity].
           apply last_with_key_snoc_ne; assumption.
        -- right. split; [|exact Hacc]. rewrite fmap_app. simpl.
           intros [Hin|Hin]%elem_of_app; [contradiction|].
           apply list_elem_of_singleton in Hin. congruence.
      * intros [(i & x & Hl & ->)|[Hnot Hacc]].
        -- left. exists i, x. split; [|reflexivity].
           apply last_with_key_snoc_ne in Hl; assumption.
        -- right. split; [|exact Hacc]. intros Hin. apply Hnot.
           rewrite fmap_app. apply elem_of_app. left. exact Hin.
Qed.

Lemma fold_insert_dom {A} (kf vf : A → string) (l : list A) :
  ∀ acc : gmap string string,
  dom (fold_left (λ m x, <[kf x := vf x]> m) l acc)
  = list_to_set (kf <$> l) ∪ dom acc.
Proof.
  induction l as [|a l IH]; intros acc; simpl.
  - set_solver.
  - rewrite IH, dom_insert_L. set_solver.
Qed.

Lemma size_list_to_set_le (l : list string) :
  size (list_to_set l : gset string) ≤ length l.
Proof.
  induction l as [|a l IH].
  - rewrite list_to_set_nil, size_empty. simpl. lia.
  - rewrite list_to_set_cons. simpl length. destruct (decide (a ∈ (list_to_set l : gset string))) as [Hin|Hin].
    + replace ({[a]} ∪ list_to_set l : gset string) with (list_to_set l : gset string)
        by set_solver. lia.
    + rewrite size_union by set_solver. rewrite size_singleton. lia.
Qed.

Lemma size_list_to_set_NoDup (l : list string) :
  size (list_to_set l : gset string) = length l ↔ NoDup l.
Proof.
  split; [|apply size_list_to_set].
  induction l as [|a l IH]; intros Hsz.
  - constructor.
  - rewrite list_to_set_cons in Hsz. simpl length in Hsz. pose proof (size_list_to_set_le l) as Hle.
    destruct (decide (a ∈ (list_to_set l : gset string))) as [Hin|Hin].
    + replace ({[a]} ∪ list_to_set l : gset string) with (list_to_set l : gset string)
        in Hsz by set_solver. lia.
    + rewrite size_union in Hsz by set_solver. rewrite size_singleton in Hsz.
      constructor; [set_solver|]. apply IH. lia.
Qed.

Lemma fold_insert_size {A} (kf vf : A → string) (l : list A) :
  let m : gmap string string := fold_left (λ m x, <[kf x := vf x]> m) l ∅ in
  size m ≤ length l ∧ (size m = length l ↔ NoDup (kf <$> l)).
Proof.
  intros m.
  assert (Hsz : size m = size (list_to_set (kf <$> l) : gset string)).
  { rewrite <- size_dom. unfold m. rewrite fold_insert_dom, dom_empty_L.
    f_equal. set_solver. }
  rewrite Hsz. split.
  - etransitivity; [apply size_list_to_set_le|]. rewrite length_fmap. lia.
  - rewrite <- size_list_to_set_NoDup, length_fmap. reflexivity.
Qed.

(** A loop of assignments [acc[kf x] = vf x] and the loop of insertions
    agree under every key but [__proto__], which the assignments leave as
    it was. *)
Lemma fold_assign_lookup_other {A} (kf vf : A → string) (l : list A) :
  ∀ acc acc' : gmap string string,
  (∀ k, k ≠ "__proto__" → acc !! k = acc' !! k) →
  ∀ k, k ≠ "__proto__" →
    fold_left (λ m x, assign (kf x) (vf x) m) l acc !! k
    = fold_left (λ m x, <[kf x := vf x]> m) l acc' !! k.
Proof.
  induction l as [|a l IH]; intros acc acc' Hacc k Hk; [exact (Hacc k Hk)|].
  cbn [fold_left]. apply IH; [|exact Hk].
  intros k' Hk'. destruct (decide (kf a = k')) as [<-|Hne].
  - rewrite lookup_assign_eq by exact Hk'. rewrite lookup_insert_eq. reflexivity.
  - rewrite lookup_assign_ne by congruence. rewrite lookup_insert_ne by exact Hne.
    exact (Hacc k' Hk').
Qed.

Lemma fold_assign_lookup_proto {A} (kf vf : A → string) (l : list A) :
  ∀ acc : gmap string string,
  fold_left (λ m x, assign (kf x) (vf x) m) l acc !! "__proto__"
  = acc !! "__proto__".
Proof.
  induction l as [|a l IH]; intros acc; [reflexivity|].
  cbn [fold_left]. rewrite IH.
  destruct (decide (kf a = "__proto__")) as [->|Hne].
  - rewrite assign_proto. reflexivity.
  - apply lookup_assign_ne. congruence.
Qed.

(** What a loop of assignments on [{}] leaves under a key. *)
Lemma fold_assign_lookup {A} (kf vf : A → string) (l : list A) k v :
  fold_left (λ m x, assign (kf x) (vf x) m) l (∅ : gmap string string) !! k = Some v
  ↔ k ≠ "__proto__" ∧ ∃ i x, last_with_key kf l k i x ∧ v = vf x.
Proof.
  destruct (decide (k = "__proto__")) as [->|Hk].
  - rewrite fold_assign_lookup_proto, lookup_empty. split; [discriminate|].
    intros [H _]. contradiction.
  - rewrite (fold_assign_lookup_other kf vf l ∅ ∅ (λ _ _, eq_refl) k Hk).
    rewrite fold_insert_lookup. split.
    + intros [H|[_ H]]; [auto|]. rewrite lookup_empty in H. discriminate.
    + intros [_ H]. left. exact H.
Qed.

Lemma fold_assign_dom {A} (kf vf : A → string) (l : list A) :
  ∀ acc : gmap string string,
  dom (fold_left (λ m x, assign (kf x) (vf x) m) l acc)
  = (list_to_set (kf <$> l) ∖ {["__proto__"]}) ∪ dom acc.
Proof.
  induction l as [|a l IH]; intros acc.
  - cbn [fold_left]. set_solver.
  - cbn [fold_left]. rewrite IH, dom_assign, fmap_cons, list_to_set_cons.
    set_solver.
Qed.

Lemma size_without (X : gset string) (k : string) :
  size (X ∖ {[k]}) ≤ size X ∧ (size (X ∖ {[k]}) = size X ↔ k ∉ X).
Proof.
  destruct (decide (k ∈ X)) as [Hin|Hout].
  - assert (Hsub : ({[k]} : gset string) ⊆ X) by set_solver.
    pose proof (subseteq_size _ _ Hsub) as Hone.
    rewrite (size_difference X {[k]} Hsub).
    rewrite size_singleton in Hone |- *.
    split; [lia|]. split; [lia|contradiction].
  - replace (X ∖ {[k]}) with X by set_solver. split; [lia|]. split; auto.
Qed.

Lemma fold_assign_size {A} (kf vf : A → string) (l : list A) :
  let m : gmap string string :=
    fold_left (λ m x, assign (kf x) (vf x) m) l ∅ in
  size m ≤ length l
  ∧ (size m = length l ↔ NoDup (kf <$> l) ∧ "__proto__" ∉ kf <$> l).
Proof.
  intros m.
  assert (Hsz : size m
                = size ((list_to_set (kf <$> l) : gset string) ∖ {["__proto__"]})).
  { rewrite <- size_dom. unfold m. rewrite fold_assign_dom, dom_empty_L.
    f_equal. set_solver. }
  destruct (size_without (list_to_set (kf <$> l)) "__proto__") as [Hle Heq].
  pose proof (size_list_to_set_le (kf <$> l)) as Hle'.
  pose proof (size_list_to_set_NoDup (kf <$> l)) as Hnd.
  rewrite length_fmap in Hle', Hnd.
  rewrite elem_of_list_to_set in Heq.
  rewrite Hsz. split; [lia|]. split.
  - intros H. split; [apply Hnd; lia|apply Heq; lia].
  - intros [H1 H2]. apply Hnd in H1. apply Heq in H2. lia.
Qed.

Lemma forEachFrom_entries_zip fixtures : ∀ index st,
  Webpack.entries (Webpack.forEachFrom index fixtures st)
  = fold_left (λ m (kf : string * Webpack.FixtureWithPath),
                 assign kf.1 (Webpack.fixturePath kf.2) m)
      (zip (entryNamesFrom index fixtures (Webpack.seenKeys st)) fixtures)
      (Webpack.entries st).
Proof.
  induction fixtures as [|f fs IH]; intros index st; simpl; [reflexivity|].
  rewrite IH. reflexivity.
Qed.

Lemma forEachFrom_app fixtures extra : ∀ index st,
  Webpack.forEachFrom index (fixtures ++ extra) st
  = Webpack.forEachFrom (index + length fixtures) extra
      (Webpack.forEachFrom index fixtures st).
Proof.
  induction fixtures as [|f fs IH]; intros index st; simpl.
  - rewrite Nat.add_0_r. reflexivity.
  - rewrite IH. f_equal. lia.
Qed.

Lemma entryNamesFrom_app fixtures extra : ∀ index seen,
  entryNamesFrom index (fixtures ++ extra) seen
  = entryNamesFrom index fixtures seen
    ++ entryNamesFrom (index + length fixtures) extra
         (list_to_set (entryNamesFrom index fixtures seen) ∪ seen).
Proof.
  induction fixtures as [|f fs IH]; intros index seen; simpl.
  - rewrite Nat.add_0_r. f_equal. set_solver.
  - rewrite IH. f_equal.
    replace (S index + length fs) with (index + S (length fs)) by lia.
    f_equal. f_equal. set_solver.
Qed.

(** The plain name of every fixture is among the names seen after the loop. *)
Lemma plain_name_seen fixtures : ∀ index seen f,
  f ∈ fixtures →
  Webpack.entryNameOf (Webpack.outputPath f)
  ∈ (list_to_set (entryNamesFrom index fixtures seen) ∪ seen : gset string).
Proof.
  induction fixtures as [|g fs IH]; intros index seen f Hf; [inversion Hf|].
  simpl. apply elem_of_cons in Hf as [->|Hf].
  - destruct (entryNameAt_cases seen index g) as [[_ ->]|[Hin _]]; set_solver.
  - specialize (IH (S index) ({[Webpack.entryNameAt seen index g]} ∪ seen) f Hf).
    set_solver.
Qed.

Lemma zip_names_lookup (names : list string) (fs : list Webpack.FixtureWithPath)
    k i (x : string * Webpack.FixtureWithPath) :
  length names = length fs →
  last_with_key fst (zip names fs) k i x
  ↔ fs !! i = Some x.2 ∧ x.1 = k ∧ names !! i = Some k
    ∧ ∀ j, i < j → names !! j ≠ Some k.
Proof.
  intros Hlen. unfold last_with_key. split.
  - intros (Hi & Hk & Hlast).
    apply lookup_zip_with_Some in Hi as (n & f & -> & Hn & Hf). simpl in *.
    subst n. repeat split; try assumption.
    intros j Hj Hnj.
    destruct (lookup_lt_is_Some_2 fs j) as [g Hg].
    { rewrite <- Hlen. eapply lookup_lt_Some, Hnj. }
    apply (Hlast j (k, g) Hj); [|reflexivity].
    apply lookup_zip_with_Some. eauto.
  - intros (Hf & Hk & Hn & Hlast). destruct x as [n f]. simpl in *. subst n.
    split; [apply lookup_zip_with_Some; eauto|]. split; [reflexivity|].
    intros j [n g] Hj Hy Hyk. simpl in Hyk. subst n.
    apply lookup_zip_with_Some in Hy as (n & g' & [= <- <-] & Hnj & _).
    exact (Hlast j Hj Hnj).
Qed.

(** X7. The rspack batch builds its entry object by assigning
    [acc[entryName] = fixturePath] for each fixture in turn, on an object
    that starts as [{}], with no check for a name that is already there.
    So the keys of the object are the entry names of the fixtures except
    [__proto__], under which the assignment creates no property; a key
    holds the path of the last fixture with that name; the object never
    has more entries than there are fixtures; and it has one entry per
    fixture exactly when the names are pairwise distinct and none of them
    is [__proto__]. Every repeated name, and every fixture named
    [__proto__], silently drops a fixture from the build. *)
Theorem rspack_entry_last_fixture_wins (fixtures : list Rspack.FixtureWithPaths) :
  let name := λ f, Rspack.entryNameOf (Rspack.outputPath f) in
  let entry := Rspack.reduceEntry fixtures in
  dom entry = list_to_set (name <$> fixtures) ∖ {["__proto__"]}
  ∧ (∀ k p, entry !! k = Some p
       ↔ k ≠ "__proto__"
         ∧ ∃ i f, last_with_key name fixtures k i f ∧ p = Rspack.fixturePath f)
  ∧ size entry ≤ length fixtures
  ∧ (size entry = length fixtures
     ↔ NoDup (name <$> fixtures) ∧ "__proto__" ∉ name <$> fixtures).
Proof.
  intros name entry. unfold entry, Rspack.reduceEntry.
  split.
  { rewrite (fold_assign_dom name Rspack.fixturePath), dom_empty_L.
    apply (right_id_L ∅ (∪)). }
  split.
  { intros k p. exact (fold_assign_lookup name Rspack.fixturePath fixtures k p). }
  apply (fold_assign_size name Rspack.fixturePath).
Qed.

(** X8. The earlier revision of the webpack runner built the entry object
    the same way, by assignments on [{}]: the keys are the plain entry
    names except [__proto__], a key holds the path of the last fixture
    with that name, and the object has one entry per fixture exactly when
    the plain names are pairwise distinct and none of them is
    [__proto__]. *)
Theorem webpack_prev_entry_last_fixture_wins
    (fixtures : list Webpack.FixtureWithPath) :
  let name := λ f, Webpack.entryNameOf (Webpack.outputPath f) in
  let entry := WebpackPrev.buildEntry fixtures in
  dom entry = list_to_set (plainNames fixtures) ∖ {["__proto__"]}
  ∧ (∀ k p, entry !! k = Some p
       ↔ k ≠ "__proto__"
         ∧ ∃ i f, last_with_key name fixtures k i f ∧ p = Webpack.fixturePath f)
  ∧ size entry ≤ length fixtures
  ∧ (size entry = length fixtures
     ↔ NoDup (plainNames fixtures) ∧ "__proto__" ∉ plainNames fixtures).
Proof.
  intros name entry. unfold entry, WebpackPrev.buildEntry, plainNames.
  split.
  { rewrite (fold_assign_dom name Webpack.fixturePath), dom_empty_L.
    apply (right_id_L ∅ (∪)). }
  split.
  { intros k p. exact (fold_assign_lookup name Webpack.fixturePath fixtures k p). }
  apply (fold_assign_size name Webpack.fixturePath).
Qed.

(** X9. The [forEach] loop of the webpack multi-entry builder, for every
    list of fixtures: the set of seen keys is the set of assigned names,
    and the keys of the entry object are the seen keys except
    [__proto__], a name the set takes but under which the assignment to
    the object creates no property; a key holds the path of the last
    fixture that was assigned it; the object has at most one entry per
    fixture, and exactly one per fixture if and only if the assigned names
    are pairwise distinct and none of them is [__proto__]. *)
Theorem webpack_entry_object_of_assigned_names
    (fixtures : list Webpack.FixtureWithPath) :
  let st := Webpack.buildEntry fixtures in
  let names := entryNames fixtures in
  Webpack.seenKeys st = list_to_set names
  ∧ dom (Webpack.entries st) = Webpack.seenKeys st ∖ {["__proto__"]}
  ∧ (∀ k p, Webpack.entries st !! k = Some p
       ↔ k ≠ "__proto__"
         ∧ ∃ i f, fixtures !! i = Some f ∧ p = Webpack.fixturePath f
             ∧ names !! i = Some k ∧ ∀ j, i < j → names !! j ≠ Some k)
  ∧ size (Webpack.entries st) ≤ length fixtures
  ∧ (size (Webpack.entries st) = length fixtures
     ↔ NoDup names ∧ "__proto__" ∉ names).
Proof.
  intros st names.
  assert (Hseen : Webpack.seenKeys st = list_to_set names).
  { unfold st, Webpack.buildEntry. rewrite forEachFrom_seenKeys. simpl.
    unfold names, entryNames. set_solver. }
  assert (Hlen : length names = length fixtures)
    by apply length_entryNamesFrom.
  assert (Hent : Webpack.entries st
                 = fold_left (λ m (kf : string * Webpack.FixtureWithPath),
                                assign kf.1 (Webpack.fixturePath kf.2) m)
                     (zip names fixtures) ∅).
  { unfold st, Webpack.buildEntry. rewrite forEachFrom_entries_zip. reflexivity. }
  assert (Hfst : (zip names fixtures).*1 = names)
    by (apply fst_zip; lia).
  split; [exact Hseen|]. split.
  { rewrite Hseen, Hent.
    rewrite (fold_assign_dom fst (λ kf, Webpack.fixturePath kf.2)), dom_empty_L.
    rewrite Hfst. apply (right_id_L ∅ (∪)). }
  split.
  { intros k p. rewrite Hent.
    rewrite (fold_assign_lookup fst (λ kf, Webpack.fixturePath kf.2)). split.
    - intros [Hk (i & x & Hl & ->)]. split; [exact Hk|].
      apply zip_names_lookup in Hl as (Hf & _ & Hn & Hlast); [|exact Hlen].
      exists i, x.2. auto.
    - intros [Hk (i & f & Hf & -> & Hn & Hlast)]. split; [exact Hk|].
      exists i, (k, f).
      split; [|reflexivity]. apply zip_names_lookup; [exact Hlen|]. auto. }
  rewrite Hent.
  pose proof (fold_assign_size fst (λ kf : string * Webpack.FixtureWithPath,
                                      Webpack.fixturePath kf.2)
                (zip names fixtures)) as Hsz.
  cbv zeta in Hsz. rewrite Hfst in Hsz.
  rewrite length_zip_with_l_eq in Hsz by exact Hlen. rewrite Hlen in Hsz.
  exact Hsz.
Qed.

(** X10. The names the loop assigns to a list of fixtures do not depend on
    the fixtures that follow it: a longer batch continues the loop from
    the state the shorter batch left, at the next index. The first fixture
    of a batch always gets its plain name. *)
Theorem webpack_entry_names_prefix_stable
    (fixtures extra : list Webpack.FixtureWithPath) :
  Webpack.buildEntry (fixtures ++ extra)
  = Webpack.forEachFrom (length fixtures) extra (Webpack.buildEntry fixtures)
  ∧ entryNames (fixtures ++ extra)
    = entryNames fixtures
      ++ entryNamesFrom (length fixtures) extra (list_to_set (entryNames fixtures))
  ∧ take (length fixtures) (entryNames (fixtures ++ extra)) = entryNames fixtures
  ∧ (∀ f, fixtures !! 0 = Some f →
       entryNames (fixtures ++ extra) !! 0
       = Some (Webpack.entryNameOf (Webpack.outputPath f))).
Proof.
  assert (Happ : entryNames (fixtures ++ extra)
    = entryNames fixtures
      ++ entryNamesFrom (length fixtures) extra (list_to_set (entryNames fixtures))).
  { unfold entryNames. rewrite entryNamesFrom_app. simpl. f_equal. f_equal.
    set_solver. }
  split; [apply (forEachFrom_app fixtures extra 0)|].
  split; [exact Happ|]. split.
  - rewrite Happ, take_app_length'; [reflexivity|]. symmetry. apply length_entryNamesFrom.
  - intros f Hf. destruct fixtures as [|f0 fs]; [discriminate|].
    injection Hf as ->. unfold entryNames. simpl.
    unfold Webpack.entryNameAt. rewrite bool_decide_eq_false_2 by set_solver.
    reflexivity.
Qed.

(** X11. The collision handling of the newer webpack revision loses no
    key: every key of the entry object of the earlier revision is still a
    key of the newer one, which therefore has at least as many entries;
    and when the earlier revision already had one entry per fixture, the
    two entry objects are equal. *)
Theorem collision_handling_keeps_plain_keys
    (fixtures : list Webpack.FixtureWithPath) :
  let old := WebpackPrev.buildEntry fixtures in
  let new := Webpack.entries (Webpack.buildEntry fixtures) in
  dom old ⊆ dom new
  ∧ size old ≤ size new
  ∧ size new ≤ length fixtures
  ∧ (size old = length fixtures → new = old).
Proof.
  intros old new.
  assert (Hlen : length (entryNames fixtures) = length fixtures)
    by apply length_entryNamesFrom.
  assert (Hnew : new = fold_left (λ m (kf : string * Webpack.FixtureWithPath),
                                    assign kf.1 (Webpack.fixturePath kf.2) m)
                         (zip (entryNames fixtures) fixtures) ∅).
  { unfold new, Webpack.buildEntry. rewrite forEachFrom_entries_zip. reflexivity. }
  assert (Hfst : (zip (entryNames fixtures) fixtures).*1 = entryNames fixtures)
    by (apply fst_zip; lia).
  assert (Hdom_new : dom new = list_to_set (entryNames fixtures) ∖ {["__proto__"]}).
  { rewrite Hnew.
    rewrite (fold_assign_dom fst (λ kf : string * Webpack.FixtureWithPath,
                                    Webpack.fixturePath kf.2)), dom_empty_L.
    rewrite Hfst. apply (right_id_L ∅ (∪)). }
  assert (Hdom_old : dom old = list_to_set (plainNames fixtures) ∖ {["__proto__"]}).
  { unfold old, WebpackPrev.buildEntry, plainNames.
    rewrite (fold_assign_dom (λ f, Webpack.entryNameOf (Webpack.outputPath f))
               Webpack.fixturePath), dom_empty_L.
    apply (right_id_L ∅ (∪)). }
  assert (Hsub : dom old ⊆ dom new).
  { rewrite Hdom_old, Hdom_new. intros k Hk.
    apply elem_of_difference in Hk as [Hk Hp].
    apply elem_of_difference. split; [|exact Hp].
    apply elem_of_list_to_set in Hk. unfold plainNames in Hk.
    apply list_elem_of_fmap in Hk as (f & -> & Hf).
    pose proof (plain_name_seen fixtures 0 ∅ f Hf) as Hin.
    unfold entryNames. set_solver. }
  split; [exact Hsub|]. split.
  { rewrite <- !size_dom. apply subseteq_size, Hsub. }
  split.
  { rewrite Hnew.
    destruct (fold_assign_size fst (λ kf : string * Webpack.FixtureWithPath,
                                      Webpack.fixturePath kf.2)
                (zip (entryNames fixtures) fixtures)) as [Hle _].
    cbv zeta in Hle. rewrite length_zip_with_l_eq in Hle by exact Hlen.
    rewrite Hlen in Hle. exact Hle. }
  intros Hsz.
  assert (Hnd : NoDup (plainNames fixtures)).
  { destruct (fold_assign_size (λ f, Webpack.entryNameOf (Webpack.outputPath f))
                Webpack.fixturePath fixtures) as [_ Hiff].
    cbv zeta in Hiff. apply Hiff. exact Hsz. }
  unfold new, old, Webpack.buildEntry, WebpackPrev.buildEntry.
  rewrite forEachFrom_no_collision; [reflexivity | exact Hnd | intros k _; set_solver].
Qed.

(** ** Settlement, failure and the empty batch *)

(** X12. The callback of [compiler.run] calls [reject] and [resolve] with
    no [return] in between, so only the first call counts: a promise that
    is already settled is left as it is; an unsettled one is always
    settled; an [err] wins over the errors of the result; and the promise
    resolves exactly when there is no [err] and no result with errors. *)
Theorem runCallback_first_settlement_wins
    (err : option string) (result : option Webpack.Stats) (p : outcome unit) :
  (p ≠ Unsettled → Webpack.runCallback err result p = p)
  ∧ Webpack.runCallback err result p ≠ Unsettled
  ∧ (∀ e, err = Some e →
       Webpack.runCallback err result Unsettled = Rejected (BackendError e))
  ∧ (Webpack.runCallback err result Unsettled = Resolved tt
     ↔ err = None ∧ ∀ st, result = Some st → Webpack.hasErrors st = false).
Proof.
  split; [|split; [|split]].
  - intros Hp. unfold Webpack.runCallback.
    destruct p as [[]|r|]; [| |done];
      destruct err as [e|], result as [[[] errs]|]; reflexivity.
  - unfold Webpack.runCallback.
    destruct p as [[]|r|], err as [e|], result as [[[] errs]|]; discriminate.
  - intros e ->. unfold Webpack.runCallback.
    destruct result as [[[] errs]|]; reflexivity.
  - rewrite runCallback_unsettled. split.
    + destruct err as [e|]; [discriminate|]. intros H. split; [reflexivity|].
      intros st ->. destruct (Webpack.hasErrors st); [discriminate|reflexivity].
    + intros [-> H]. destruct result as [st|]; [|reflexivity].
      rewrite (H st eq_refl). reflexivity.
Qed.

(** X13. On an empty batch the webpack runner (both revisions) and the
    rspack adapter read a property of [fixtures[0]], which is [undefined]:
    the promise is rejected with that [TypeError] before the enhancer or
    the backend is called. The rspack adapter fails on the build root
    ([fixturePath]), which it reads before it builds the environments.
    The esbuild adapter reads no element: it hands the empty list to
    [runEsbuildMultiEntry] and, if that resolves, resolves with the empty
    list. *)
Theorem empty_batch_rejects_before_any_call
    (wp : Webpack.Configuration → option string * option Webpack.Stats)
    (enhW : Webpack.Configuration → Webpack.Configuration)
    (enhR : Rspack.RsbuildConfig → Rspack.RsbuildConfig)
    (rsbuild : Rspack.RsbuildConfig → outcome unit)
    (Config : Type) (enhE : Config → Config)
    (runEsbuildMultiEntry :
      Esbuild.RunEsbuildMultiEntryOptions.t Config → async (call Config) unit)
    (debug quiet : bool) :
  run (Webpack.runWebpackMultiEntry wp
         (Webpack.RunWebpackMultiEntryOptions.mk enhW [] debug quiet))
  = (Rejected (TypeError "Cannot read properties of undefined (reading 'outputPath')"),
     [])
  ∧ run (WebpackPrev.runWebpackMultiEntry wp
           (Webpack.RunWebpackMultiEntryOptions.mk enhW [] debug quiet))
    = (Rejected (TypeError "Cannot read properties of undefined (reading 'outputPath')"),
       [])
  ∧ run (Rspack.buildFixtures enhR rsbuild (BatchBuildOptions.mk [] quiet debug))
    = (Rejected (TypeError "Cannot read properties of undefined (reading 'fixturePath')"),
       [])
  ∧ (let asked := Esbuild.RunEsbuildMultiEntryOptions.mk enhE [] quiet in
     run (Esbuild.buildFixtures Config enhE runEsbuildMultiEntry
            (BatchBuildOptions.mk [] quiet debug))
     = (after (run (runEsbuildMultiEntry asked)).1 [],
        (run (runEsbuildMultiEntry asked)).2)).
Proof.
  split; [reflexivity|]. split; [reflexivity|]. split; [reflexivity|].
  cbv zeta. unfold run, Esbuild.buildFixtures, mbind, async_bind. simpl.
  destruct (runEsbuildMultiEntry _ []) as [[[]|r|] log]; reflexivity.
Qed.

(** X14. An rspack build settles as its backend does: it rejects with the
    reason the backend rejected with, and with no other; it resolves
    exactly when the backend resolves; and it stays pending when the
    backend never settles. The same holds for a batch on a non-empty
    list, where one backend run stands for all fixtures. *)
Theorem rspack_build_settles_as_backend
    (enh : Rspack.RsbuildConfig → Rspack.RsbuildConfig)
    (rsbuild : Rspack.RsbuildConfig → outcome unit)
    (options : BuildOptions.t)
    (f : Fixture.t) (fs : list Fixture.t) (quiet debug : bool) :
  (let c0 := rspackDefaultConfig (BuildOptions.fixturePath options)
               (BuildOptions.debug options) in
   let out := (run (Rspack.buildFixture enh rsbuild options)).1 in
   (∀ r, out = Rejected r ↔ rsbuild (enh c0) = Rejected r)
   ∧ ((∃ res, out = Resolved res) ↔ rsbuild (enh c0) = Resolved tt)
   ∧ (out = Unsettled ↔ rsbuild (enh c0) = Unsettled))
  ∧ (∃ c0,
       let batch := run (Rspack.buildFixtures enh rsbuild
                           (BatchBuildOptions.mk (f :: fs) quiet debug)) in
       batch.2 = [Enhance c0; Backend (enh c0)]
       ∧ (∀ r, batch.1 = Rejected r ↔ rsbuild (enh c0) = Rejected r)
       ∧ ((∃ res, batch.1 = Resolved res) ↔ rsbuild (enh c0) = Resolved tt)
       ∧ (batch.1 = Unsettled ↔ rsbuild (enh c0) = Unsettled)).
Proof.
  assert (Hafter : ∀ (B : Type) (p : outcome unit) (b : B),
            (∀ r, after p b = Rejected r ↔ p = Rejected r)
            ∧ ((∃ res, after p b = Resolved res) ↔ p = Resolved tt)
            ∧ (after p b = Unsettled ↔ p = Unsettled)).
  { intros B p b. destruct p as [[]|r0|]; simpl.
    - split; [intros r; split; discriminate|].
      split; [split; [reflexivity|eauto]|split; discriminate].
    - split; [intros r; split; congruence|].
      split; [split; [intros [res H]; discriminate|discriminate]|split; discriminate].
    - split; [intros r; split; discriminate|].
      split; [split; [intros [res H]; discriminate|discriminate]|split; reflexivity]. }
  split.
  - cbv zeta. rewrite rspack_buildFixture_run. cbn [fst]. apply Hafter.
  - destruct (rspack_buildFixtures_run enh rsbuild
                (BatchBuildOptions.mk (f :: fs) quiet debug) f fs eq_refl)
      as (envs & _ & Hrun).
    cbv zeta in Hrun. eexists. cbv zeta. rewrite Hrun. cbn [fst snd].
    split; [reflexivity|]. apply Hafter.
Qed.

(** X15. The newer revision of the webpack runner, which takes the
    shared settings from [createBaseWebpackConfig], behaves as the earlier
    one: a single run is the same for all options, and a multi-entry run
    is the same whenever the plain entry names of the fixtures are
    pairwise distinct (the case in which the collision handling has
    nothing to do). *)
Theorem webpack_revisions_run_alike
    (wp : Webpack.Configuration → option string * option Webpack.Stats)
    (single : Webpack.RunWebpackOptions.t)
    (batch : Webpack.RunWebpackMultiEntryOptions.t) :
  run (Webpack.runWebpack wp single) = run (WebpackPrev.runWebpack wp single)
  ∧ (NoDup (plainNames (Webpack.RunWebpackMultiEntryOptions.fixtures batch)) →
     run (Webpack.runWebpackMultiEntry wp batch)
     = run (WebpackPrev.runWebpackMultiEntry wp batch)).
Proof.
  split.
  - unfold run, Webpack.runWebpack, WebpackPrev.runWebpack.
    rewrite single_entry_config_revisions_agree. reflexivity.
  - intros Hnd.
    assert (Hcfg : Webpack.createMultiEntryWebpackConfig
                     (Webpack.RunWebpackMultiEntryOptions.fixtures batch)
                     (Webpack.RunWebpackMultiEntryOptions.debug batch)
                   = WebpackPrev.createMultiEntryWebpackConfig
                       (Webpack.RunWebpackMultiEntryOptions.fixtures batch)
                       (Webpack.RunWebpackMultiEntryOptions.debug batch)).
    { unfold Webpack.createMultiEntryWebpackConfig,
        WebpackPrev.createMultiEntryWebpackConfig.
      destruct (Webpack.firstOutputPath _) as [first|r]; [|reflexivity].
      unfold Webpack.buildEntry, WebpackPrev.buildEntry.
      rewrite forEachFrom_no_collision; [| exact Hnd | intros k _; set_solver].
      destruct (Webpack.RunWebpackMultiEntryOptions.debug batch); reflexivity. }
    unfold run, Webpack.runWebpackMultiEntry, WebpackPrev.runWebpackMultiEntry.
    rewrite Hcfg. reflexivity.
Qed.

(** X16. An adapter made without an argument uses the default enhancer,
    the identity: the rspack backend is then started on the very
    configuration the adapter built, in a single build and in a batch. An
    adapter made with an enhancer starts the backend on what the enhancer
    returned. Both adapters offer the batch function, under the names
    [Rsbuild] and [esbuild]. *)
Theorem default_enhancer_leaves_config
    (rsbuild : Rspack.RsbuildConfig → outcome unit)
    (enh : Rspack.RsbuildConfig → Rspack.RsbuildConfig)
    (options : BuildOptions.t)
    (f : Fixture.t) (fs : list Fixture.t) (quiet debug : bool)
    (Config : Type)
    (runEsbuild : Esbuild.RunEsbuildOptions.t Config → async (call Config) unit)
    (runEsbuildMultiEntry :
      Esbuild.RunEsbuildMultiEntryOptions.t Config → async (call Config) unit)
    (enhE : option (Config → Config)) :
  let plain := RspackBundler.createRspackBundler rsbuild None in
  let custom := RspackBundler.createRspackBundler rsbuild (Some enh) in
  let c0 := rspackDefaultConfig (BuildOptions.fixturePath options)
              (BuildOptions.debug options) in
  (run (BundlerAdapter.buildFixture plain options)).2 = [Enhance c0; Backend c0]
  ∧ (run (BundlerAdapter.buildFixture custom options)).2
    = [Enhance c0; Backend (enh c0)]
  ∧ (∃ batchFn c1,
       BundlerAdapter.buildFixtures plain = Some batchFn
       ∧ (run (batchFn (BatchBuildOptions.mk (f :: fs) quiet debug))).2
         = [Enhance c1; Backend c1])
  ∧ BundlerAdapter.name plain = "Rsbuild"
  ∧ (let esb := EsbuildBundler.createEsbuildBundler runEsbuild runEsbuildMultiEntry
                  enhE in
     BundlerAdapter.name esb = "esbuild"
     ∧ is_Some (BundlerAdapter.buildFixtures esb)
     ∧ BundlerAdapter.buildFixture esb options
       = Esbuild.buildFixture Config
           (default (λ config, config) enhE) runEsbuild options).
Proof.
  cbv zeta. split; [|split; [|split; [|split]]].
  - unfold RspackBundler.createRspackBundler. cbn [BundlerAdapter.buildFixture default].
    rewrite rspack_buildFixture_run. reflexivity.
  - unfold RspackBundler.createRspackBundler. cbn [BundlerAdapter.buildFixture default].
    rewrite rspack_buildFixture_run. reflexivity.
  - unfold RspackBundler.createRspackBundler. cbn [BundlerAdapter.buildFixtures default].
    eexists. 
    destruct (rspack_buildFixtures_run RspackBundler.DEFAULT_CONFIG_ENHANCER rsbuild
                (BatchBuildOptions.mk (f :: fs) quiet debug) f fs eq_refl)
      as (envs & _ & Hrun).
    cbv zeta in Hrun. eexists. split; [reflexivity|]. rewrite Hrun. reflexivity.
  - reflexivity.
  - split; [reflexivity|]. split; [eexists; reflexivity|]. reflexivity.
Qed.

(** X17. The esbuild adapter makes no call of its own: a build settles as
    [runEsbuild] does, with the calls [runEsbuild] made, and a rejection
    is passed on unchanged. The runner is asked to write exactly the
    output paths the adapter reports, for a batch one per fixture and in
    input order, and it is given the enhancer itself. *)
Theorem esbuild_reports_what_it_requests
    (Config : Type) (enh : Config → Config)
    (runEsbuild : Esbuild.RunEsbuildOptions.t Config → async (call Config) unit)
    (runEsbuildMultiEntry :
      Esbuild.RunEsbuildMultiEntryOptions.t Config → async (call Config) unit)
    (options : BuildOptions.t) (batch : BatchBuildOptions.t) :
  (let out := Esbuild.deriveOutputPath (BuildOptions.fixturePath options) in
   let asked := Esbuild.RunEsbuildOptions.mk enh (BuildOptions.fixturePath options)
                  out (BuildOptions.quiet options) in
   run (Esbuild.buildFixture Config enh runEsbuild options)
   = (after (run (runEsbuild asked)).1
        {| BuildResult.name := None; BuildResult.outputPath := out;
           BuildResult.debugOutputPath := None |},
      (run (runEsbuild asked)).2))
  ∧ ∃ asked,
      let results := esbuildBatchResult <$> BatchBuildOptions.fixtures batch in
      run (Esbuild.buildFixtures Config enh runEsbuildMultiEntry batch)
      = (after (run (runEsbuildMultiEntry asked)).1 results,
         (run (runEsbuildMultiEntry asked)).2)
      ∧ Esbuild.RunEsbuildMultiEntryOptions.enhanceConfig asked = enh
      ∧ Esbuild.RunEsbuildMultiEntryOptions.quiet asked = BatchBuildOptions.quiet batch
      ∧ Esbuild.ep_fixturePath <$> Esbuild.RunEsbuildMultiEntryOptions.fixtures asked
        = Fixture.fixturePath <$> BatchBuildOptions.fixtures batch
      ∧ Esbuild.ep_outputPath <$> Esbuild.RunEsbuildMultiEntryOptions.fixtures asked
        = BuildResult.outputPath <$> results.
Proof.
  split.
  - cbv zeta. unfold run, Esbuild.buildFixture, mbind, async_bind.
    destruct (runEsbuild _ []) as [[[]|r|] log]; reflexivity.
  - set (paths := λ f : Fixture.t,
                    {| Esbuild.ep_fixturePath := Fixture.fixturePath f;
                       Esbuild.ep_outputPath :=
                         Esbuild.deriveOutputPath (Fixture.fixturePath f) |}).
    exists (Esbuild.RunEsbuildMultiEntryOptions.mk enh
              (paths <$> BatchBuildOptions.fixtures batch)
              (BatchBuildOptions.quiet batch)).
    cbv zeta. split; [|split; [|split; [|split]]].
    + unfold run, Esbuild.buildFixtures, mbind, async_bind.
      rewrite <- !list_fmap_compose.
      change (runEsbuildMultiEntry _ [])
        with (runEsbuildMultiEntry
                (Esbuild.RunEsbuildMultiEntryOptions.mk enh
                   (paths <$> BatchBuildOptions.fixtures batch)
                   (BatchBuildOptions.quiet batch)) []).
      destruct (runEsbuildMultiEntry _ []) as [[[]|r|] log]; reflexivity.
    + reflexivity.
    + reflexivity.
    + cbn [Esbuild.RunEsbuildMultiEntryOptions.fixtures].
      rewrite <- !list_fmap_compose. reflexivity.
    + cbn [Esbuild.RunEsbuildMultiEntryOptions.fixtures].
      rewrite <- !list_fmap_compose. reflexivity.
Qed.

(** ** The environments of an rspack batch *)

Lemma fold_left_fmap {A B C} (g : A → B) (step : C → B → C) (l : list A) :
  ∀ acc, fold_left step (g <$> l) acc = fold_left (λ c a, step c (g a)) l acc.
Proof. induction l as [|a l IH]; intros acc; simpl; [reflexivity|apply IH]. Qed.

Lemma reduceEntry_withPaths (fixtures : list Fixture.t) :
  Rspack.reduceEntry (Rspack.withPaths <$> fixtures)
  = fold_left (λ acc f, assign (Rspack.entryNameOf
                                  (Rspack.deriveOutputPath (Fixture.fixturePath f)))
                          (Fixture.fixturePath f) acc) fixtures ∅.
Proof. unfold Rspack.reduceEntry. rewrite fold_left_fmap. reflexivity. Qed.

Lemma reduceDebugEntry_withPaths (fixtures : list Fixture.t) :
  Rspack.reduceDebugEntry (Rspack.withPaths <$> fixtures)
  = fold_left (λ acc f, assign (Rspack.entryNameOf
                                  (Rspack.deriveDebugOutputPath (Fixture.fixturePath f)))
                          (Fixture.fixturePath f) acc) fixtures ∅.
Proof.
  unfold Rspack.reduceDebugEntry. rewrite fold_left_fmap.
  generalize (∅ : gmap string string).
  induction fixtures as [|f fs IH]; intros acc; [reflexivity|].
  cbn [fold_left]. rewrite IH. f_equal.
  unfold Rspack.withPaths. cbn [Rspack.debugOutputPath Rspack.fixturePath].
  rewrite deriveDebugOutputPath_truthy. reflexivity.
Qed.

Lemma NoDup_fmap_same_equalities {A} (kf kg : A → string) (l : list A) :
  (∀ x y, x ∈ l → y ∈ l → (kf x = kf y ↔ kg x = kg y)) →
  NoDup (kf <$> l) → NoDup (kg <$> l).
Proof.
  induction l as [|a l IH]; intros Hsame; [constructor|].
  rewrite !fmap_cons, !NoDup_cons. intros [Hnot Hnd]. split.
  - intros Hin. apply Hnot.
    apply list_elem_of_fmap in Hin as (y & Hy & Hyl).
    apply list_elem_of_fmap. exists y. split; [|exact Hyl].
    apply Hsame; [left|right; exact Hyl|exact Hy].
  - apply IH; [|exact Hnd]. intros x y Hx Hy. apply Hsame; right; assumption.
Qed.

Lemma str_app_inv_tail (a b suffix : string) :
  a +:+ suffix = b +:+ suffix → a = b.
Proof.
  intros H. apply chars_inj. apply (f_equal chars) in H.
  rewrite !chars_app in H. exact (app_inv_tail _ _ _ H).
Qed.

(** X18. The environments an rspack batch hands to the enhancer, for a
    non-empty list of fixtures: a minified [default] environment whose
    entry object is built from the release paths, with the file name
    pattern [[name].js] and the directory of the first fixture's output
    path as the one output directory; without debug nothing else; with
    debug a second environment [debug] that differs from [default] only in
    being unminified and in its entry object, which is assigned a key for
    every fixture (the guard on [debugOutputPath] never skips one, the
    derived path being never empty), taken from the debug paths: its keys
    are the debug names of the fixtures except [__proto__], under which
    the assignment creates no property, and a key holds the path of the
    last fixture with that debug name. *)
Theorem rspack_batch_environments
    (f0 : Fixture.t) (fs : list Fixture.t) (debug : bool) :
  let fixtures := f0 :: fs in
  let debugName := λ f, Rspack.entryNameOf
                          (Rspack.deriveDebugOutputPath (Fixture.fixturePath f)) in
  ∃ envs dflt,
    Rspack.createMultiEntryEnvironmentConfig (Rspack.withPaths <$> fixtures) debug
      = Normal envs
    ∧ envs !! "default" = Some dflt
    ∧ Rspack.source_entry dflt = Rspack.reduceEntry (Rspack.withPaths <$> fixtures)
    ∧ Rspack.filename_js (Rspack.output dflt) = "[name].js"
    ∧ Rspack.minify (Rspack.output dflt) = true
    ∧ Rspack.distPath_root (Rspack.output dflt)
      = Path.dirname (Rspack.deriveOutputPath (Fixture.fixturePath f0))
    ∧ (debug = false → envs = {[ "default" := dflt ]})
    ∧ (debug = true →
       ∃ dbg, envs = {[ "default" := dflt; "debug" := dbg ]}
         ∧ Rspack.output dbg
           = Rspack.with_filename_minify (Rspack.output dflt) "[name].js" false
         ∧ Rspack.performance_chunkSplit_strategy dbg
           = Rspack.performance_chunkSplit_strategy dflt
         ∧ dom (Rspack.source_entry dbg)
           = list_to_set (debugName <$> fixtures) ∖ {["__proto__"]}
         ∧ ∀ k p, Rspack.source_entry dbg !! k = Some p
             ↔ k ≠ "__proto__"
               ∧ ∃ i f, last_with_key debugName fixtures k i f
                   ∧ p = Fixture.fixturePath f).
Proof.
  intros fixtures debugName.
  unfold Rspack.createMultiEntryEnvironmentConfig.
  change (Rspack.firstOutputPath (Rspack.withPaths <$> fixtures))
    with (Normal (A := string) (Rspack.deriveOutputPath (Fixture.fixturePath f0))).
  cbv iota beta zeta.
  destruct debug; cbn [negb].
  - eexists. eexists. split; [reflexivity|].
    split; [apply lookup_insert_eq|].
    do 4 (split; [reflexivity|]).
    split; [intros H; discriminate H|]. intros _. eexists. split; [reflexivity|].
    cbn [Rspack.output Rspack.source_entry Rspack.performance_chunkSplit_strategy
         Rspack.filename_js].
    split; [reflexivity|]. split; [reflexivity|].
    rewrite reduceDebugEntry_withPaths. split.
    + rewrite (fold_assign_dom debugName Fixture.fixturePath), dom_empty_L.
      apply (right_id_L ∅ (∪)).
    + intros k p.
      exact (fold_assign_lookup debugName Fixture.fixturePath fixtures k p).
  - eexists. eexists. split; [reflexivity|].
    split; [apply lookup_singleton_eq|].
    do 4 (split; [reflexivity|]).
    split; [reflexivity|]. intros H; discriminate H.
Qed.

(** X19. In an rspack batch with debug, for fixture paths that end in
    [.fixture.js]: the entry objects of the two environments mirror each
    other. The [default] environment has the path [p] under [stem.output]
    exactly when the [debug] environment has it under [stem.debug], and
    one has an entry per fixture exactly when the other has. *)
Theorem rspack_debug_entries_mirror_default (fixtures : list Fixture.t) :
  (∀ f, f ∈ fixtures → ∃ pre, Fixture.fixturePath f = pre +:+ ".fixture.js") →
  let entry := Rspack.reduceEntry (Rspack.withPaths <$> fixtures) in
  let debugEntry := Rspack.reduceDebugEntry (Rspack.withPaths <$> fixtures) in
  (∀ stem p, entry !! (stem +:+ ".output") = Some p
             ↔ debugEntry !! (stem +:+ ".debug") = Some p)
  ∧ (∀ k, k ∈ dom entry → ∃ stem, k = stem +:+ ".output")
  ∧ (∀ k, k ∈ dom debugEntry → ∃ stem, k = stem +:+ ".debug")
  ∧ (size entry = length fixtures ↔ size debugEntry = length fixtures).
Proof.
  intros Hwf entry debugEntry.
  set (nameO := λ f, Rspack.entryNameOf
                       (Rspack.deriveOutputPath (Fixture.fixturePath f))).
  set (nameD := λ f, Rspack.entryNameOf
                       (Rspack.deriveDebugOutputPath (Fixture.fixturePath f))).
  assert (Hstem : ∀ f, f ∈ fixtures →
            ∃ stem, nameO f = stem +:+ ".output" ∧ nameD f = stem +:+ ".debug").
  { intros f Hf. destruct (Hwf f Hf) as [pre Hpre].
    destruct (rspack_derived_entry_names pre) as (stem & _ & _ & _ & Ho & Hd & _).
    exists stem. unfold nameO, nameD. rewrite Hpre. auto. }
  assert (HpO : "__proto__" ∉ nameO <$> fixtures).
  { intros Hin. apply list_elem_of_fmap in Hin as (f & Hp & Hf).
    destruct (Hstem f Hf) as (stem & Ho & _). rewrite Ho in Hp.
    apply (f_equal (λ s, rev (chars s))) in Hp.
    rewrite chars_app, rev_app_distr in Hp. simpl in Hp. discriminate. }
  assert (HpD : "__proto__" ∉ nameD <$> fixtures).
  { intros Hin. apply list_elem_of_fmap in Hin as (f & Hp & Hf).
    destruct (Hstem f Hf) as (stem & _ & Hd). rewrite Hd in Hp.
    apply (f_equal (λ s, rev (chars s))) in Hp.
    rewrite chars_app, rev_app_distr in Hp. simpl in Hp. discriminate. }
  assert (HeqO : entry = fold_left (λ acc f, <[nameO f := Fixture.fixturePath f]> acc)
                           fixtures ∅).
  { unfold entry. rewrite reduceEntry_withPaths.
    exact (fold_assign_no_proto nameO Fixture.fixturePath fixtures ∅ HpO). }
  assert (HeqD : debugEntry
                 = fold_left (λ acc f, <[nameD f := Fixture.fixturePath f]> acc)
                     fixtures ∅).
  { unfold debugEntry. rewrite reduceDebugEntry_withPaths.
    exact (fold_assign_no_proto nameD Fixture.fixturePath fixtures ∅ HpD). }
  assert (Hkey : ∀ f stem, f ∈ fixtures →
            (nameO f = stem +:+ ".output" ↔ nameD f = stem +:+ ".debug")).
  { intros f stem Hf. destruct (Hstem f Hf) as (s & HsO & HsD).
    rewrite HsO, HsD.
    split; intros H; apply str_app_inv_tail in H; rewrite H; reflexivity. }
  assert (Hlast : ∀ stem i f,
            last_with_key nameO fixtures (stem +:+ ".output") i f
            ↔ last_with_key nameD fixtures (stem +:+ ".debug") i f).
  { intros stem i f. unfold last_with_key. split.
    - intros (Hi & Hk & Hl).
      assert (Hf : f ∈ fixtures) by (apply list_elem_of_lookup; eauto).
      split; [exact Hi|]. split; [exact (proj1 (Hkey f stem Hf) Hk)|].
      intros j y Hj Hy Hyk. apply (Hl j y Hj Hy).
      assert (Hyf : y ∈ fixtures) by (apply list_elem_of_lookup; eauto).
      exact (proj2 (Hkey y stem Hyf) Hyk).
    - intros (Hi & Hk & Hl).
      assert (Hf : f ∈ fixtures) by (apply list_elem_of_lookup; eauto).
      split; [exact Hi|]. split; [exact (proj2 (Hkey f stem Hf) Hk)|].
      intros j y Hj Hy Hyk. apply (Hl j y Hj Hy).
      assert (Hyf : y ∈ fixtures) by (apply list_elem_of_lookup; eauto).
      exact (proj1 (Hkey y stem Hyf) Hyk). }
  split; [|split; [|split]].
  - intros stem p. rewrite HeqO, HeqD.
    etransitivity;
      [exact (fold_insert_lookup nameO Fixture.fixturePath fixtures ∅ _ p)|].
    etransitivity;
      [|symmetry;
        exact (fold_insert_lookup nameD Fixture.fixturePath fixtures ∅ _ p)].
    split.
    + intros [(i & f & Hl & ->)|[_ H]]; [|rewrite lookup_empty in H; discriminate].
      left. exists i, f. split; [apply Hlast; exact Hl|reflexivity].
    + intros [(i & f & Hl & ->)|[_ H]]; [|rewrite lookup_empty in H; discriminate].
      left. exists i, f. split; [apply Hlast; exact Hl|reflexivity].
  - intros k. rewrite HeqO.
    rewrite (fold_insert_dom nameO Fixture.fixturePath), dom_empty_L.
    intros Hk. apply elem_of_union in Hk as [Hk|Hk];
      [|exfalso; exact (not_elem_of_empty _ Hk)].
    apply elem_of_list_to_set in Hk.
    apply list_elem_of_fmap in Hk as (f & -> & Hf).
    destruct (Hstem f Hf) as (s & Ho & _). eauto.
  - intros k. rewrite HeqD.
    rewrite (fold_insert_dom nameD Fixture.fixturePath), dom_empty_L.
    intros Hk. apply elem_of_union in Hk as [Hk|Hk];
      [|exfalso; exact (not_elem_of_empty _ Hk)].
    apply elem_of_list_to_set in Hk.
    apply list_elem_of_fmap in Hk as (f & -> & Hf).
    destruct (Hstem f Hf) as (s & _ & Hd). eauto.
  - rewrite HeqO, HeqD.
    destruct (fold_insert_size nameO Fixture.fixturePath fixtures) as [_ HO].
    destruct (fold_insert_size nameD Fixture.fixturePath fixtures) as [_ HD].
    cbv zeta in HO, HD. rewrite HO, HD.
    assert (Hsame : ∀ x y, x ∈ fixtures → y ∈ fixtures →
              (nameO x = nameO y ↔ nameD x = nameD y)).
    { intros x y Hx Hy. destruct (Hstem y Hy) as (s & HsO & HsD).
      rewrite HsO, HsD. exact (Hkey x s Hx). }
    split; apply NoDup_fmap_same_equalities; intros x y Hx Hy.
    + exact (Hsame x y Hx Hy).
    + symmetry. exact (Hsame x y Hx Hy).
Qed.

Lemma rspack_debug_entries_mirror_default_witness :
  Rspack.reduceEntry (Rspack.withPaths <$> threeFixtures) !! "b.output"
    = Some "/m/b.fixture.js"
  ∧ Rspack.reduceDebugEntry (Rspack.withPaths <$> threeFixtures) !! "b.debug"
    = Some "/m/b.fixture.js".
Proof.
  destruct (rspack_debug_entries_mirror_default threeFixtures) as (Hmirror & _).
  - intros f Hf. apply list_elem_of_In in Hf. simpl in Hf.
    destruct Hf as [<-|[<-|[<-|[]]]];
      [exists "/m/a"|exists "/m/b"|exists "/m/c"]; reflexivity.
  - assert (H : Rspack.reduceEntry (Rspack.withPaths <$> threeFixtures) !! "b.output"
                = Some "/m/b.fixture.js") by (vm_compute; reflexivity).
    split; [exact H|]. exact (proj1 (Hmirror "b" "/m/b.fixture.js") H).
Defined.

Lemma batch_entry_is_single_build_witness :
  ∃ cfg m o1,
    Webpack.createMultiEntryWebpackConfig twoFixtures true = Normal cfg
    ∧ Webpack.entry cfg = Some (Webpack.EntryObject m)
    ∧ Webpack.output
        (Webpack.createWebpackConfig "/m/fixture2.fixture.js" "/m/fixture2.output.js"
           true) = Some o1
    ∧ m !! Webpack.entryNameOf "/m/fixture2.output.js" = Some "/m/fixture2.fixture.js"
    ∧ Webpack.entryNameOf "/m/fixture2.output.js" +:+ ".js" = Webpack.filename o1.
Proof.
  destruct (batch_entry_is_single_build twoFixtures true
              (Webpack.mkFixture "/m/fixture2.fixture.js" "/m/fixture2.output.js"))
    as (cfg & m & o & o1 & Hcfg & Hentry & Ho & Ho1 & Hm & _ & Hname & _).
  - right. left.
  - intros g Hg. apply list_elem_of_In in Hg. simpl in Hg.
    destruct Hg as [<-|[<-|[]]]; [exists "/m/fixture1"|exists "/m/fixture2"];
      reflexivity.
  - refine (@bool_decide_unpack _ (NoDup_dec _) _). vm_compute. exact I.
  - intros g Hg. apply list_elem_of_In in Hg. simpl in Hg.
    destruct Hg as [<-|[<-|[]]]; vm_compute; reflexivity.
  - exists cfg, m, o1. auto.
Defined.
